(** * Gallery logic of script.js: catalog, view state, filters, grid, paginator

    A shallow embedding of the gallery part of [script.js] (lines 1-452 and
    the Lucide helper): the catalog loader with its fallback, the fandom and
    product-type filter renderers, the featured grid, the product grid with
    its pagination, and the click handlers that drive the view state.

    Modelling conventions.
    - The global [state] object and the part of the document the script
      reads and writes form one [World], threaded through every function.
    - A JavaScript function is a computation [JS A]: it takes a world and
      gives a completion (normal, or a thrown exception) and the world it
      leaves behind.  Mutations made before a [throw] stay in the world, as
      they do in JavaScript.
    - [document.getElementById] may return [null]; which elements exist is
      the field [present] of the page and never changes (the script neither
      creates nor removes the named elements).
    - Markup written through [innerHTML] is kept as the list of elements
      that the templates describe, with the attributes the script later
      reads back.  The templates interpolate catalog text unescaped, so the
      elements the parser builds are these, and [getAttribute] returns what
      was written, when the text holds no character that the parser
      interprets ([markup_free]).  The properties of a click that depend on
      an attribute read back state this about the container concerned
      ([plain_filters], [plain_featured], [plain_types]) as a hypothesis.
    - JavaScript numbers that occur here are integers far below 2^53 and are
      kept in [Z]; the single division, inside [Math.ceil], is done in [Q],
      whose ceiling agrees with that of the rounded double quotient.
    - An object used as a map ([Fandom.products]) is the list of its own
      properties in [Object.keys] order; keys of one object are distinct.
      Property lookup [obj[key]] finds the own property, or else a property
      of [Object.prototype], or else nothing ([js_get]).
    - The catalog is typed: a body that parses but does not have the shape
      of a catalog is outside the model. *)

From Stdlib Require Import String DecimalString ZArith QArith Qround List Bool Lia.
Import ListNotations.
Local Open Scope string_scope.
Local Open Scope Z_scope.

(** ** Catalog data *)

Record Product := mkProduct {
  product_id : string;
  product_image : string;
  product_name : string
}.

Record Fandom := mkFandom {
  fandom_id : string;
  fandom_name : string;
  fandom_featured : bool;
  fandom_thumbnail : string;
  fandom_products : list (string * list Product)
}.

Record ProductType := mkProductType {
  pt_id : string;
  pt_name : string;
  pt_icon : string
}.

Record Catalog := mkCatalog {
  fandoms : list Fandom;
  productTypes : list ProductType
}.

(** ** Configuration and application state (script.js, lines 9-29) *)

Record Config := mkConfig {
  itemsPerPage : Z;
  animationDelay : Z;
  scrollOffset : Z
}.

Definition CONFIG : Config :=
  {| itemsPerPage := 6; animationDelay := 100; scrollOffset := 80 |}.

Record State := mkState {
  galleryData : option Catalog;
  currentFandom : option Fandom;
  currentProductType : string;
  currentPage : Z
}.

Definition state : State :=
  {| galleryData := None;
     currentFandom := None;
     currentProductType := "llaveros";
     currentPage := 1 |}.

(** ** The document *)

Inductive ElemId :=
| galeria | fandomFilters | featuredGrid | featuredView | fandomView
| selectedFandomName | productTypeFilters | productGrid | prevPage | nextPage.

(** [<button class="filter-btn ..." data-fandom=...>label</button>] *)
Record FilterBtn := mkFilterBtn {
  fb_active : bool;
  fb_fandom : string;
  fb_label : string
}.

(** [<div class="gallery-item featured-item" data-fandom=...>] with its image
    source and caption. *)
Record FeaturedItem := mkFeaturedItem {
  fi_fandom : string;
  fi_src : string;
  fi_name : string
}.

(** [<button class="product-type-btn ..." data-type=...>] with its icon, name
    and product count. *)
Record TypeBtn := mkTypeBtn {
  tb_active : bool;
  tb_type : string;
  tb_icon : string;
  tb_name : string;
  tb_count : nat
}.

Record Page := mkPage {
  present : ElemId -> bool;
  galeria_errors : nat;                      (* .error-message banners in #galeria *)
  fandomFilters_html : list FilterBtn;
  featuredGrid_html : list FeaturedItem;
  featuredView_display : option string;      (* style.display, once set *)
  fandomView_display : option string;
  selectedFandomName_text : option string;
  productTypeFilters_html : list TypeBtn;
  productGrid_html : list Product;           (* one .product-item per product *)
  prevPage_disabled : bool;
  nextPage_disabled : bool;
  prevPage_onclick : bool;                   (* handler bound *)
  nextPage_onclick : option Z;               (* handler bound, with its totalPages *)
  scrolled : list ElemId;                    (* scrollIntoView calls, latest first *)
  console_errors : nat                       (* console.error calls *)
}.

Record World := mkWorld {
  st : State;
  page : Page
}.

(** *** Text interpolated into markup

    The templates put catalog text between double quotes and between tags
    without escaping it.  The characters that the HTML parser interprets
    there are the ampersand of a character reference, the quotes and angle
    brackets of the syntax, and NUL and carriage return, which it replaces.
    Text without them creates no element or attribute of its own and is
    read back by [getAttribute] as written. *)
Definition markup_char (c : Ascii.ascii) : bool :=
  existsb (Nat.eqb (Ascii.nat_of_ascii c)) [0; 13; 34; 38; 39; 60; 62]%nat.

Fixpoint markup_free (s : string) : bool :=
  match s with
  | EmptyString => true
  | String c rest => negb (markup_char c) && markup_free rest
  end.


Definition plain_featured (p : Page) : bool :=
  forallb (fun t => markup_free (fi_fandom t) && markup_free (fi_src t)
                    && markup_free (fi_name t))
          (featuredGrid_html p).


(** *** Field updates *)

Definition set_galleryData (v : option Catalog) (s : State) : State :=
  mkState v (currentFandom s) (currentProductType s) (currentPage s).
Definition set_currentFandom (v : option Fandom) (s : State) : State :=
  mkState (galleryData s) v (currentProductType s) (currentPage s).
Definition set_currentProductType (v : string) (s : State) : State :=
  mkState (galleryData s) (currentFandom s) v (currentPage s).
Definition set_currentPage (v : Z) (s : State) : State :=
  mkState (galleryData s) (currentFandom s) (currentProductType s) v.

Definition set_galeria_errors (v : nat) (p : Page) : Page :=
  mkPage (present p) v (fandomFilters_html p) (featuredGrid_html p)
    (featuredView_display p) (fandomView_display p) (selectedFandomName_text p)
    (productTypeFilters_html p) (productGrid_html p) (prevPage_disabled p)
    (nextPage_disabled p) (prevPage_onclick p) (nextPage_onclick p)
    (scrolled p) (console_errors p).
Definition set_fandomFilters_html (v : list FilterBtn) (p : Page) : Page :=
  mkPage (present p) (galeria_errors p) v (featuredGrid_html p)
    (featuredView_display p) (fandomView_display p) (selectedFandomName_text p)
    (productTypeFilters_html p) (productGrid_html p) (prevPage_disabled p)
    (nextPage_disabled p) (prevPage_onclick p) (nextPage_onclick p)
    (scrolled p) (console_errors p).
Definition set_featuredGrid_html (v : list FeaturedItem) (p : Page) : Page :=
  mkPage (present p) (galeria_errors p) (fandomFilters_html p) v
    (featuredView_display p) (fandomView_display p) (selectedFandomName_text p)
    (productTypeFilters_html p) (productGrid_html p) (prevPage_disabled p)
    (nextPage_disabled p) (prevPage_onclick p) (nextPage_onclick p)
    (scrolled p) (console_errors p).
Definition set_featuredView_display (v : option string) (p : Page) : Page :=
  mkPage (present p) (galeria_errors p) (fandomFilters_html p) (featuredGrid_html p)
    v (fandomView_display p) (selectedFandomName_text p)
    (productTypeFilters_html p) (productGrid_html p) (prevPage_disabled p)
    (nextPage_disabled p) (prevPage_onclick p) (nextPage_onclick p)
    (scrolled p) (console_errors p).
Definition set_fandomView_display (v : option string) (p : Page) : Page :=
  mkPage (present p) (galeria_errors p) (fandomFilters_html p) (featuredGrid_html p)
    (featuredView_display p) v (selectedFandomName_text p)
    (productTypeFilters_html p) (productGrid_html p) (prevPage_disabled p)
    (nextPage_disabled p) (prevPage_onclick p) (nextPage_onclick p)
    (scrolled p) (console_errors p).
Definition set_selectedFandomName_text (v : option string) (p : Page) : Page :=
  mkPage (present p) (galeria_errors p) (fandomFilters_html p) (featuredGrid_html p)
    (featuredView_display p) (fandomView_display p) v
    (productTypeFilters_html p) (productGrid_html p) (prevPage_disabled p)
    (nextPage_disabled p) (prevPage_onclick p) (nextPage_onclick p)
    (scrolled p) (console_errors p).
Definition set_productTypeFilters_html (v : list TypeBtn) (p : Page) : Page :=
  mkPage (present p) (galeria_errors p) (fandomFilters_html p) (featuredGrid_html p)
    (featuredView_display p) (fandomView_display p) (selectedFandomName_text p)
    v (productGrid_html p) (prevPage_disabled p)
    (nextPage_disabled p) (prevPage_onclick p) (nextPage_onclick p)
    (scrolled p) (console_errors p).
Definition set_productGrid_html (v : list Product) (p : Page) : Page :=
  mkPage (present p) (galeria_errors p) (fandomFilters_html p) (featuredGrid_html p)
    (featuredView_display p) (fandomView_display p) (selectedFandomName_text p)
    (productTypeFilters_html p) v (prevPage_disabled p)
    (nextPage_disabled p) (prevPage_onclick p) (nextPage_onclick p)
    (scrolled p) (console_errors p).
Definition set_prevPage_disabled (v : bool) (p : Page) : Page :=
  mkPage (present p) (galeria_errors p) (fandomFilters_html p) (featuredGrid_html p)
    (featuredView_display p) (fandomView_display p) (selectedFandomName_text p)
    (productTypeFilters_html p) (productGrid_html p) v
    (nextPage_disabled p) (prevPage_onclick p) (nextPage_onclick p)
    (scrolled p) (console_errors p).
Definition set_nextPage_disabled (v : bool) (p : Page) : Page :=
  mkPage (present p) (galeria_errors p) (fandomFilters_html p) (featuredGrid_html p)
    (featuredView_display p) (fandomView_display p) (selectedFandomName_text p)
    (productTypeFilters_html p) (productGrid_html p) (prevPage_disabled p)
    v (prevPage_onclick p) (nextPage_onclick p)
    (scrolled p) (console_errors p).
Definition set_prevPage_onclick (v : bool) (p : Page) : Page :=
  mkPage (present p) (galeria_errors p) (fandomFilters_html p) (featuredGrid_html p)
    (featuredView_display p) (fandomView_display p) (selectedFandomName_text p)
    (productTypeFilters_html p) (productGrid_html p) (prevPage_disabled p)
    (nextPage_disabled p) v (nextPage_onclick p)
    (scrolled p) (console_errors p).
Definition set_nextPage_onclick (v : option Z) (p : Page) : Page :=
  mkPage (present p) (galeria_errors p) (fandomFilters_html p) (featuredGrid_html p)
    (featuredView_display p) (fandomView_display p) (selectedFandomName_text p)
    (productTypeFilters_html p) (productGrid_html p) (prevPage_disabled p)
    (nextPage_disabled p) (prevPage_onclick p) v
    (scrolled p) (console_errors p).
Definition set_scrolled (v : list ElemId) (p : Page) : Page :=
  mkPage (present p) (galeria_errors p) (fandomFilters_html p) (featuredGrid_html p)
    (featuredView_display p) (fandomView_display p) (selectedFandomName_text p)
    (productTypeFilters_html p) (productGrid_html p) (prevPage_disabled p)
    (nextPage_disabled p) (prevPage_onclick p) (nextPage_onclick p)
    v (console_errors p).
Definition set_console_errors (v : nat) (p : Page) : Page :=
  mkPage (present p) (galeria_errors p) (fandomFilters_html p) (featuredGrid_html p)
    (featuredView_display p) (fandomView_display p) (selectedFandomName_text p)
    (productTypeFilters_html p) (productGrid_html p) (prevPage_disabled p)
    (nextPage_disabled p) (prevPage_onclick p) (nextPage_onclick p)
    (scrolled p) v.

Definition on_state (f : State -> State) (w : World) : World :=
  mkWorld (f (st w)) (page w).
Definition on_page (f : Page -> Page) (w : World) : World :=
  mkWorld (st w) (f (page w)).

(** ** Computations that may throw *)

Inductive Exn :=
| TypeError (what : string)       (* property access on null or undefined *)
| HttpError                       (* the Error thrown on a non-2xx status *)
| FetchRejected                   (* rejected fetch promise *)
| SyntaxError.                    (* rejected response.json() *)

Inductive Completion (A : Type) :=
| Normal (a : A)
| Throw (e : Exn).
Arguments Normal {A} a.
Arguments Throw {A} e.

Definition JS (A : Type) : Type := World -> Completion A * World.

Definition ret {A} (a : A) : JS A := fun w => (Normal a, w).
Definition throw {A} (e : Exn) : JS A := fun w => (Throw e, w).
Definition bind {A B} (m : JS A) (k : A -> JS B) : JS B :=
  fun w =>
    match m w with
    | (Normal a, w') => k a w'
    | (Throw e, w') => (Throw e, w')
    end.
Definition try_catch {A} (body : JS A) (handler : Exn -> JS A) : JS A :=
  fun w =>
    match body w with
    | (Normal a, w') => (Normal a, w')
    | (Throw e, w') => handler e w'
    end.

Declare Scope js_scope.
Delimit Scope js_scope with js.
Notation "x <- m ;; k" := (bind m (fun x => k))
  (at level 100, m at next level, right associativity) : js_scope.
Notation "m ;; k" := (bind m (fun _ => k))
  (at level 100, right associativity) : js_scope.
Local Open Scope js_scope.

Definition read {A} (f : World -> A) : JS A := fun w => (Normal (f w), w).
Definition update (f : World -> World) : JS unit := fun w => (Normal tt, f w).

(** [document.getElementById(id)]: [true] for an element, [false] for null. *)
Definition getElementById (id : ElemId) : JS bool :=
  read (fun w => present (page w) id).

(** A property access or method call on the result of a lookup that the
    source does not test: a TypeError on null, the effect otherwise. *)
Definition deref (el : bool) (what : string) (effect : World -> World) : JS unit :=
  if el then update effect else throw (TypeError what).

Definition completed {A} (r : Completion A * World) : bool :=
  match fst r with Normal _ => true | Throw _ => false end.

(** ** Library functions of the language *)

(** [Array.prototype.slice(start, end)]: negative indices count from the
    end, both bounds are clamped to the length. *)
Definition js_slice {A} (l : list A) (start end_ : Z) : list A :=
  let len := Z.of_nat (length l) in
  let k := if start <? 0 then Z.max (len + start) 0 else Z.min start len in
  let final := if end_ <? 0 then Z.max (len + end_) 0 else Z.min end_ len in
  firstn (Z.to_nat (final - k)) (skipn (Z.to_nat k) l).

(** [Math.ceil(a / b)] on integer-valued numbers. *)
Definition Math_ceil_div (a b : Z) : Z :=
  Qceiling (inject_Z a / inject_Z b).

(** The own property of an object used as a map, if any. *)
Fixpoint getOwnProperty {A} (obj : list (string * A)) (key : string) : option A :=
  match obj with
  | [] => None
  | (k, v) :: rest => if String.eqb k key then Some v else getOwnProperty rest key
  end.

(** The property names of [Object.prototype], which every object made by
    [JSON.parse] or by an object literal inherits. *)
Definition Object_prototype : list string :=
  [ "constructor"; "hasOwnProperty"; "isPrototypeOf"; "propertyIsEnumerable";
    "toLocaleString"; "toString"; "valueOf"; "__proto__";
    "__defineGetter__"; "__defineSetter__"; "__lookupGetter__"; "__lookupSetter__" ].

(** The result of [obj[key]]: the own property; failing that, the property
    of that name of [Object.prototype], a function (for ["__proto__"] the
    prototype object itself), which is truthy and is not an array; failing
    that, [undefined]. *)
Inductive Property (A : Type) :=
| Own (v : A)
| Inherited
| Absent.
Arguments Own {A} v.
Arguments Inherited {A}.
Arguments Absent {A}.

Definition js_get {A} (obj : list (string * A)) (key : string) : Property A :=
  match getOwnProperty obj key with
  | Some v => Own v
  | None => if existsb (String.eqb key) Object_prototype then Inherited else Absent
  end.

Definition Object_keys {A} (obj : list (string * A)) : list string :=
  map fst obj.

(** ** Scroll helper (script.js, lines 447-452) *)

Definition scrollIntoView (id : ElemId) (w : World) : World :=
  on_page (fun p => set_scrolled (id :: scrolled p) p) w.

Definition scrollToProductGrid : JS unit :=
  grid <- getElementById productGrid ;;
  if grid then update (scrollIntoView productGrid) else ret tt.

(** ** Paginator (script.js, lines 412-437)

    The two [onclick] closures capture [totalPages]; the page keeps, for the
    next button, the captured value.  What the closures do when they run is
    [prevPage_handler] and [nextPage_handler] below, after [renderProducts]. *)

Definition updatePaginationControls (totalItems totalPages : Z) : JS unit :=
  prevBtn <- getElementById prevPage ;;
  nextBtn <- getElementById nextPage ;;
  cur <- read (fun w => currentPage (st w)) ;;
  deref prevBtn "prevBtn.disabled"
    (on_page (set_prevPage_disabled (cur =? 1))) ;;
  deref nextBtn "nextBtn.disabled"
    (on_page (set_nextPage_disabled ((cur =? totalPages) || (totalPages =? 0)))) ;;
  update (on_page (set_prevPage_onclick true)) ;;
  update (on_page (set_nextPage_onclick (Some totalPages))).

(** ** Product grid (script.js, lines 348-400)

    The staggered fade-in at the end only sets inline styles on the tiles
    from timers; it reads and writes nothing modelled here. *)

(** Whether [fandom.products[productType]] finds a value inherited from
    [Object.prototype]. *)
Definition inherited_key (f : Fandom) (productType : string) : bool :=
  match js_get (fandom_products f) productType with
  | Inherited => true
  | _ => false
  end.

(** The array that [fandom.products[productType] || []] denotes: the own
    entry, or the empty array when the lookup gives [undefined].  For an
    inherited name the expression denotes no array ([renderProducts]
    throws before using one); the function is used where the name is not
    inherited. *)
Definition products_of (f : Fandom) (productType : string) : list Product :=
  match js_get (fandom_products f) productType with
  | Own ps => ps
  | _ => []
  end.

Definition renderProducts : JS unit :=
  cf <- read (fun w => currentFandom (st w)) ;;
  match cf with
  | None => ret tt
  | Some f =>
      ty <- read (fun w => currentProductType (st w)) ;;
      cur <- read (fun w => currentPage (st w)) ;;
      match js_get (fandom_products f) ty with
      | Inherited =>
          (* the inherited value is truthy, so [|| []] keeps it; reading its
             [length] does not throw; calling its [slice], which is
             undefined, does *)
          throw (TypeError "products.slice")
      | _ =>
          let products := products_of f ty in
          let len := Z.of_nat (length products) in
          let totalPages := Math_ceil_div len (itemsPerPage CONFIG) in
          let startIndex := (cur - 1) * itemsPerPage CONFIG in
          let endIndex := startIndex + itemsPerPage CONFIG in
          let currentProducts := js_slice products startIndex endIndex in
          grid <- getElementById productGrid ;;
          if negb grid then ret tt
          else
            update (on_page (set_productGrid_html currentProducts)) ;;
            updatePaginationControls len totalPages
      end
  end.

(** The closures bound by [updatePaginationControls]. *)
Definition prevPage_handler : JS unit :=
  cur <- read (fun w => currentPage (st w)) ;;
  if cur >? 1 then
    update (on_state (set_currentPage (cur - 1))) ;;
    renderProducts ;;
    scrollToProductGrid
  else ret tt.

Definition nextPage_handler (totalPages : Z) : JS unit :=
  cur <- read (fun w => currentPage (st w)) ;;
  if cur <? totalPages then
    update (on_state (set_currentPage (cur + 1))) ;;
    renderProducts ;;
    scrollToProductGrid
  else ret tt.

(** ** Product-type filters (script.js, lines 293-338)

    [typeButtons_from] is the body of the [forEach] over
    [Object.keys(fandom.products)], started at a given index.  The click
    listeners bound to the buttons are [productTypeBtn_handler] below;
    [initializeLucideIcons] only decorates the new markup. *)

Definition find_productType (c : Catalog) (productTypeId : string) : option ProductType :=
  find (fun pt => String.eqb (pt_id pt) productTypeId) (productTypes c).

(** Whether a key of [Fandom.products] names a product type of the catalog. *)
Definition resolves (c : Catalog) (key : string) : bool :=
  match find_productType c key with Some _ => true | None => false end.

Fixpoint typeButtons_from (c : Catalog) (fandom : Fandom)
    (keys : list string) (index : nat) : list TypeBtn :=
  match keys with
  | [] => []
  | productTypeId :: rest =>
      match find_productType c productTypeId with
      | None => typeButtons_from c fandom rest (S index)
      | Some productType =>
          {| tb_active := Nat.eqb index 0;
             tb_type := pt_id productType;
             tb_icon := pt_icon productType;
             tb_name := pt_name productType;
             tb_count := length (products_of fandom productTypeId) |}
          :: typeButtons_from c fandom rest (S index)
      end
  end.

Definition renderProductTypeFilters (fandom : Fandom) : JS unit :=
  filtersContainer <- getElementById productTypeFilters ;;
  if negb filtersContainer then ret tt
  else
    gd <- read (fun w => galleryData (st w)) ;;
    match gd, Object_keys (fandom_products fandom) with
    | None, _ :: _ => throw (TypeError "state.galleryData.productTypes")
    | None, [] => update (on_page (set_productTypeFilters_html []))
    | Some c, keys =>
        update (on_page (set_productTypeFilters_html (typeButtons_from c fandom keys 0)))
    end.

(** The listener of the [i]-th product-type button, [data_type] being its
    [data-type] attribute. *)
Definition activate_type (i : nat) (l : list TypeBtn) : list TypeBtn :=
  map (fun nb => mkTypeBtn (Nat.eqb (fst nb) i) (tb_type (snd nb)) (tb_icon (snd nb))
                   (tb_name (snd nb)) (tb_count (snd nb)))
      (combine (seq 0 (length l)) l).

Definition productTypeBtn_handler (i : nat) (data_type : string) : JS unit :=
  update (on_page (fun p => set_productTypeFilters_html
                              (activate_type i (productTypeFilters_html p)) p)) ;;
  update (on_state (set_currentProductType data_type)) ;;
  update (on_state (set_currentPage 1)) ;;
  renderProducts.

(** ** Views (script.js, lines 242-282) *)

Definition showFeaturedView : JS unit :=
  fv <- getElementById featuredView ;;
  deref fv "featuredView.style" (on_page (set_featuredView_display (Some "block"))) ;;
  dv <- getElementById fandomView ;;
  deref dv "fandomView.style" (on_page (set_fandomView_display (Some "none"))) ;;
  update (on_state (set_currentFandom None)).

(** [Object.keys(fandom.products)[0] || "llaveros"]: the empty string is
    falsy, like [undefined]. *)
Definition first_key_or_llaveros (fandom : Fandom) : string :=
  match Object_keys (fandom_products fandom) with
  | [] => "llaveros"
  | k :: _ => if String.eqb k "" then "llaveros" else k
  end.

Definition find_fandom (c : Catalog) (fandomId : string) : option Fandom :=
  find (fun f => String.eqb (fandom_id f) fandomId) (fandoms c).

Definition showFandomDetail (fandomId : string) : JS unit :=
  gd <- read (fun w => galleryData (st w)) ;;
  match gd with
  | None => throw (TypeError "state.galleryData.fandoms")
  | Some c =>
      match find_fandom c fandomId with
      | None => ret tt
      | Some fandom =>
          update (on_state (set_currentFandom (Some fandom))) ;;
          update (on_state (set_currentPage 1)) ;;
          fv <- getElementById featuredView ;;
          deref fv "featuredView.style"
            (on_page (set_featuredView_display (Some "none"))) ;;
          dv <- getElementById fandomView ;;
          deref dv "fandomView.style"
            (on_page (set_fandomView_display (Some "block"))) ;;
          sn <- getElementById selectedFandomName ;;
          deref sn "selectedFandomName.textContent"
            (on_page (set_selectedFandomName_text (Some (fandom_name fandom)))) ;;
          renderProductTypeFilters fandom ;;
          update (on_state (set_currentProductType (first_key_or_llaveros fandom))) ;;
          renderProducts ;;
          g <- getElementById galeria ;;
          deref g "galeria.scrollIntoView" (scrollIntoView galeria)
      end
  end.

(** ** Fandom filter click (script.js, lines 217-232)

    The event target is the [i]-th [.filter-btn]; [fandomId] is its
    [data-fandom] attribute. *)

Definition activate_filter (i : nat) (l : list FilterBtn) : list FilterBtn :=
  map (fun nb => mkFilterBtn (Nat.eqb (fst nb) i) (fb_fandom (snd nb)) (fb_label (snd nb)))
      (combine (seq 0 (length l)) l).

Definition handleFandomFilter (i : nat) (fandomId : string) : JS unit :=
  update (on_page (fun p => set_fandomFilters_html
                              (activate_filter i (fandomFilters_html p)) p)) ;;
  if String.eqb fandomId "all" then showFeaturedView
  else showFandomDetail fandomId.

(** ** Fandom filters and featured grid (script.js, lines 125-206) *)

Definition fandom_button (fandom : Fandom) : FilterBtn :=
  {| fb_active := false; fb_fandom := fandom_id fandom; fb_label := fandom_name fandom |}.

Definition all_button : FilterBtn :=
  {| fb_active := true; fb_fandom := "all"; fb_label := "Más populares" |}.

Definition renderFandomFilters : JS unit :=
  filtersContainer <- getElementById fandomFilters ;;
  gd <- read (fun w => galleryData (st w)) ;;
  match filtersContainer, gd with
  | true, Some c =>
      update (on_page (set_fandomFilters_html (all_button :: map fandom_button (fandoms c))))
  | _, _ => ret tt
  end.

Definition featured_item (fandom : Fandom) : FeaturedItem :=
  {| fi_fandom := fandom_id fandom;
     fi_src := if String.eqb (fandom_thumbnail fandom) ""
               then "img/placeholder.jpg" else fandom_thumbnail fandom;
     fi_name := fandom_name fandom |}.

Definition renderFeaturedProducts : JS unit :=
  grid <- getElementById featuredGrid ;;
  gd <- read (fun w => galleryData (st w)) ;;
  match grid, gd with
  | true, Some c =>
      update (on_page (set_featuredGrid_html (map featured_item (js_slice (fandoms c) 0 6))))
  | _, _ => ret tt
  end.

Definition initializeGallery : JS unit :=
  renderFandomFilters ;;
  renderFeaturedProducts.

(** ** Catalog loader (script.js, lines 39-102)

    The outcome of [fetch("gallery-data.json")] and of [response.json()] is
    an input: the promise is rejected, or a response arrives with its [ok]
    flag and a body that parses to a catalog or does not. *)

Definition getFallbackData : Catalog :=
  {| fandoms :=
       [ {| fandom_id := "isaac";
            fandom_name := "The Binding of Isaac";
            fandom_featured := true;
            fandom_thumbnail := "img/isaac.jpg";
            fandom_products :=
              [ ("llaveros",
                 [ mkProduct "isaac-1" "img/isaac.jpg" "Isaac Design 1";
                   mkProduct "isaac-2" "img/isaac.jpg" "Isaac Design 2" ]) ] |} ];
     productTypes := [ mkProductType "llaveros" "Llaveros" "" ] |}.

Inductive Body :=
| Malformed
| Json (c : Catalog).

Inductive FetchResult :=
| Rejected
| Response (ok : bool) (body : Body).

Definition fetch_failed (r : FetchResult) : bool :=
  match r with
  | Response true (Json _) => false
  | _ => true
  end.

Definition loadGalleryData (r : FetchResult) : JS unit :=
  try_catch
    (match r with
     | Rejected => throw FetchRejected
     | Response ok body =>
         if negb ok then throw HttpError
         else match body with
              | Malformed => throw SyntaxError
              | Json c =>
                  update (on_state (set_galleryData (Some c))) ;;
                  initializeGallery
              end
     end)
    (fun error =>
       update (on_page (fun p => set_console_errors (S (console_errors p)) p)) ;;
       gallery <- getElementById galeria ;;
       (if gallery
        then update (on_page (fun p => set_galeria_errors (S (galeria_errors p)) p))
        else ret tt) ;;
       update (on_state (set_galleryData (Some getFallbackData))) ;;
       initializeGallery).

(** ** Events

    What the browser can deliver to the script: the [DOMContentLoaded]
    event, whose handler runs [loadGalleryData] against some fetch outcome,
    and clicks on the controls that carry listeners.  A click on a control
    that does not exist or has no listener does nothing.  An exception that
    leaves a handler is reported by the browser and the page goes on, so a
    step keeps the world and drops the completion.  Clicks are delivered
    whether or not a button is disabled or hidden, which only adds
    behaviours.

    The listeners of the filter buttons, featured tiles and product-type
    buttons read [data-fandom] or [data-type] back with [getAttribute].
    [dispatch] hands them the text that the template wrote, and takes the
    i-th element to be the one made by the i-th instance of the template:
    this is what the parser built when the container is plain
    ([plain_filters], [plain_featured], [plain_types]).  For other markup
    the elements and their attributes depend on the HTML syntax and
    [dispatch] is not their model. *)

Inductive Event :=
| DOMContentLoaded (r : FetchResult)
| Click_filterBtn (i : nat)
| Click_featuredItem (i : nat)
| Click_productTypeBtn (i : nat)
| Click_prevPage
| Click_nextPage.

Definition dispatch (e : Event) : JS unit :=
  fun w =>
    match e with
    | DOMContentLoaded r => loadGalleryData r w
    | Click_filterBtn i =>
        match nth_error (fandomFilters_html (page w)) i with
        | Some btn => handleFandomFilter i (fb_fandom btn) w
        | None => (Normal tt, w)
        end
    | Click_featuredItem i =>
        match nth_error (featuredGrid_html (page w)) i with
        | Some item => showFandomDetail (fi_fandom item) w
        | None => (Normal tt, w)
        end
    | Click_productTypeBtn i =>
        match nth_error (productTypeFilters_html (page w)) i with
        | Some btn => productTypeBtn_handler i (tb_type btn) w
        | None => (Normal tt, w)
        end
    | Click_prevPage =>
        if prevPage_onclick (page w) then prevPage_handler w else (Normal tt, w)
    | Click_nextPage =>
        match nextPage_onclick (page w) with
        | Some totalPages => nextPage_handler totalPages w
        | None => (Normal tt, w)
        end
    end.

Definition step (w : World) (e : Event) : World := snd (dispatch e w).

Definition run (w : World) (es : list Event) : World := fold_left step es w.

(** A freshly loaded page: the script's initial [state], nothing rendered by
    the script yet, no listener bound. *)
Definition fresh_page (elements : ElemId -> bool) : Page :=
  {| present := elements;
     galeria_errors := 0;
     fandomFilters_html := [];
     featuredGrid_html := [];
     featuredView_display := None;
     fandomView_display := None;
     selectedFandomName_text := None;
     productTypeFilters_html := [];
     productGrid_html := [];
     prevPage_disabled := false;
     nextPage_disabled := false;
     prevPage_onclick := false;
     nextPage_onclick := None;
     scrolled := [];
     console_errors := 0 |}.

Definition initial (elements : ElemId -> bool) : World :=
  {| st := state; page := fresh_page elements |}.

Inductive reachable (elements : ElemId -> bool) : World -> Prop :=
| reachable_initial : reachable elements (initial elements)
| reachable_step w e : reachable elements w -> reachable elements (step w e).



(** ** Derived notions used to state the properties *)

(** The world left by a paginator update that finds both buttons. *)
Definition paginated (totalPages : Z) (w : World) : World :=
  let cur := currentPage (st w) in
  on_page (set_nextPage_onclick (Some totalPages))
    (on_page (set_prevPage_onclick true)
       (on_page (set_nextPage_disabled ((cur =? totalPages) || (totalPages =? 0)))
          (on_page (set_prevPage_disabled (cur =? 1)) w))).

(** What [renderProducts] computes for a fandom, a product type and a page. *)
Definition total_pages (f : Fandom) (productType : string) : Z :=
  Math_ceil_div (Z.of_nat (length (products_of f productType))) (itemsPerPage CONFIG).

Definition page_of (f : Fandom) (productType : string) (cur : Z) : list Product :=
  js_slice (products_of f productType)
    ((cur - 1) * itemsPerPage CONFIG)
    ((cur - 1) * itemsPerPage CONFIG + itemsPerPage CONFIG).

(** The world in which the loader's [catch] block starts the second
    initialization: error logged, banner shown if [#galeria] exists, fallback
    catalog installed. *)
Definition after_failure (w : World) : World :=
  on_state (set_galleryData (Some getFallbackData))
    ((if present (page w) galeria
      then on_page (fun p => set_galeria_errors (S (galeria_errors p)) p)
      else fun w0 => w0)
       (on_page (fun p => set_console_errors (S (console_errors p)) p) w)).

(** The world in which [showFandomDetail] calls [renderProducts], when it
    gets that far: fandom selected, page reset, views switched, product-type
    filters rebuilt, first product type selected. *)
Definition detail_entered (c : Catalog) (fandom : Fandom) (w : World) : World :=
  let w1 := on_state (set_currentPage 1) (on_state (set_currentFandom (Some fandom)) w) in
  let w2 := on_page (set_featuredView_display (Some "none")) w1 in
  let w3 := on_page (set_fandomView_display (Some "block")) w2 in
  let w4 := on_page (set_selectedFandomName_text (Some (fandom_name fandom))) w3 in
  let w5 := if present (page w) productTypeFilters
            then on_page (set_productTypeFilters_html
                            (typeButtons_from c fandom (Object_keys (fandom_products fandom)) 0)) w4
            else w4 in
  on_state (set_currentProductType (first_key_or_llaveros fandom)) w5.

(** The world it leaves when one of the three elements it writes to is
    missing. *)
Definition detail_failed (fandom : Fandom) (w : World) : World :=
  let w1 := on_state (set_currentPage 1) (on_state (set_currentFandom (Some fandom)) w) in
  if present (page w) featuredView then
    let w2 := on_page (set_featuredView_display (Some "none")) w1 in
    if present (page w) fandomView then
      on_page (set_fandomView_display (Some "block")) w2
    else w2
  else w1.

Definition views_present (elements : ElemId -> bool) : Prop :=
  elements featuredView = true /\ elements fandomView = true /\
  elements selectedFandomName = true.

Definition paginator_present (elements : ElemId -> bool) : Prop :=
  elements productGrid = true /\ elements prevPage = true /\
  elements nextPage = true.

(** What the paginator's handlers rely on, over the worlds of a page with
    the given elements: the page number is at least 1; the two handlers are
    bound together; product-type buttons and bound handlers exist only on a
    page that has every element on the way to them; and once the handlers
    are bound, the page number is at most the captured totalPages (or is 1
    when that is 0), and the captured totalPages is that of the list on
    display. *)
Definition paginator_inv (elements : ElemId -> bool) (w : World) : Prop :=
  present (page w) = elements /\
  1 <= currentPage (st w) /\
  (prevPage_onclick (page w) = true <-> nextPage_onclick (page w) <> None) /\
  (productTypeFilters_html (page w) <> [] -> views_present elements) /\
  (forall totalPages, nextPage_onclick (page w) = Some totalPages ->
     views_present elements /\ paginator_present elements /\
     0 <= totalPages /\
     currentPage (st w) <= Z.max 1 totalPages /\
     (forall f, currentFandom (st w) = Some f ->
        totalPages = total_pages f (currentProductType (st w)))).

(** What must hold when [renderProducts] is called for it to restore
    [paginator_inv]; in particular the product type must not be an
    inherited name, for which the renderer throws and rebinds nothing. *)
Definition pre_render (elements : ElemId -> bool) (w : World) : Prop :=
  present (page w) = elements /\
  1 <= currentPage (st w) /\
  (prevPage_onclick (page w) = true <-> nextPage_onclick (page w) <> None) /\
  (productTypeFilters_html (page w) <> [] -> views_present elements) /\
  (forall totalPages, nextPage_onclick (page w) = Some totalPages ->
     views_present elements /\ paginator_present elements /\
     0 <= totalPages /\
     (currentFandom (st w) = None -> currentPage (st w) <= Z.max 1 totalPages)) /\
  (forall f, currentFandom (st w) = Some f ->
     paginator_present elements ->
     views_present elements /\
     currentPage (st w) <= Z.max 1 (total_pages f (currentProductType (st w)))) /\
  (forall f, currentFandom (st w) = Some f ->
     inherited_key f (currentProductType (st w)) = false).

(** The part of the world that [paginator_inv] reads. *)
Definition footprint (w : World) :=
  (present (page w), currentFandom (st w), currentProductType (st w),
   currentPage (st w), prevPage_onclick (page w), nextPage_onclick (page w),
   productTypeFilters_html (page w)).

(** The part of the world that the fandom filter is made of. *)
Definition filters_footprint (w : World) :=
  (present (page w) fandomFilters, galleryData (st w), fandomFilters_html (page w)).


(** The part of the world that decides which product list is looked up. *)
Definition key_footprint (w : World) :=
  (present (page w), currentFandom (st w), currentProductType (st w),
   productTypeFilters_html (page w)).

(** The product type that [renderProducts] looks up in the selected fandom
    is one of that fandom's own keys or the literal ["llaveros"], and the
    product-type buttons on the page are those of the selected fandom. *)
Definition own_key_inv (elements : ElemId -> bool) (w : World) : Prop :=
  present (page w) = elements /\
  (~ views_present elements ->
   currentProductType (st w) = "llaveros" /\ productTypeFilters_html (page w) = []) /\
  (elements productTypeFilters = false -> productTypeFilters_html (page w) = []) /\
  (forall f, currentFandom (st w) = Some f ->
     (currentProductType (st w) = "llaveros" \/
      In (currentProductType (st w)) (Object_keys (fandom_products f))) /\
     (forall b, In b (productTypeFilters_html (page w)) ->
        In (tb_type b) (Object_keys (fandom_products f)))).

(** Projections of updated records. *)
Ltac wsimpl :=
  cbn [fst snd st page on_state on_page scrollIntoView
       galleryData currentFandom currentProductType currentPage
       set_galleryData set_currentFandom set_currentProductType set_currentPage
       present galeria_errors fandomFilters_html featuredGrid_html
       featuredView_display fandomView_display selectedFandomName_text
       productTypeFilters_html productGrid_html prevPage_disabled nextPage_disabled
       prevPage_onclick nextPage_onclick scrolled console_errors
       set_galeria_errors set_fandomFilters_html set_featuredGrid_html
       set_featuredView_display set_fandomView_display set_selectedFandomName_text
       set_productTypeFilters_html set_productGrid_html set_prevPage_disabled
       set_nextPage_disabled set_prevPage_onclick set_nextPage_onclick
       set_scrolled set_console_errors] in *.

Ltac split_inv := refine (conj _ (conj _ (conj _ (conj _ _)))).
Ltac split_pre := refine (conj _ (conj _ (conj _ (conj _ (conj _ (conj _ _)))))).

Ltac js_unfold :=
  unfold getElementById, deref, try_catch, bind, ret, throw, read, update in *;
  cbv beta iota in *.

(** ** Sample catalogs and pages *)

Definition numbered_product (i : nat) : Product :=
  let n := NilEmpty.string_of_uint (Nat.to_uint i) in
  {| product_id := "isaac-" ++ n;
     product_image := "img/isaac.jpg";
     product_name := "Isaac Design " ++ n |}.

Definition numbered_products (n : nat) : list Product :=
  map numbered_product (seq 1 n).

(** Two fandoms and one product type; the first fandom has 13 products. *)
Definition catalog13 : Catalog :=
  {| fandoms :=
       [ mkFandom "isaac" "The Binding of Isaac" true "img/isaac.jpg"
           [ ("llaveros", numbered_products 13) ];
         mkFandom "hades" "Hades" true ""
           [ ("llaveros", numbered_products 2) ] ];
     productTypes := [ mkProductType "llaveros" "Llaveros" "key" ] |}.

(** A fandom whose first product-type key is not a catalog product type. *)
Definition fandom_stickers_first : Fandom :=
  mkFandom "isaac" "The Binding of Isaac" true "img/isaac.jpg"
    [ ("stickers", numbered_products 1); ("llaveros", numbered_products 2) ].

Definition catalog_stickers_first : Catalog :=
  {| fandoms := [ fandom_stickers_first ];
     productTypes := [ mkProductType "llaveros" "Llaveros" "key" ] |}.

(** Eight fandoms, for the featured grid. *)
Definition catalog8 : Catalog :=
  {| fandoms :=
       map (fun i => mkFandom ("f" ++ NilEmpty.string_of_uint (Nat.to_uint i)) "Fandom" true ""
                       [ ("llaveros", numbered_products i) ])
           (seq 1 8);
     productTypes := [ mkProductType "llaveros" "Llaveros" "key" ] |}.

Definition all_elements : ElemId -> bool := fun _ => true.

Definition no_pagination : ElemId -> bool :=
  fun id => match id with prevPage | nextPage => false | _ => true end.

Definition no_featuredView : ElemId -> bool :=
  fun id => match id with featuredView => false | _ => true end.

Definition ok_response (c : Catalog) : FetchResult := Response true (Json c).

(** The page once [catalog13] is loaded and its first fandom is selected
    from the fandom filter. *)
Definition isaac_detail : World :=
  run (initial all_elements) [DOMContentLoaded (ok_response catalog13); Click_filterBtn 1].

(** The same page after one click on "next": page 2 of 3. *)
Definition isaac_page2 : World := step isaac_detail Click_nextPage.

(** The page once the fetch has failed and the fallback catalog is installed. *)
Definition fallback_loaded : World :=
  step (initial all_elements) (DOMContentLoaded Rejected).

(** The claim that every change of fandom or product type resets the page,
    over the worlds reachable on a page with the given elements. *)
Definition page_reset_on_every_change (elements : ElemId -> bool) : Prop :=
  forall w e, reachable elements w ->
    currentFandom (st (step w e)) <> currentFandom (st w) \/
    currentProductType (st (step w e)) <> currentProductType (st w) ->
    currentPage (st (step w e)) = 1.

(** ** Further notions used to state properties of the gallery *)

(** The page numbers 1, ..., totalPages. *)
Definition page_numbers (totalPages : Z) : list Z :=
  map Z.of_nat (seq 1 (Z.to_nat totalPages)).

(** All elements that [showFandomDetail] and the paginator write to. *)
Definition detail_elements (elements : ElemId -> bool) : Prop :=
  views_present elements /\ paginator_present elements.

(** The part of the world that the grid and the paginator show, with the
    view state it is shown for. *)
Definition display_footprint (w : World) :=
  (currentFandom (st w), currentProductType (st w), currentPage (st w),
   nextPage_onclick (page w), productGrid_html (page w),
   prevPage_disabled (page w), nextPage_disabled (page w)).

(** Once the paginator is bound and a fandom is selected, what the page
    shows is what the view state says: the grid holds the slice of the
    current page and the two buttons are disabled at the two ends. *)
Definition display_inv (w : World) : Prop :=
  forall totalPages f,
    nextPage_onclick (page w) = Some totalPages ->
    currentFandom (st w) = Some f ->
    productGrid_html (page w) =
      page_of f (currentProductType (st w)) (currentPage (st w)) /\
    prevPage_disabled (page w) = (currentPage (st w) =? 1) /\
    nextPage_disabled (page w) =
      ((currentPage (st w) =? totalPages) || (totalPages =? 0)).

(** The positions, from [start] on, of the elements that satisfy [act]:
    for a list of buttons, the positions of those of class "active". *)
Fixpoint indices_from {A} (act : A -> bool) (l : list A) (start : nat) : list nat :=
  match l with
  | [] => []
  | x :: rest =>
      if act x then start :: indices_from act rest (S start)
      else indices_from act rest (S start)
  end.

Definition active_filters (w : World) : list nat :=
  indices_from fb_active (fandomFilters_html (page w)) 0.

Definition active_types (w : World) : list nat :=
  indices_from tb_active (productTypeFilters_html (page w)) 0.


(** The part of the world that only the loader writes. *)
Definition loader_footprint (w : World) :=
  (present (page w), galleryData (st w), featuredGrid_html (page w),
   galeria_errors (page w), console_errors (page w)).

(** The featured grid shows the first six fandoms of the catalog. *)
Definition featured_inv (w : World) : Prop :=
  present (page w) featuredGrid = true ->
  match galleryData (st w) with
  | None => featuredGrid_html (page w) = []
  | Some c => featuredGrid_html (page w) = map featured_item (firstn 6 (fandoms c))
  end.

Definition is_click (e : Event) : bool :=
  match e with DOMContentLoaded _ => false | _ => true end.

(** ** Debounce (script.js, lines 465-475) and the timers of the window

    [setTimeout] hands out a fresh id and queues the callback with its
    delay; [clearTimeout] drops the timer with the given id, if it is still
    queued, and does nothing on [undefined]; the event loop runs a queued
    timer once and removes it.  When a timer runs is the browser's choice:
    firing is an event, and the delay is kept but decides nothing here.  A
    queued callback is the closure [later] of the debounced function, with
    the arguments it captured, or a callback of other code.  The debounced
    function is kept with its closure variable [timeout] and with the list
    of the calls made to [func], oldest first. *)
Module Debounce.

Inductive Callback (Args : Type) :=
| Later (args : Args)
| Foreign.
Arguments Later {Args} args.
Arguments Foreign {Args}.

Record Timer (Args : Type) := mkTimer {
  timer_id : nat;
  timer_delay : Z;
  timer_callback : Callback Args
}.
Arguments mkTimer {Args}.
Arguments timer_id {Args}.
Arguments timer_delay {Args}.
Arguments timer_callback {Args}.

Record Window (Args : Type) := mkWindow {
  next_id : nat;                 (* the id that the next setTimeout returns *)
  pending : list (Timer Args);   (* queued timers *)
  wait : Z;                      (* the debounced function's delay *)
  timeout : option nat;          (* its closure variable, undefined at first *)
  calls : list Args              (* the calls func has received *)
}.
Arguments mkWindow {Args}.
Arguments next_id {Args}.
Arguments pending {Args}.
Arguments wait {Args}.
Arguments timeout {Args}.
Arguments calls {Args}.

Section WithArgs.

Context {Args : Type}.

Definition setTimeout (callback : Callback Args) (delay : Z) (w : Window Args)
  : nat * Window Args :=
  (next_id w,
   mkWindow (S (next_id w)) (pending w ++ [mkTimer (next_id w) delay callback])
            (wait w) (timeout w) (calls w)).

Definition clearTimeout (id : option nat) (w : Window Args) : Window Args :=
  match id with
  | None => w
  | Some i =>
      mkWindow (next_id w)
               (filter (fun t => negb (Nat.eqb (timer_id t) i)) (pending w))
               (wait w) (timeout w) (calls w)
  end.

Definition set_timeout_var (v : option nat) (w : Window Args) : Window Args :=
  mkWindow (next_id w) (pending w) (wait w) v (calls w).

Definition func (args : Args) (w : Window Args) : Window Args :=
  mkWindow (next_id w) (pending w) (wait w) (timeout w) (calls w ++ [args]).

(** The closure [later]: [clearTimeout(timeout); func(...args)]. *)
Definition later (args : Args) (w : Window Args) : Window Args :=
  func args (clearTimeout (timeout w) w).

(** [executedFunction(...args)]. *)
Definition executedFunction (args : Args) (w : Window Args) : Window Args :=
  let w1 := clearTimeout (timeout w) w in
  let (id, w2) := setTimeout (Later args) (wait w1) w1 in
  set_timeout_var (Some id) w2.

(** [debounce(func, wait)] in a window: the closure variable starts
    undefined and func has not been called. *)
Definition debounce (delay : Z) (w : Window Args) : Window Args :=
  mkWindow (next_id w) (pending w) delay None [].

Definition find_timer (id : nat) (w : Window Args) : option (Timer Args) :=
  find (fun t => Nat.eqb (timer_id t) id) (pending w).

(** The event loop runs the queued timer [id]. *)
Definition fire (id : nat) (w : Window Args) : Window Args :=
  match find_timer id w with
  | None => w
  | Some t =>
      let w1 := clearTimeout (Some id) w in
      match timer_callback t with
      | Later args => later args w1
      | Foreign => w1
      end
  end.

Inductive Event :=
| Invoke (args : Args)              (* a call of the debounced function *)
| Fire (id : nat)                   (* the event loop runs a timer *)
| OtherSetTimeout (delay : Z)       (* other code queues a timer *)
| OtherClearTimeout (id : nat).     (* other code clears one of its timers *)

Definition is_foreign (id : nat) (w : Window Args) : bool :=
  match find_timer id w with
  | Some t => match timer_callback t with Foreign => true | Later _ => false end
  | None => false
  end.

Definition step (w : Window Args) (e : Event) : Window Args :=
  match e with
  | Invoke args => executedFunction args w
  | Fire id => fire id w
  | OtherSetTimeout delay => snd (setTimeout Foreign delay w)
  | OtherClearTimeout id => if is_foreign id w then clearTimeout (Some id) w else w
  end.

Definition run (w : Window Args) (trace : list Event) : Window Args :=
  fold_left step trace w.

(** The arguments waiting in queued [later] closures, oldest first. *)
Definition armed (w : Window Args) : list Args :=
  flat_map (fun t => match timer_callback t with Later a => [a] | Foreign => [] end)
           (pending w).

Definition invocations (trace : list Event) : list Args :=
  flat_map (fun e => match e with Invoke a => [a] | _ => [] end) trace.

(** A window in which the debounced function has just been created: ids
    handed out so far are below [next_id] and distinct, and every queued
    timer belongs to other code. *)
Definition fresh (w : Window Args) : Prop :=
  timeout w = None /\ calls w = [] /\ armed w = [] /\
  NoDup (map timer_id (pending w)) /\
  Forall (fun t => (timer_id t < next_id w)%nat) (pending w).

Definition is_later (t : Timer Args) : bool :=
  match timer_callback t with Later _ => true | Foreign => false end.

(** The queued timers of other code. *)
Definition foreign_timers (w : Window Args) : list (Timer Args) :=
  filter (fun t => negb (is_later t)) (pending w).

(** Whether timer [id] is queued and carries a [later] closure. *)
Definition fires_later (id : nat) (w : Window Args) : bool :=
  match find_timer id w with
  | Some t => is_later t
  | None => false
  end.

(** What holds ever after: ids are distinct and below [next_id]; at most
    one [later] closure is queued, and its timer is the one [timeout]
    names; [timeout] never names a timer of other code. *)
Definition well_formed (w : Window Args) : Prop :=
  NoDup (map timer_id (pending w)) /\
  Forall (fun t => (timer_id t < next_id w)%nat) (pending w) /\
  (forall i, timeout w = Some i -> (i < next_id w)%nat) /\
  (forall t, In t (pending w) -> is_later t = false -> timeout w <> Some (timer_id t)) /\
  (forall t a, In t (pending w) -> timer_callback t = Later a ->
     timeout w = Some (timer_id t) /\ armed w = [a]).

(** The most recent invocation is waiting in the queue or was the last call
    made to func. *)
Definition latest_kept (trace : list Event) (w : Window Args) : Prop :=
  forall a earlier, invocations trace = (earlier ++ [a])%list ->
    armed w = [a] \/ (armed w = [] /\ exists before, calls w = (before ++ [a])%list).

End WithArgs.

End Debounce.

(** A window with one timer of other code queued, in which a debounced
    function with a delay of 10 ms was just created, and a sequence of
    events on it: two calls in a row, the second timer firing, the first
    (cancelled) one "firing", and one more call. *)
Definition sample_window : Debounce.Window nat :=
  Debounce.debounce 10
    (Debounce.mkWindow 5 [Debounce.mkTimer 3 800 Debounce.Foreign] 0 None []).

Definition sample_trace : list (@Debounce.Event nat) :=
  [Debounce.Invoke 1%nat; Debounce.OtherSetTimeout 800; Debounce.Invoke 2%nat;
   Debounce.Fire 7; Debounce.Fire 5; Debounce.Invoke 3%nat].

(** ** Contact form (script.js, lines 725-803)

    A JavaScript string is a sequence of UTF-16 code units.  [\s] in a
    regular expression and [String.prototype.trim] use the same set: the
    WhiteSpace and LineTerminator code points of the language, all of them
    single code units.  A regular expression without flags, anchored at
    both ends and free of back-references and look-around, accepts a string
    exactly when the whole string is in its language, so [test] is
    membership; membership is decided by derivatives. *)
Module ContactForm.

Local Open Scope list_scope.

Definition jsstring := list N.

(** TAB, VT, FF, SP, NBSP, OGHAM SPACE MARK, EN QUAD .. HAIR SPACE,
    NARROW NBSP, MEDIUM MATHEMATICAL SPACE, IDEOGRAPHIC SPACE, ZWNBSP. *)
Definition is_white_space (c : N) : bool :=
  existsb (N.eqb c) [9; 11; 12; 32; 160; 5760; 8239; 8287; 12288; 65279]%N
  || ((8192 <=? c)%N && (c <=? 8202)%N).

(** LF, CR, LINE SEPARATOR, PARAGRAPH SEPARATOR. *)
Definition is_line_terminator (c : N) : bool :=
  existsb (N.eqb c) [10; 13; 8232; 8233]%N.

Definition is_space (c : N) : bool :=
  is_white_space c || is_line_terminator c.

Fixpoint trim_start (s : jsstring) : jsstring :=
  match s with
  | [] => []
  | c :: rest => if is_space c then trim_start rest else s
  end.

Definition trim_end (s : jsstring) : jsstring := rev (trim_start (rev s)).

Definition trim (s : jsstring) : jsstring := trim_end (trim_start s).

(** *** Regular expressions over code units *)

Inductive Re :=
| Empty                       (* no string *)
| Eps                         (* the empty string *)
| Chr (p : N -> bool)         (* one code unit of a class *)
| Alt (r1 r2 : Re)
| Seq (r1 r2 : Re)
| Star (r : Re).

Definition Plus (r : Re) : Re := Seq r (Star r).

Inductive matches : Re -> jsstring -> Prop :=
| MEps : matches Eps []
| MChr p c : p c = true -> matches (Chr p) [c]
| MAltL r1 r2 s : matches r1 s -> matches (Alt r1 r2) s
| MAltR r1 r2 s : matches r2 s -> matches (Alt r1 r2) s
| MSeq r1 r2 s1 s2 : matches r1 s1 -> matches r2 s2 -> matches (Seq r1 r2) (s1 ++ s2)
| MStar0 r : matches (Star r) []
| MStarS r s1 s2 : matches r s1 -> matches (Star r) s2 -> matches (Star r) (s1 ++ s2).

Fixpoint nullable (r : Re) : bool :=
  match r with
  | Empty => false
  | Eps => true
  | Chr _ => false
  | Alt r1 r2 => nullable r1 || nullable r2
  | Seq r1 r2 => nullable r1 && nullable r2
  | Star _ => true
  end.

Fixpoint deriv (c : N) (r : Re) : Re :=
  match r with
  | Empty => Empty
  | Eps => Empty
  | Chr p => if p c then Eps else Empty
  | Alt r1 r2 => Alt (deriv c r1) (deriv c r2)
  | Seq r1 r2 =>
      if nullable r1 then Alt (Seq (deriv c r1) r2) (deriv c r2)
      else Seq (deriv c r1) r2
  | Star r1 => Seq (deriv c r1) (Star r1)
  end.

(** [regex.test(s)] for an anchored regular expression. *)
Fixpoint re_test (r : Re) (s : jsstring) : bool :=
  match s with
  | [] => nullable r
  | c :: rest => re_test (deriv c r) rest
  end.

(** The code units of [@] and [.]. *)
Definition at_sign : N := 64.
Definition dot : N := 46.

(** The class [[^\s@]]. *)
Definition not_space_or_at (c : N) : bool :=
  negb (is_space c) && negb (N.eqb c at_sign).

(** [/^[^\s@]+@[^\s@]+\.[^\s@]+$/] *)
Definition emailRegex : Re :=
  Seq (Plus (Chr not_space_or_at))
    (Seq (Chr (N.eqb at_sign))
       (Seq (Plus (Chr not_space_or_at))
          (Seq (Chr (N.eqb dot))
             (Plus (Chr not_space_or_at))))).

(** *** The submit handler *)

(** The [value] of the four inputs; [None] for an element that the
    document does not have. *)
Record Inputs := mkInputs {
  name_input : option jsstring;
  email_input : option jsstring;
  product_input : option jsstring;
  message_input : option jsstring
}.

Record FormData := mkFormData {
  fd_name : jsstring;
  fd_email : jsstring;
  fd_product : jsstring;
  fd_message : jsstring
}.

Inductive Outcome :=
| TypeErrorOn (element : string)   (* a lookup gave null *)
| AlertRequired                    (* "completá todos los campos obligatorios" *)
| AlertInvalidEmail                (* "ingresá un email válido" *)
| Submitted (formData : FormData). (* success message for formData.name shown,
                                      form reset, formData logged *)

Definition is_empty (s : jsstring) : bool :=
  match s with [] => true | _ => false end.

Definition submit (i : Inputs) : Outcome :=
  match name_input i with
  | None => TypeErrorOn "name"
  | Some name =>
  match email_input i with
  | None => TypeErrorOn "email"
  | Some email =>
  match product_input i with
  | None => TypeErrorOn "product"
  | Some product =>
  match message_input i with
  | None => TypeErrorOn "message"
  | Some message =>
      let formData := mkFormData (trim name) (trim email) product (trim message) in
      if is_empty (fd_name formData) || is_empty (fd_email formData)
         || is_empty (fd_message formData)
      then AlertRequired
      else if negb (re_test emailRegex (fd_email formData))
      then AlertInvalidEmail
      else Submitted formData
  end end end end.

(** Code units of an ASCII literal. *)
Fixpoint of_ascii (s : string) : jsstring :=
  match s with
  | EmptyString => []
  | String a rest => Ascii.N_of_ascii a :: of_ascii rest
  end.

Definition has_visible (s : jsstring) : bool := existsb (fun c => negb (is_space c)) s.

End ContactForm.

(** ** Mobile navigation (script.js, lines 582-636)

    The state is the "active" class of the menu and of the toggle button,
    and the inline styles of the [span] elements inside the button, in
    document order.  [navMenu] may be null; [spans[k]] is [undefined] past
    the end of the list, and both make the handler throw at that point. *)
Module Nav.

Record SpanStyle := mkSpanStyle {
  transform : option string;
  opacity : option string
}.

Record NavState := mkNavState {
  menu_active : option bool;     (* None: no .nav-menu element *)
  toggle_active : bool;
  spans : list SpanStyle
}.

Inductive NavEvent :=
| ToggleClick
| LinkClick.

Definition set_transform (v : string) (s : SpanStyle) : SpanStyle :=
  mkSpanStyle (Some v) (opacity s).
Definition set_opacity (v : string) (s : SpanStyle) : SpanStyle :=
  mkSpanStyle (transform s) (Some v).

(** [spans[k].style.prop = v]: [None] when [spans[k]] is undefined. *)
Fixpoint write_span (k : nat) (f : SpanStyle -> SpanStyle) (l : list SpanStyle)
  : option (list SpanStyle) :=
  match l, k with
  | [], _ => None
  | s :: rest, O => Some (f s :: rest)
  | s :: rest, S k' =>
      match write_span k' f rest with
      | Some rest' => Some (s :: rest')
      | None => None
      end
  end.

(** The three writes of one branch, in source order; the list reached when
    one of them throws is kept. *)
Definition write_burger (t0 o1 t2 : string) (l : list SpanStyle)
  : bool * list SpanStyle :=
  match write_span 0 (set_transform t0) l with
  | None => (false, l)
  | Some l1 =>
      match write_span 1 (set_opacity o1) l1 with
      | None => (false, l1)
      | Some l2 =>
          match write_span 2 (set_transform t2) l2 with
          | None => (false, l2)
          | Some l3 => (true, l3)
          end
      end
  end.

Definition cross (l : list SpanStyle) : bool * list SpanStyle :=
  write_burger "rotate(45deg) translate(5px, 5px)" "0"
               "rotate(-45deg) translate(7px, -6px)" l.

Definition bars (l : list SpanStyle) : bool * list SpanStyle :=
  write_burger "none" "1" "none" l.

(** The handlers; the first component tells whether the handler completed
    (true) or threw (false). *)
Definition toggle_click (s : NavState) : bool * NavState :=
  match menu_active s with
  | None => (false, s)
  | Some m =>
      let m' := negb m in
      let t' := negb (toggle_active s) in
      let (ok, l) := if m' then cross (spans s) else bars (spans s) in
      (ok, mkNavState (Some m') t' l)
  end.

Definition link_click (s : NavState) : bool * NavState :=
  match menu_active s with
  | None => (false, s)
  | Some _ =>
      let (ok, l) := bars (spans s) in
      (ok, mkNavState (Some false) false l)
  end.

Definition nav_step (s : NavState) (e : NavEvent) : NavState :=
  match e with
  | ToggleClick => snd (toggle_click s)
  | LinkClick => snd (link_click s)
  end.

(** What the three lines of the button show. *)
Definition shows_cross (s : NavState) : Prop :=
  exists s0 s1 s2 rest,
    spans s = s0 :: s1 :: s2 :: rest /\
    transform s0 = Some "rotate(45deg) translate(5px, 5px)" /\
    opacity s1 = Some "0" /\
    transform s2 = Some "rotate(-45deg) translate(7px, -6px)".

Definition shows_bars (s : NavState) : Prop :=
  exists s0 s1 s2 rest,
    spans s = s0 :: s1 :: s2 :: rest /\
    transform s0 = Some "none" /\ opacity s1 = Some "1" /\
    transform s2 = Some "none".

Definition nav_ready (s : NavState) : Prop :=
  menu_active s <> None /\ (3 <= length (spans s))%nat.

Definition nav_synced (s : NavState) : Prop :=
  exists m, menu_active s = Some m /\
            (if m then shows_cross s else shows_bars s).

End Nav.

Definition sample_nav : Nav.NavState :=
  Nav.mkNavState (Some false) false
    [Nav.mkSpanStyle None None; Nav.mkSpanStyle None None;
     Nav.mkSpanStyle None None].

(** ** Cursor trail (script.js, lines 486-505 and 522-533)

    Coordinates are only stored and written back, so their type is left
    open.  The state keeps the trail elements that are in the document,
    each with the identity of its node, the removal timers that are still
    queued, and the positions of all trails created so far. *)
Module Cursor.

Section WithCoord.

Context {Coord : Type}.

Record CursorState := mkCursorState {
  mouseX : Coord;
  mouseY : Coord;
  trailIndex : Z;
  in_body : list (nat * (Coord * Coord));   (* .cursor-trail nodes in body *)
  removals : list nat;                      (* queued removal timers, by node *)
  created : list (Coord * Coord)            (* every trail ever created *)
}.

Inductive CursorEvent :=
| MouseMove (clientX clientY : Coord)
| RemovalTimer (node : nat).                (* the 800 ms timer of a trail fires *)

(** [createTrail(x, y)] *)
Definition createTrail (x y : Coord) (s : CursorState) : CursorState :=
  let node := length (created s) in
  mkCursorState (mouseX s) (mouseY s) (trailIndex s)
    (in_body s ++ [(node, (x, y))]) (removals s ++ [node])
    (created s ++ [(x, y)]).

Definition mousemove (x y : Coord) (s : CursorState) : CursorState :=
  let s1 := mkCursorState x y (trailIndex s) (in_body s) (removals s) (created s) in
  let s2 := if Z.rem (trailIndex s1) 3 =? 0
            then createTrail (mouseX s1) (mouseY s1) s1 else s1 in
  mkCursorState (mouseX s2) (mouseY s2) (trailIndex s2 + 1)
    (in_body s2) (removals s2) (created s2).

(** [trail.remove()], run by the timer of that trail. *)
Definition removal_timer (node : nat) (s : CursorState) : CursorState :=
  if existsb (Nat.eqb node) (removals s) then
    mkCursorState (mouseX s) (mouseY s) (trailIndex s)
      (filter (fun t => negb (Nat.eqb (fst t) node)) (in_body s))
      (filter (fun n => negb (Nat.eqb n node)) (removals s))
      (created s)
  else s.

Definition cursor_step (s : CursorState) (e : CursorEvent) : CursorState :=
  match e with
  | MouseMove x y => mousemove x y s
  | RemovalTimer node => removal_timer node s
  end.

Definition cursor_init (zero : Coord) : CursorState :=
  mkCursorState zero zero 0 [] [] [].

Definition moves (trace : list CursorEvent) : list (Coord * Coord) :=
  flat_map (fun e => match e with MouseMove x y => [(x, y)] | _ => [] end) trace.

(** The first, fourth, seventh, ... element of a list. *)
Fixpoint every_third {A} (l : list A) : list A :=
  match l with
  | a :: rest =>
      a :: match rest with
           | _ :: _ :: rest' => every_third rest'
           | _ => []
           end
  | [] => []
  end.

Definition trail_inv (done : list (Coord * Coord)) (s : CursorState) : Prop :=
  trailIndex s = Z.of_nat (length done) /\
  created s = every_third done /\
  map fst (in_body s) = removals s /\
  Forall (fun t => nth_error (created s) (fst t) = Some (snd t)) (in_body s).

End WithCoord.

End Cursor.

(** ** The script's top level (script.js, lines 481-973)

    The statements outside any function, in source order, as far as they
    register listeners or can throw.  The document the script runs in is
    not part of the repository, so what it contains is a parameter: whether
    [document.body], [.nav-toggle], [.contact-form] and [#catalogBtn] exist
    and how many elements the [querySelectorAll] calls return.  The browser
    interfaces the script uses ([requestAnimationFrame],
    [IntersectionObserver], [document.head]) are taken to exist.  A
    statement that throws ends the script; listeners registered before it
    stay. *)
Module Script.

Local Open Scope list_scope.

Record Shell := mkShell {
  has_body : bool;            (* document.body *)
  has_navToggle : bool;       (* .nav-toggle *)
  has_contactForm : bool;     (* .contact-form *)
  has_catalogBtn : bool;      (* #catalogBtn *)
  interactive : nat;          (* a, button, .gallery-item, .product-card *)
  nav_links : nat;            (* .nav-menu a *)
  anchors : nat;              (* a[href^="#"] *)
  buttons : nat               (* .btn *)
}.

Inductive Target :=
| DocumentT
| WindowT
| InteractiveT (i : nat)
| NavToggleT
| NavLinkT (i : nat)
| AnchorT (i : nat)
| CatalogBtnT
| ContactFormT
| ButtonT (i : nat).

Definition Listener : Type := Target * string.

Definition for_each (n : nat) (f : nat -> list Listener) : list Listener :=
  flat_map f (seq 0 n).

(** Lines 481-575: the custom cursor. *)
Definition cursor_part (d : Shell) : list Listener :=
  [(DocumentT, "mousemove"); (DocumentT, "mousedown"); (DocumentT, "mouseup");
   (DocumentT, "mouseleave"); (DocumentT, "mouseenter")] ++
  for_each (interactive d)
    (fun i => [(InteractiveT i, "mouseenter"); (InteractiveT i, "mouseleave")]).

(** Lines 582-716, after [navToggle.addEventListener] was reached. *)
Definition nav_part (d : Shell) : list Listener :=
  [(NavToggleT, "click")] ++
  for_each (nav_links d) (fun i => [(NavLinkT i, "click")]) ++
  for_each (anchors d) (fun i => [(AnchorT i, "click")]) ++
  (if has_catalogBtn d then [(CatalogBtnT, "click")] else []).

(** Lines 725-939, after [contactForm.addEventListener] was reached. *)
Definition form_part (d : Shell) : list Listener :=
  [(ContactFormT, "submit"); (WindowT, "scroll")] ++
  for_each (buttons d) (fun i => [(ButtonT i, "click")]) ++
  [(DocumentT, "DOMContentLoaded")].

(** The whole script: whether it ran to its end, and the listeners it
    registered, in order. *)
Definition top_level (d : Shell) : bool * list Listener :=
  if negb (has_body d) then (false, [])          (* document.body.appendChild *)
  else
    let l1 := cursor_part d ++ [(WindowT, "scroll")] in
    if negb (has_navToggle d) then (false, l1)   (* navToggle.addEventListener *)
    else
      let l2 := l1 ++ nav_part d in
      if negb (has_contactForm d) then (false, l2) (* contactForm.addEventListener *)
      else (true, l2 ++ form_part d).

Definition registered (d : Shell) (l : Listener) : Prop :=
  In l (snd (top_level d)).

End Script.

Definition sample_shell : Script.Shell :=
  Script.mkShell true true true false 4 3 3 2.


(** * Properties *)

(** ** Arithmetic and list facts used by the renderers *)

Lemma Math_ceil_div_spec (a b : Z) :
  0 < b -> b * (Math_ceil_div a b - 1) < a <= b * Math_ceil_div a b.
Proof.
  intros Hb. unfold Math_ceil_div.
  assert (E : (inject_Z a / inject_Z b == a # Z.to_pos b)%Q).
  { destruct b as [|p|p]; try lia.
    unfold Qeq, Qdiv, Qmult, Qinv, inject_Z; simpl. lia. }
  rewrite (Qceiling_comp _ _ E).
  unfold Qceiling, Qfloor, Qopp; simpl.
  rewrite Z2Pos.id by lia.
  pose proof (Z.div_mod (- a) b ltac:(lia)).
  pose proof (Z.mod_pos_bound (- a) b Hb). nia.
Qed.

Lemma Math_ceil_div_unique (a b t : Z) :
  0 < b -> b * (t - 1) < a <= b * t -> Math_ceil_div a b = t.
Proof.
  intros Hb Ht. pose proof (Math_ceil_div_spec a b Hb). nia.
Qed.

Lemma Math_ceil_div_0 (b : Z) : 0 < b -> Math_ceil_div 0 b = 0.
Proof. intros Hb. apply Math_ceil_div_unique; lia. Qed.

Lemma js_slice_window {A} (l : list A) (start size : Z) :
  0 <= start -> 0 <= size ->
  js_slice l start (start + size) =
  firstn (Z.to_nat size) (skipn (Z.to_nat start) l).
Proof.
  intros Hs Hp. unfold js_slice.
  destruct (Z.ltb_spec start 0); [lia|].
  destruct (Z.ltb_spec (start + size) 0); [lia|].
  destruct (Z.le_gt_cases start (Z.of_nat (length l))) as [Hle|Hgt].
  - rewrite (Z.min_l start) by lia.
    set (rest := skipn (Z.to_nat start) l).
    assert (Hrest : length rest = (length l - Z.to_nat start)%nat)
      by (apply length_skipn).
    destruct (Z.le_gt_cases (start + size) (Z.of_nat (length l))).
    + rewrite Z.min_l by lia. f_equal. lia.
    + rewrite Z.min_r by lia.
      rewrite (firstn_all2 (n := Z.to_nat size)) by lia.
      apply firstn_all2. lia.
  - rewrite !Z.min_r by lia. rewrite Z.sub_diag. simpl.
    rewrite skipn_all2 by lia. now rewrite firstn_nil.
Qed.

Lemma js_slice_length_window {A} (l : list A) (start size : Z) :
  0 <= size -> (length (js_slice l start (start + size)) <= Z.to_nat size)%nat.
Proof.
  intros Hp. unfold js_slice.
  etransitivity; [apply firstn_le_length|].
  destruct (Z.ltb_spec start 0), (Z.ltb_spec (start + size) 0); lia.
Qed.

Lemma js_slice_0 {A} (l : list A) (n : Z) :
  0 <= n -> js_slice l 0 n = firstn (Z.to_nat n) l.
Proof.
  intros Hn. now rewrite <- (Z.add_0_l n), js_slice_window by lia.
Qed.

(** ** Running the paginator and the grid renderer *)

Lemma updatePaginationControls_run (totalItems totalPages : Z) (w : World) :
  updatePaginationControls totalItems totalPages w =
  if present (page w) prevPage then
    if present (page w) nextPage then (Normal tt, paginated totalPages w)
    else (Throw (TypeError "nextBtn.disabled"),
          on_page (set_prevPage_disabled (currentPage (st w) =? 1)) w)
  else (Throw (TypeError "prevBtn.disabled"), w).
Proof.
  unfold updatePaginationControls, paginated. js_unfold.
  destruct (present (page w) prevPage), (present (page w) nextPage); reflexivity.
Qed.

(** *** Property lookup *)

Lemma getOwnProperty_In {A} (obj : list (string * A)) (key : string) :
  In key (Object_keys obj) -> exists v, getOwnProperty obj key = Some v.
Proof.
  induction obj as [|[k v] obj IH]; intros Hin; [now destruct Hin|].
  cbn [getOwnProperty]. destruct (String.eqb_spec k key) as [_|Hne].
  - now exists v.
  - destruct Hin as [Heq|Hin]; [now destruct Hne|now apply IH].
Qed.

Lemma getOwnProperty_None {A} (obj : list (string * A)) (key : string) :
  getOwnProperty obj key = None -> ~ In key (Object_keys obj).
Proof.
  intros Hnone Hin. apply getOwnProperty_In in Hin as [v Hv]. congruence.
Qed.

(** The three outcomes of a lookup, told apart by the own keys and the
    names of [Object.prototype]. *)
Lemma js_get_cases {A} (obj : list (string * A)) (key : string) :
  match js_get obj key with
  | Own v => getOwnProperty obj key = Some v
  | Inherited => ~ In key (Object_keys obj) /\ In key Object_prototype
  | Absent => ~ In key (Object_keys obj) /\ ~ In key Object_prototype
  end.
Proof.
  unfold js_get. destruct (getOwnProperty obj key) as [v|] eqn:Hown; [reflexivity|].
  apply getOwnProperty_None in Hown.
  destruct (existsb (String.eqb key) Object_prototype) eqn:Hex; split; try assumption.
  - apply existsb_exists in Hex as (k & Hk & Heq).
    apply String.eqb_eq in Heq. now subst.
  - intros Hin. apply Bool.not_true_iff_false in Hex. apply Hex.
    apply existsb_exists. exists key. split; [assumption|apply String.eqb_refl].
Qed.

(** An own key, and the literal ["llaveros"], never find an inherited value. *)
Lemma own_key_not_inherited (f : Fandom) (ty : string) :
  ty = "llaveros" \/ In ty (Object_keys (fandom_products f)) ->
  inherited_key f ty = false.
Proof.
  intros H. unfold inherited_key.
  pose proof (js_get_cases (fandom_products f) ty) as Hc.
  destruct (js_get (fandom_products f) ty); try reflexivity.
  destruct Hc as [Hnot Hproto]. destruct H as [->|Hin]; [|now destruct Hnot].
  exfalso. cbn in Hproto. intuition discriminate.
Qed.

Lemma first_key_or_llaveros_own (fandom : Fandom) :
  first_key_or_llaveros fandom = "llaveros" \/
  In (first_key_or_llaveros fandom) (Object_keys (fandom_products fandom)).
Proof.
  unfold first_key_or_llaveros.
  destruct (Object_keys (fandom_products fandom)) as [|k keys]; [now left|].
  destruct (String.eqb k ""); [now left | right; now left].
Qed.

(** The product type that [showFandomDetail] selects is never inherited. *)
Lemma first_key_not_inherited (fandom : Fandom) :
  inherited_key fandom (first_key_or_llaveros fandom) = false.
Proof. apply own_key_not_inherited, first_key_or_llaveros_own. Qed.

Lemma renderProducts_run (w : World) :
  renderProducts w =
  match currentFandom (st w) with
  | None => (Normal tt, w)
  | Some f =>
      let ty := currentProductType (st w) in
      if inherited_key f ty then (Throw (TypeError "products.slice"), w)
      else if present (page w) productGrid then
        updatePaginationControls
          (Z.of_nat (length (products_of f ty))) (total_pages f ty)
          (on_page (set_productGrid_html (page_of f ty (currentPage (st w)))) w)
      else (Normal tt, w)
  end.
Proof.
  unfold renderProducts, inherited_key, total_pages, page_of. js_unfold.
  destruct (currentFandom (st w)) as [f|]; [|reflexivity].
  destruct (js_get (fandom_products f) (currentProductType (st w)));
    try reflexivity;
    destruct (present (page w) productGrid); reflexivity.
Qed.

(** For a name inherited from [Object.prototype] the renderer throws before
    it has looked up the grid, and changes nothing. *)
Lemma renderProducts_inherited (w : World) (f : Fandom) :
  currentFandom (st w) = Some f ->
  inherited_key f (currentProductType (st w)) = true ->
  renderProducts w = (Throw (TypeError "products.slice"), w).
Proof.
  intros Hf Hi. rewrite renderProducts_run, Hf. cbv zeta. now rewrite Hi.
Qed.

Lemma renderProducts_st (w : World) : st (snd (renderProducts w)) = st w.
Proof.
  rewrite renderProducts_run.
  destruct (currentFandom (st w)) as [f|]; [|reflexivity]. cbv zeta.
  destruct (inherited_key f _); [reflexivity|].
  destruct (present (page w) productGrid); [|reflexivity].
  rewrite updatePaginationControls_run. cbn [page on_page present set_productGrid_html].
  destruct (present (page w) prevPage), (present (page w) nextPage); reflexivity.
Qed.

Lemma renderProducts_present (w : World) :
  present (page (snd (renderProducts w))) = present (page w).
Proof.
  rewrite renderProducts_run.
  destruct (currentFandom (st w)) as [f|]; [|reflexivity]. cbv zeta.
  destruct (inherited_key f _); [reflexivity|].
  destruct (present (page w) productGrid); [|reflexivity].
  rewrite updatePaginationControls_run. cbn [page on_page present set_productGrid_html].
  destruct (present (page w) prevPage), (present (page w) nextPage); reflexivity.
Qed.

Lemma renderProducts_grid (w : World) (f : Fandom) :
  currentFandom (st w) = Some f ->
  inherited_key f (currentProductType (st w)) = false ->
  present (page w) productGrid = true ->
  productGrid_html (page (snd (renderProducts w))) =
  page_of f (currentProductType (st w)) (currentPage (st w)).
Proof.
  intros Hf Hi Hg. rewrite renderProducts_run, Hf. cbv zeta. rewrite Hi, Hg.
  rewrite updatePaginationControls_run. cbn [page on_page present set_productGrid_html].
  destruct (present (page w) prevPage), (present (page w) nextPage); reflexivity.
Qed.

Lemma renderProducts_bound (w : World) (f : Fandom) :
  currentFandom (st w) = Some f ->
  inherited_key f (currentProductType (st w)) = false ->
  present (page w) productGrid = true ->
  present (page w) prevPage = true ->
  present (page w) nextPage = true ->
  renderProducts w =
  (Normal tt,
   paginated (total_pages f (currentProductType (st w)))
     (on_page (set_productGrid_html
                 (page_of f (currentProductType (st w)) (currentPage (st w)))) w)).
Proof.
  intros Hf Hi Hg Hp Hn. rewrite renderProducts_run, Hf. cbv zeta. rewrite Hi, Hg.
  rewrite updatePaginationControls_run. cbn [page on_page present set_productGrid_html].
  now rewrite Hp, Hn.
Qed.

Lemma page_of_window (f : Fandom) (ty : string) (cur : Z) :
  1 <= cur ->
  page_of f ty cur =
  firstn 6 (skipn (Z.to_nat (6 * (cur - 1))) (products_of f ty)).
Proof.
  intros Hk. unfold page_of. change (itemsPerPage CONFIG) with 6.
  rewrite js_slice_window by lia.
  replace ((cur - 1) * 6) with (6 * (cur - 1)) by lia. reflexivity.
Qed.

Lemma page_of_length (f : Fandom) (ty : string) (cur : Z) :
  1 <= cur ->
  Z.of_nat (length (page_of f ty cur)) =
  Z.max 0 (Z.min 6 (Z.of_nat (length (products_of f ty)) - (cur - 1) * 6)).
Proof.
  intros Hk. rewrite page_of_window by assumption.
  rewrite length_firstn, length_skipn. lia.
Qed.

(** ** Product grid and paginator: the claims *)

(** C1. With page size 6 and a product list of length n (the list that the
    lookup of the product type gives: the fandom's own entry, or the empty
    list when there is none and the name is not inherited), the grid
    renderer passes totalPages = ceil(n/6) to the paginator (the least t
    with n <= 6 t), and on page k it puts into the grid the slice
    [(k-1)*6, (k-1)*6 + 6) of the list: min(6, n - (k-1)*6) tiles when
    1 <= k <= totalPages, none when k > totalPages. *)
Theorem renderProducts_page_slice (w : World) (f : Fandom) :
  currentFandom (st w) = Some f ->
  inherited_key f (currentProductType (st w)) = false ->
  present (page w) productGrid = true ->
  let products := products_of f (currentProductType (st w)) in
  let n := Z.of_nat (length products) in
  let k := currentPage (st w) in
  let w' := snd (renderProducts w) in
  exists totalPages,
    itemsPerPage CONFIG = 6 /\
    6 * (totalPages - 1) < n <= 6 * totalPages /\
    (present (page w) prevPage = true -> present (page w) nextPage = true ->
     nextPage_onclick (page w') = Some totalPages) /\
    (1 <= k ->
     productGrid_html (page w') = firstn 6 (skipn (Z.to_nat (6 * (k - 1))) products)) /\
    (1 <= k <= totalPages ->
     Z.of_nat (length (productGrid_html (page w'))) = Z.min 6 (n - (k - 1) * 6)) /\
    (k > totalPages -> productGrid_html (page w') = []).
Proof.
  intros Hf Hi Hg. cbv zeta.
  set (ty := currentProductType (st w)).
  set (k := currentPage (st w)).
  assert (Hceil : 6 * (total_pages f ty - 1)
                  < Z.of_nat (length (products_of f ty))
                  <= 6 * total_pages f ty)
    by (apply Math_ceil_div_spec; reflexivity).
  assert (Hgrid : productGrid_html (page (snd (renderProducts w))) = page_of f ty k)
    by (apply renderProducts_grid; assumption).
  exists (total_pages f ty).
  split; [reflexivity|]. split; [exact Hceil|].
  split; [|split; [|split]].
  - intros Hp Hn. now rewrite (renderProducts_bound w f Hf Hi Hg Hp Hn).
  - intros Hk. rewrite Hgrid. now apply page_of_window.
  - intros Hk. rewrite Hgrid, page_of_length by lia. lia.
  - intros Hk. rewrite Hgrid.
    apply length_zero_iff_nil. apply Nat2Z.inj.
    rewrite page_of_length by lia. lia.
Qed.

Lemma renderProducts_page_slice_witness :
  exists totalPages,
    itemsPerPage CONFIG = 6 /\
    6 * (totalPages - 1) < 13 <= 6 * totalPages /\
    (true = true -> true = true ->
     nextPage_onclick (page (snd (renderProducts isaac_detail))) = Some totalPages) /\
    (1 <= 1 ->
     productGrid_html (page (snd (renderProducts isaac_detail))) =
     firstn 6 (skipn (Z.to_nat (6 * (1 - 1))) (numbered_products 13))) /\
    (1 <= 1 <= totalPages ->
     Z.of_nat (length (productGrid_html (page (snd (renderProducts isaac_detail))))) =
     Z.min 6 (13 - (1 - 1) * 6)) /\
    (1 > totalPages ->
     productGrid_html (page (snd (renderProducts isaac_detail))) = []).
Proof.
  exact (renderProducts_page_slice isaac_detail
           (mkFandom "isaac" "The Binding of Isaac" true "img/isaac.jpg"
              [ ("llaveros", numbered_products 13) ])
           eq_refl eq_refl eq_refl).
Defined.

(** C6. After a paginator update (both buttons exist), "previous" is
    disabled exactly when currentPage is 1, and "next" is disabled exactly
    when currentPage equals totalPages or totalPages is 0. *)
Theorem updatePaginationControls_disabled (w : World) (totalItems totalPages : Z) :
  present (page w) prevPage = true ->
  present (page w) nextPage = true ->
  let r := updatePaginationControls totalItems totalPages w in
  fst r = Normal tt /\
  st (snd r) = st w /\
  (prevPage_disabled (page (snd r)) = true <-> currentPage (st (snd r)) = 1) /\
  (nextPage_disabled (page (snd r)) = true <->
   currentPage (st (snd r)) = totalPages \/ totalPages = 0).
Proof.
  intros Hp Hn. cbv zeta. rewrite updatePaginationControls_run, Hp, Hn.
  cbn [fst snd paginated st page on_page prevPage_disabled nextPage_disabled
       set_nextPage_onclick set_prevPage_onclick set_nextPage_disabled
       set_prevPage_disabled].
  repeat split; try (intros H).
  - now apply Z.eqb_eq.
  - now apply Z.eqb_eq.
  - apply orb_true_iff in H. now rewrite !Z.eqb_eq in H.
  - apply orb_true_iff. now rewrite !Z.eqb_eq.
Qed.

Lemma updatePaginationControls_disabled_witness :
  let r := updatePaginationControls 13 3 isaac_detail in
  fst r = Normal tt /\
  st (snd r) = st isaac_detail /\
  (prevPage_disabled (page (snd r)) = true <-> currentPage (st (snd r)) = 1) /\
  (nextPage_disabled (page (snd r)) = true <->
   currentPage (st (snd r)) = 3 \/ 3 = 0).
Proof.
  exact (updatePaginationControls_disabled isaac_detail 13 3 eq_refl eq_refl).
Defined.

(** The scenario of the specification: 13 products at 6 per page give pages
    of 6, 6 and 1 tiles, and "next" is disabled on page 3 only. *)
Example thirteen_products_three_pages :
  let p1 := isaac_detail in
  let p2 := step p1 Click_nextPage in
  let p3 := step p2 Click_nextPage in
  map (fun w => (currentPage (st w), length (productGrid_html (page w)),
                 prevPage_disabled (page w), nextPage_disabled (page w)))
      [p1; p2; p3; step p3 Click_nextPage; step p3 Click_prevPage]
  = [ (1, 6%nat, true, false); (2, 6%nat, false, false); (3, 1%nat, false, true);
      (3, 1%nat, false, true); (2, 6%nat, false, false) ].
Proof. vm_compute. reflexivity. Qed.

(** What holds of the claim of totality: with no fandom selected the
    renderer does nothing; a product type that the fandom has no entry for
    and that is not inherited gives the empty list, zero pages and zero
    tiles; for a name that is not inherited, whatever the page number, the
    grid receives at most six tiles, and none beyond the last page, and the
    only exception is the one of the paginator on a page without its two
    buttons.  The view state is never changed. *)
Lemma renderProducts_total (w : World) :
  (currentFandom (st w) = None -> renderProducts w = (Normal tt, w)) /\
  (forall f, currentFandom (st w) = Some f ->
     js_get (fandom_products f) (currentProductType (st w)) = Absent ->
     products_of f (currentProductType (st w)) = [] /\
     total_pages f (currentProductType (st w)) = 0 /\
     (present (page w) productGrid = true ->
      productGrid_html (page (snd (renderProducts w))) = [])) /\
  (forall f, currentFandom (st w) = Some f ->
     inherited_key f (currentProductType (st w)) = false ->
     (present (page w) productGrid = true ->
      (length (productGrid_html (page (snd (renderProducts w)))) <= 6)%nat /\
      (currentPage (st w) > total_pages f (currentProductType (st w)) ->
       productGrid_html (page (snd (renderProducts w))) = [])) /\
     (present (page w) productGrid = false \/
      present (page w) prevPage = true /\ present (page w) nextPage = true ->
      fst (renderProducts w) = Normal tt)) /\
  st (snd (renderProducts w)) = st w.
Proof.
  split; [|split; [|split]].
  - intros Hf. now rewrite renderProducts_run, Hf.
  - intros f Hf Hget.
    assert (Hi : inherited_key f (currentProductType (st w)) = false)
      by (unfold inherited_key; now rewrite Hget).
    assert (Hnil : products_of f (currentProductType (st w)) = [])
      by (unfold products_of; now rewrite Hget).
    split; [exact Hnil|]. split.
    + unfold total_pages. rewrite Hnil. now apply Math_ceil_div_0.
    + intros Hg. rewrite (renderProducts_grid w f Hf Hi Hg).
      unfold page_of. rewrite Hnil. unfold js_slice.
      rewrite skipn_nil. apply firstn_nil.
  - intros f Hf Hi. split.
    + intros Hg. rewrite (renderProducts_grid w f Hf Hi Hg). split.
      * apply (js_slice_length_window _ _ 6). lia.
      * intros Hk.
        assert (Hc : 6 * (total_pages f (currentProductType (st w)) - 1)
                     < Z.of_nat (length (products_of f (currentProductType (st w))))
                     <= 6 * total_pages f (currentProductType (st w)))
          by (apply Math_ceil_div_spec; reflexivity).
        apply length_zero_iff_nil. apply Nat2Z.inj.
        rewrite page_of_length by lia. lia.
    + intros H. rewrite renderProducts_run, Hf. cbv zeta. rewrite Hi.
      destruct (present (page w) productGrid) eqn:Hg; [|reflexivity].
      destruct H as [H|[Hp Hn]]; [discriminate|].
      rewrite updatePaginationControls_run.
      cbn [page on_page present set_productGrid_html]. now rewrite Hp, Hn.
  - apply renderProducts_st.
Qed.

(** C8 (the code departs from the claim).  The renderer is not total over
    the view state.  Take the fandom "isaac" of the 13-product catalog,
    whose only product type is "llaveros", shown on page 1, and set
    currentProductType to "toString", a name the fandom has no entry for.
    The lookup finds the function that every object inherits from
    Object.prototype; it is truthy, so the fallback to the empty list does
    not apply, and the renderer throws a TypeError when it calls slice on
    it.  The world is left as it was: the grid still shows the six tiles
    of "llaveros".  For "posters", a name that is neither an entry nor
    inherited, the renderer does what the claim says: no error, an empty
    grid and zero pages. *)
Theorem renderProducts_inherited_key_throws :
  let w := on_state (set_currentProductType "toString") isaac_detail in
  let w0 := on_state (set_currentProductType "posters") isaac_detail in
  option_map (fun f => Object_keys (fandom_products f)) (currentFandom (st w))
    = Some ["llaveros"] /\
  option_map (fun f => js_get (fandom_products f) "toString") (currentFandom (st w))
    = Some Inherited /\
  renderProducts w = (Throw (TypeError "products.slice"), w) /\
  length (productGrid_html (page (snd (renderProducts w)))) = 6%nat /\
  option_map (fun f => js_get (fandom_products f) "posters") (currentFandom (st w0))
    = Some Absent /\
  fst (renderProducts w0) = Normal tt /\
  productGrid_html (page (snd (renderProducts w0))) = [] /\
  nextPage_onclick (page (snd (renderProducts w0))) = Some 0.
Proof. vm_compute. repeat split; reflexivity. Qed.

(** ** Featured grid and fandom filters *)

Lemma renderFandomFilters_run (w : World) :
  renderFandomFilters w =
  match present (page w) fandomFilters, galleryData (st w) with
  | true, Some c =>
      (Normal tt,
       on_page (set_fandomFilters_html (all_button :: map fandom_button (fandoms c))) w)
  | _, _ => (Normal tt, w)
  end.
Proof.
  unfold renderFandomFilters. js_unfold.
  destruct (present (page w) fandomFilters), (galleryData (st w)); reflexivity.
Qed.

Lemma renderFeaturedProducts_run (w : World) :
  renderFeaturedProducts w =
  match present (page w) featuredGrid, galleryData (st w) with
  | true, Some c =>
      (Normal tt,
       on_page (set_featuredGrid_html (map featured_item (js_slice (fandoms c) 0 6))) w)
  | _, _ => (Normal tt, w)
  end.
Proof.
  unfold renderFeaturedProducts. js_unfold.
  destruct (present (page w) featuredGrid), (galleryData (st w)); reflexivity.
Qed.

Lemma firstn_skipn_disjoint {A} (l : list A) (n : nat) (x : A) :
  NoDup l -> In x (firstn n l) -> In x (skipn n l) -> False.
Proof.
  intros Hnd H1 H2. rewrite <- (firstn_skipn n l) in Hnd.
  revert Hnd H1 H2. generalize (skipn n l) as r. generalize (firstn n l) as p.
  induction p as [|a p IH]; intros r Hnd H1 H2; [now destruct H1|].
  cbn [app] in Hnd. inversion Hnd as [|? ? Hnotin Hnd']; subst.
  destruct H1 as [->|H1].
  - apply Hnotin. apply in_or_app. now right.
  - now apply (IH r).
Qed.

(** C10. The featured grid holds one tile for each of the first
    min(6, fandoms.length) fandoms of the catalog, in catalog order: the
    tile at position i < 6 carries the id of the i-th fandom in its
    data-fandom attribute, its name as caption and alternative text, and
    its thumbnail (the placeholder image when the thumbnail is empty) as
    image source.  There is no tile at position 6 or beyond, and when the
    fandom ids are distinct no tile carries the id of a fandom beyond the
    sixth.  The fandom filter, in contrast, has a control for every fandom. *)
Theorem renderFeaturedProducts_first_six (w : World) (c : Catalog) :
  galleryData (st w) = Some c ->
  present (page w) featuredGrid = true ->
  let tiles := featuredGrid_html (page (snd (renderFeaturedProducts w))) in
  fst (renderFeaturedProducts w) = Normal tt /\
  tiles = map featured_item (firstn 6 (fandoms c)) /\
  length tiles = Nat.min 6 (length (fandoms c)) /\
  map fi_fandom tiles = map fandom_id (firstn 6 (fandoms c)) /\
  map fi_name tiles = map fandom_name (firstn 6 (fandoms c)) /\
  (forall i f, (i < 6)%nat -> nth_error (fandoms c) i = Some f ->
     exists t, nth_error tiles i = Some t /\
       fi_fandom t = fandom_id f /\ fi_name t = fandom_name f /\
       fi_src t = (if String.eqb (fandom_thumbnail f) "" then "img/placeholder.jpg"
                   else fandom_thumbnail f)) /\
  (forall i, (i < 6)%nat ->
     nth_error tiles i = option_map featured_item (nth_error (fandoms c) i)) /\
  (forall i, (6 <= i)%nat -> nth_error tiles i = None) /\
  (NoDup (map fandom_id (fandoms c)) ->
   forall i f, (6 <= i)%nat -> nth_error (fandoms c) i = Some f ->
     ~ In (fandom_id f) (map fi_fandom tiles)) /\
  (present (page w) fandomFilters = true ->
   map fb_fandom (fandomFilters_html (page (snd (renderFandomFilters w)))) =
   "all" :: map fandom_id (fandoms c) /\
   fandomFilters_html (page (snd (renderFandomFilters w))) =
   all_button :: map fandom_button (fandoms c)).
Proof.
  intros Hc Hg. cbv zeta.
  rewrite renderFeaturedProducts_run, renderFandomFilters_run, Hc, Hg.
  cbn [fst snd page on_page featuredGrid_html set_featuredGrid_html].
  rewrite js_slice_0 by lia. change (Z.to_nat 6) with 6%nat.
  assert (Hids : map fi_fandom (map featured_item (firstn 6 (fandoms c))) =
                 map fandom_id (firstn 6 (fandoms c)))
    by (rewrite map_map; reflexivity).
  assert (Hnth : forall i, (i < 6)%nat ->
            nth_error (map featured_item (firstn 6 (fandoms c))) i =
            option_map featured_item (nth_error (fandoms c) i)).
  { intros i Hi. rewrite nth_error_map, nth_error_firstn.
    apply Nat.ltb_lt in Hi. now rewrite Hi. }
  split; [reflexivity|]. split; [reflexivity|].
  split; [now rewrite length_map, length_firstn|].
  split; [exact Hids|].
  split; [rewrite map_map; reflexivity|].
  split; [|split; [exact Hnth|split; [|split]]].
  - intros i f Hi Hf. exists (featured_item f).
    rewrite (Hnth i Hi), Hf. repeat split.
  - intros i Hi. apply nth_error_None.
    rewrite length_map, length_firstn. lia.
  - intros Hnd i f Hi Hf Hin. rewrite Hids, <- firstn_map in Hin.
    apply (firstn_skipn_disjoint (map fandom_id (fandoms c)) 6 (fandom_id f) Hnd Hin).
    rewrite <- (firstn_skipn 6 (fandoms c)) in Hf.
    assert (Hlen : (length (firstn 6 (fandoms c)) <= i)%nat)
      by (rewrite length_firstn; lia).
    rewrite nth_error_app2 in Hf by exact Hlen.
    rewrite skipn_map. apply in_map. eapply nth_error_In. exact Hf.
  - intros Hf. rewrite Hf.
    cbn [snd page on_page fandomFilters_html set_fandomFilters_html map fb_fandom all_button].
    split; [now rewrite map_map|reflexivity].
Qed.

Lemma renderFeaturedProducts_first_six_witness :
  let w := step (initial all_elements) (DOMContentLoaded (ok_response catalog8)) in
  let tiles := featuredGrid_html (page (snd (renderFeaturedProducts w))) in
  map fi_fandom tiles = ["f1"; "f2"; "f3"; "f4"; "f5"; "f6"] /\
  nth_error tiles 6 = None /\
  ~ In "f7" (map fi_fandom tiles) /\
  map fb_fandom (fandomFilters_html (page (snd (renderFandomFilters w)))) =
  ["all"; "f1"; "f2"; "f3"; "f4"; "f5"; "f6"; "f7"; "f8"].
Proof.
  pose proof (renderFeaturedProducts_first_six
                (step (initial all_elements) (DOMContentLoaded (ok_response catalog8)))
                catalog8 eq_refl eq_refl) as H.
  cbv zeta in H.
  destruct H as (_ & _ & _ & Hids & _ & _ & _ & Hnone & Hbeyond & Hfilter).
  split; [exact Hids|]. split; [apply Hnone; lia|]. split.
  - refine (Hbeyond _ 6%nat _ (le_n 6) eq_refl).
    vm_compute.
    repeat (apply NoDup_cons; [cbn; intuition discriminate|]). apply NoDup_nil.
  - exact (proj1 (Hfilter eq_refl)).
Defined.

Example featured_grid_of_eight :
  map fi_fandom
    (featuredGrid_html
       (page (step (initial all_elements) (DOMContentLoaded (ok_response catalog8)))))
  = ["f1"; "f2"; "f3"; "f4"; "f5"; "f6"].
Proof. vm_compute. reflexivity. Qed.

(** ** Catalog loader *)

Lemma initializeGallery_run (w : World) (c : Catalog) :
  galleryData (st w) = Some c ->
  initializeGallery w =
  (Normal tt,
   let w1 := if present (page w) fandomFilters
             then on_page (set_fandomFilters_html
                             (all_button :: map fandom_button (fandoms c))) w
             else w in
   if present (page w) featuredGrid
   then on_page (set_featuredGrid_html
                   (map featured_item (js_slice (fandoms c) 0 6))) w1
   else w1).
Proof.
  intros Hc. unfold initializeGallery, bind.
  rewrite renderFandomFilters_run, Hc.
  destruct (present (page w) fandomFilters) eqn:Hf;
    rewrite renderFeaturedProducts_run;
    cbn [st page on_page present set_fandomFilters_html]; rewrite Hc;
    destruct (present (page w) featuredGrid); reflexivity.
Qed.

Lemma loadGalleryData_run (r : FetchResult) (w : World) :
  loadGalleryData r w =
  match r with
  | Response true (Json c) => initializeGallery (on_state (set_galleryData (Some c)) w)
  | _ => initializeGallery (after_failure w)
  end.
Proof.
  unfold loadGalleryData, try_catch, after_failure.
  destruct r as [|[|] [|c]]; cbn [negb]; js_unfold;
    try (cbn [page on_page present set_console_errors];
         destruct (present (page w) galeria); reflexivity).
  now rewrite (initializeGallery_run _ c) by reflexivity.
Qed.

Lemma loadGalleryData_never_absent (r : FetchResult) (w : World) :
  fst (loadGalleryData r w) = Normal tt /\
  galleryData (st (snd (loadGalleryData r w))) <> None.
Proof.
  assert (H : forall c w0, galleryData (st w0) = Some c ->
                fst (initializeGallery w0) = Normal tt /\
                galleryData (st (snd (initializeGallery w0))) <> None).
  { intros c w0 Hc. rewrite (initializeGallery_run w0 c Hc).
    cbn [fst snd].
    destruct (present (page w0) fandomFilters), (present (page w0) featuredGrid);
      cbn [st on_page]; rewrite Hc; split; (reflexivity || discriminate). }
  rewrite loadGalleryData_run.
  destruct r as [|[|] [|c]];
    first [apply (H getFallbackData); reflexivity | apply (H c); reflexivity].
Qed.

(** C5. When the fetch fails (rejected promise, non-2xx status, or a body
    that does not parse), the loader completes normally, installs the
    fallback catalog (one fandom, one product type), logs and shows its
    banner, and runs the initialization on the fallback: the fandom filter
    and the featured grid are rendered from it. *)
Theorem loadGalleryData_fallback (r : FetchResult) (w : World) :
  fetch_failed r = true ->
  let w' := snd (loadGalleryData r w) in
  fst (loadGalleryData r w) = Normal tt /\
  galleryData (st w') = Some getFallbackData /\
  length (fandoms getFallbackData) = 1%nat /\
  length (productTypes getFallbackData) = 1%nat /\
  map (fun f => Object_keys (fandom_products f)) (fandoms getFallbackData)
    = [["llaveros"]] /\
  console_errors (page w') = S (console_errors (page w)) /\
  galeria_errors (page w') =
    (if present (page w) galeria then S (galeria_errors (page w))
     else galeria_errors (page w)) /\
  (present (page w) fandomFilters = true ->
   fandomFilters_html (page w') =
   all_button :: map fandom_button (fandoms getFallbackData)) /\
  (present (page w) featuredGrid = true ->
   map fi_fandom (featuredGrid_html (page w')) = ["isaac"]).
Proof.
  intros Hfail. cbv zeta.
  assert (Hrun : loadGalleryData r w = initializeGallery (after_failure w))
    by (rewrite loadGalleryData_run; destruct r as [|[|] [|c]];
        (reflexivity || discriminate)).
  rewrite Hrun, (initializeGallery_run _ getFallbackData) by reflexivity.
  unfold after_failure.
  destruct (present (page w) galeria), (present (page w) fandomFilters) eqn:Hf,
           (present (page w) featuredGrid) eqn:Hg;
    cbn [fst snd st page on_state on_page present set_galleryData set_console_errors
         set_galeria_errors set_fandomFilters_html set_featuredGrid_html];
    rewrite ?Hf, ?Hg;
    cbn [fst snd st page on_state on_page present set_galleryData set_console_errors
         set_galeria_errors set_fandomFilters_html set_featuredGrid_html
         galleryData console_errors galeria_errors fandomFilters_html featuredGrid_html];
    repeat split; try reflexivity; try discriminate.
Qed.

Lemma loadGalleryData_fallback_witness :
  let w' := snd (loadGalleryData (Response false Malformed) (initial all_elements)) in
  fst (loadGalleryData (Response false Malformed) (initial all_elements)) = Normal tt /\
  galleryData (st w') = Some getFallbackData /\
  length (fandoms getFallbackData) = 1%nat /\
  length (productTypes getFallbackData) = 1%nat /\
  map (fun f => Object_keys (fandom_products f)) (fandoms getFallbackData)
    = [["llaveros"]] /\
  console_errors (page w') = 1%nat /\
  galeria_errors (page w') = 1%nat /\
  (true = true ->
   fandomFilters_html (page w') =
   all_button :: map fandom_button (fandoms getFallbackData)) /\
  (true = true ->
   map fi_fandom (featuredGrid_html (page w')) = ["isaac"]).
Proof.
  exact (loadGalleryData_fallback (Response false Malformed) (initial all_elements) eq_refl).
Defined.

(** ** Missing elements *)

(** The lookups that the source tests before use: without the element the
    function returns at once and leaves the world as it was (the grid
    renderer, which looks up the product list first, when the product type
    is not an inherited name). *)
Lemma guarded_lookups_noop (w : World) :
  (present (page w) fandomFilters = false -> renderFandomFilters w = (Normal tt, w)) /\
  (present (page w) featuredGrid = false -> renderFeaturedProducts w = (Normal tt, w)) /\
  (present (page w) productTypeFilters = false ->
   forall fandom, renderProductTypeFilters fandom w = (Normal tt, w)) /\
  (present (page w) productGrid = false ->
   (forall f, currentFandom (st w) = Some f ->
      inherited_key f (currentProductType (st w)) = false) ->
   renderProducts w = (Normal tt, w)) /\
  (present (page w) productGrid = false -> scrollToProductGrid w = (Normal tt, w)).
Proof.
  repeat split.
  - intros H. now rewrite renderFandomFilters_run, H.
  - intros H. now rewrite renderFeaturedProducts_run, H.
  - intros H fandom. unfold renderProductTypeFilters. js_unfold. now rewrite H.
  - intros H Hi. rewrite renderProducts_run, H.
    destruct (currentFandom (st w)) as [f|]; [|reflexivity].
    cbv zeta. now rewrite (Hi f eq_refl).
  - intros H. unfold scrollToProductGrid. js_unfold. now rewrite H.
Qed.

(** The lookups that the source uses untested: without the element the
    function throws. *)
Lemma unguarded_lookups_throw (w : World) :
  (present (page w) prevPage = false \/ present (page w) nextPage = false ->
   forall totalItems totalPages,
     completed (updatePaginationControls totalItems totalPages w) = false) /\
  (present (page w) featuredView = false \/ present (page w) fandomView = false ->
   completed (showFeaturedView w) = false /\
   currentFandom (st (snd (showFeaturedView w))) = currentFandom (st w)).
Proof.
  split.
  - intros H totalItems totalPages. rewrite updatePaginationControls_run.
    destruct (present (page w) prevPage), (present (page w) nextPage);
      try reflexivity; destruct H; discriminate.
  - intros H. unfold showFeaturedView. js_unfold.
    destruct (present (page w) featuredView) eqn:Hfv;
      cbn [page on_page present set_featuredView_display];
      [destruct (present (page w) fandomView) eqn:Hdv|];
      try (split; reflexivity); destruct H; discriminate.
Qed.

(** C2 (the code departs from the claim).  On a page without the pagination
    buttons, rendering the grid of a selected fandom writes the tiles and
    then throws a TypeError from the paginator; on a page without the
    featured-view container, selecting a fandom throws a TypeError after
    currentFandom has already been changed, and returning to the featured
    view throws as well. *)
Theorem unguarded_lookups_fail :
  let w1 := step (initial no_pagination) (DOMContentLoaded (ok_response catalog13)) in
  let w2 := step (initial no_featuredView) (DOMContentLoaded (ok_response catalog13)) in
  (fst (dispatch (Click_filterBtn 1) w1) = Throw (TypeError "prevBtn.disabled") /\
   productGrid_html (page w1) = [] /\
   length (productGrid_html (page (step w1 (Click_filterBtn 1)))) = 6%nat) /\
  (fst (showFandomDetail "isaac" w2) = Throw (TypeError "featuredView.style") /\
   currentFandom (st w2) = None /\
   option_map fandom_id (currentFandom (st (snd (showFandomDetail "isaac" w2))))
     = Some "isaac") /\
  fst (showFeaturedView w2) = Throw (TypeError "featuredView.style").
Proof. vm_compute. repeat split; reflexivity. Qed.

(** ** Product-type filters *)

Lemma find_productType_id (c : Catalog) (key : string) (pt : ProductType) :
  find_productType c key = Some pt -> pt_id pt = key.
Proof.
  unfold find_productType. intros H.
  apply find_some in H. now apply String.eqb_eq.
Qed.

(** One control per key that resolves to a product type of the catalog, in
    key order; the other keys are skipped. *)
Lemma typeButtons_from_types (c : Catalog) (fandom : Fandom) (keys : list string) (index : nat) :
  map tb_type (typeButtons_from c fandom keys index) = filter (resolves c) keys.
Proof.
  revert index. induction keys as [|k keys IH]; intros index; [reflexivity|].
  cbn [typeButtons_from filter]. unfold resolves at 1.
  destruct (find_productType c k) as [pt|] eqn:Hk.
  - cbn [map tb_type]. now rewrite IH, (find_productType_id c k pt Hk).
  - apply IH.
Qed.

(** A control is marked active only if it was emitted at key index 0. *)
Lemma typeButtons_from_inactive (c : Catalog) (fandom : Fandom) (keys : list string) (index : nat) :
  forallb (fun b => negb (tb_active b)) (typeButtons_from c fandom keys (S index)) = true.
Proof.
  revert index. induction keys as [|k keys IH]; intros index; [reflexivity|].
  cbn [typeButtons_from].
  destruct (find_productType c k); [cbn [forallb tb_active Nat.eqb negb andb]|]; apply IH.
Qed.

(** When the first key resolves, the first control is the active one. *)
Lemma typeButtons_first_resolves (c : Catalog) (fandom : Fandom) (k : string) (keys : list string) :
  resolves c k = true ->
  exists b rest,
    typeButtons_from c fandom (k :: keys) 0 = b :: rest /\
    tb_active b = true /\ tb_type b = k /\
    forallb (fun b' => negb (tb_active b')) rest = true.
Proof.
  unfold resolves. intros H. cbn [typeButtons_from].
  destruct (find_productType c k) as [pt|] eqn:Hk; [|discriminate].
  eexists _, _. split; [reflexivity|]. cbn [tb_active tb_type Nat.eqb].
  split; [reflexivity|]. split; [now apply find_productType_id in Hk|].
  apply typeButtons_from_inactive.
Qed.

(** When the first key does not resolve, no control at all is active. *)
Lemma typeButtons_first_unresolved (c : Catalog) (fandom : Fandom) (k : string) (keys : list string) :
  resolves c k = false ->
  forallb (fun b => negb (tb_active b)) (typeButtons_from c fandom (k :: keys) 0) = true.
Proof.
  unfold resolves. intros H. cbn [typeButtons_from].
  destruct (find_productType c k); [discriminate|].
  apply typeButtons_from_inactive.
Qed.

(** C4 (the code departs from the claim).  For a fandom whose keys are
    "stickers" then "llaveros", in a catalog that defines only "llaveros",
    the rebuild emits the single control for "llaveros", and that control
    is not marked active: the mark goes to key index 0, which was skipped.
    The grid shown next is that of the skipped key. *)
Theorem renderProductTypeFilters_first_key_skipped :
  let w := step (initial all_elements) (DOMContentLoaded (ok_response catalog_stickers_first)) in
  let w' := snd (renderProductTypeFilters fandom_stickers_first w) in
  Object_keys (fandom_products fandom_stickers_first) = ["stickers"; "llaveros"] /\
  map (resolves catalog_stickers_first) ["stickers"; "llaveros"] = [false; true] /\
  fst (renderProductTypeFilters fandom_stickers_first w) = Normal tt /\
  productTypeFilters_html (page w') = [ mkTypeBtn false "llaveros" "key" "Llaveros" 2 ] /\
  existsb tb_active (productTypeFilters_html (page w')) = false /\
  currentProductType (st (step w (Click_filterBtn 1))) = "stickers".
Proof. vm_compute. repeat split; reflexivity. Qed.

(** ** Views *)

Lemma showFeaturedView_run (w : World) :
  showFeaturedView w =
  if present (page w) featuredView then
    if present (page w) fandomView then
      (Normal tt,
       on_state (set_currentFandom None)
         (on_page (set_fandomView_display (Some "none"))
            (on_page (set_featuredView_display (Some "block")) w)))
    else (Throw (TypeError "fandomView.style"),
          on_page (set_featuredView_display (Some "block")) w)
  else (Throw (TypeError "featuredView.style"), w).
Proof.
  unfold showFeaturedView. js_unfold.
  destruct (present (page w) featuredView);
    cbn [page on_page present set_featuredView_display];
    [destruct (present (page w) fandomView)|]; reflexivity.
Qed.

Lemma renderProductTypeFilters_run (fandom : Fandom) (c : Catalog) (w : World) :
  galleryData (st w) = Some c ->
  renderProductTypeFilters fandom w =
  (Normal tt,
   if present (page w) productTypeFilters
   then on_page (set_productTypeFilters_html
                   (typeButtons_from c fandom (Object_keys (fandom_products fandom)) 0)) w
   else w).
Proof.
  intros Hc. unfold renderProductTypeFilters. js_unfold.
  destruct (present (page w) productTypeFilters); cbn [negb]; [|reflexivity].
  now rewrite Hc.
Qed.

Lemma showFandomDetail_skipped (fandomId : string) (w : World) :
  match galleryData (st w) with
  | None => True
  | Some c => find_fandom c fandomId = None
  end ->
  snd (showFandomDetail fandomId w) = w.
Proof.
  unfold showFandomDetail. js_unfold.
  destruct (galleryData (st w)) as [c|]; [|reflexivity].
  intros H. now rewrite H.
Qed.

Lemma showFandomDetail_failed (fandomId : string) (c : Catalog) (fandom : Fandom) (w : World) :
  galleryData (st w) = Some c ->
  find_fandom c fandomId = Some fandom ->
  present (page w) featuredView && present (page w) fandomView
    && present (page w) selectedFandomName = false ->
  completed (showFandomDetail fandomId w) = false /\
  snd (showFandomDetail fandomId w) = detail_failed fandom w.
Proof.
  intros Hc Hf Hel. unfold showFandomDetail, detail_failed. js_unfold.
  rewrite Hc, Hf. wsimpl.
  destruct (present (page w) featuredView); [|split; reflexivity]. wsimpl.
  destruct (present (page w) fandomView); [|split; reflexivity]. wsimpl.
  destruct (present (page w) selectedFandomName); [discriminate|split; reflexivity].
Qed.

Lemma showFandomDetail_entered (fandomId : string) (c : Catalog) (fandom : Fandom) (w : World) :
  galleryData (st w) = Some c ->
  find_fandom c fandomId = Some fandom ->
  present (page w) featuredView = true ->
  present (page w) fandomView = true ->
  present (page w) selectedFandomName = true ->
  showFandomDetail fandomId w =
  match renderProducts (detail_entered c fandom w) with
  | (Normal _, w') =>
      if present (page w') galeria
      then (Normal tt, scrollIntoView galeria w')
      else (Throw (TypeError "galeria.scrollIntoView"), w')
  | (Throw e, w') => (Throw e, w')
  end.
Proof.
  intros Hc Hf Hfv Hdv Hsn. unfold showFandomDetail, detail_entered. js_unfold.
  rewrite Hc, Hf. wsimpl. rewrite Hfv. wsimpl. rewrite Hdv. wsimpl. rewrite Hsn.
  rewrite (renderProductTypeFilters_run fandom c) by exact Hc. wsimpl.
  destruct (renderProducts _) as [[[]|e] w']; [|reflexivity].
  destruct (present (page w') galeria); reflexivity.
Qed.

Lemma detail_entered_st (c : Catalog) (fandom : Fandom) (w : World) :
  st (detail_entered c fandom w) =
  set_currentProductType (first_key_or_llaveros fandom)
    (set_currentPage 1 (set_currentFandom (Some fandom) (st w))).
Proof.
  unfold detail_entered. destruct (present (page w) productTypeFilters); reflexivity.
Qed.

Lemma detail_entered_page (c : Catalog) (fandom : Fandom) (w : World) :
  present (page (detail_entered c fandom w)) = present (page w) /\
  prevPage_onclick (page (detail_entered c fandom w)) = prevPage_onclick (page w) /\
  nextPage_onclick (page (detail_entered c fandom w)) = nextPage_onclick (page w).
Proof.
  unfold detail_entered. destruct (present (page w) productTypeFilters); repeat split.
Qed.

(** In every case the fandom found is selected and the page is 1. *)
Lemma showFandomDetail_found (fandomId : string) (c : Catalog) (fandom : Fandom) (w : World) :
  galleryData (st w) = Some c ->
  find_fandom c fandomId = Some fandom ->
  let w' := snd (showFandomDetail fandomId w) in
  currentFandom (st w') = Some fandom /\
  currentPage (st w') = 1 /\
  (present (page w) featuredView = true -> present (page w) fandomView = true ->
   featuredView_display (page w') = Some "none" /\
   fandomView_display (page w') = Some "block").
Proof.
  intros Hc Hf. cbv zeta.
  destruct (present (page w) featuredView && present (page w) fandomView
            && present (page w) selectedFandomName) eqn:Hel.
  - apply andb_true_iff in Hel as [Hel Hsn]. apply andb_true_iff in Hel as [Hfv Hdv].
    rewrite (showFandomDetail_entered fandomId c fandom w Hc Hf Hfv Hdv Hsn).
    pose proof (renderProducts_st (detail_entered c fandom w)) as Hst.
    pose proof (renderProducts_run (detail_entered c fandom w)) as Hrun.
    assert (Hdisp : forall w0, snd (renderProducts (detail_entered c fandom w)) = w0 ->
              featuredView_display (page w0) = Some "none" /\
              fandomView_display (page w0) = Some "block").
    { intros w0 <-. rewrite Hrun. unfold detail_entered. wsimpl.
      destruct (present (page w) productTypeFilters); wsimpl;
        rewrite first_key_not_inherited;
        (destruct (present (page w) productGrid); [|split; reflexivity]);
        rewrite updatePaginationControls_run; wsimpl;
        destruct (present (page w) prevPage), (present (page w) nextPage);
        split; reflexivity. }
    destruct (renderProducts (detail_entered c fandom w)) as [[[]|e] w0];
      cbn [snd] in *; specialize (Hdisp w0 eq_refl);
      [destruct (present (page w0) galeria)|]; wsimpl;
      rewrite ?Hst, ?detail_entered_st; wsimpl; (split; [reflexivity|split; [reflexivity|intros _ _; exact Hdisp]]).
  - destruct (showFandomDetail_failed fandomId c fandom w Hc Hf Hel) as [_ ->].
    unfold detail_failed.
    destruct (present (page w) featuredView); [|repeat split; discriminate].
    destruct (present (page w) fandomView); [|repeat split; discriminate].
    repeat split.
Qed.

(** ** The states of the handlers *)

Lemma prevPage_handler_run (w : World) :
  prevPage_handler w =
  if currentPage (st w) >? 1 then
    match renderProducts (on_state (set_currentPage (currentPage (st w) - 1)) w) with
    | (Normal _, w') => scrollToProductGrid w'
    | (Throw e, w') => (Throw e, w')
    end
  else (Normal tt, w).
Proof.
  unfold prevPage_handler. js_unfold.
  destruct (currentPage (st w) >? 1); [|reflexivity].
  destruct (renderProducts _) as [[[]|e] w']; reflexivity.
Qed.

Lemma nextPage_handler_run (totalPages : Z) (w : World) :
  nextPage_handler totalPages w =
  if currentPage (st w) <? totalPages then
    match renderProducts (on_state (set_currentPage (currentPage (st w) + 1)) w) with
    | (Normal _, w') => scrollToProductGrid w'
    | (Throw e, w') => (Throw e, w')
    end
  else (Normal tt, w).
Proof.
  unfold nextPage_handler. js_unfold.
  destruct (currentPage (st w) <? totalPages); [|reflexivity].
  destruct (renderProducts _) as [[[]|e] w']; reflexivity.
Qed.

Lemma scrollToProductGrid_footprint (w : World) :
  footprint (snd (scrollToProductGrid w)) = footprint w /\
  st (snd (scrollToProductGrid w)) = st w.
Proof.
  unfold scrollToProductGrid. js_unfold.
  destruct (present (page w) productGrid); split; reflexivity.
Qed.

Lemma then_scroll_footprint (r : Completion unit * World) :
  footprint (snd (match r with
                  | (Normal _, w') => scrollToProductGrid w'
                  | (Throw e, w') => (Throw e, w')
                  end)) = footprint (snd r) /\
  st (snd (match r with
           | (Normal _, w') => scrollToProductGrid w'
           | (Throw e, w') => (Throw e, w')
           end)) = st (snd r).
Proof.
  destruct r as [[[]|e] w']; cbn [snd];
    [apply scrollToProductGrid_footprint | split; reflexivity].
Qed.

Lemma prevPage_handler_st (w : World) :
  st (snd (prevPage_handler w)) =
  if currentPage (st w) >? 1 then set_currentPage (currentPage (st w) - 1) (st w)
  else st w.
Proof.
  rewrite prevPage_handler_run.
  destruct (currentPage (st w) >? 1); [|reflexivity].
  now rewrite (proj2 (then_scroll_footprint _)), renderProducts_st.
Qed.

Lemma nextPage_handler_st (totalPages : Z) (w : World) :
  st (snd (nextPage_handler totalPages w)) =
  if currentPage (st w) <? totalPages then set_currentPage (currentPage (st w) + 1) (st w)
  else st w.
Proof.
  rewrite nextPage_handler_run.
  destruct (currentPage (st w) <? totalPages); [|reflexivity].
  now rewrite (proj2 (then_scroll_footprint _)), renderProducts_st.
Qed.

Lemma productTypeBtn_handler_run (i : nat) (data_type : string) (w : World) :
  productTypeBtn_handler i data_type w =
  renderProducts
    (on_state (set_currentPage 1)
       (on_state (set_currentProductType data_type)
          (on_page (fun p => set_productTypeFilters_html
                               (activate_type i (productTypeFilters_html p)) p) w))).
Proof. reflexivity. Qed.

Lemma productTypeBtn_handler_st (i : nat) (data_type : string) (w : World) :
  st (snd (productTypeBtn_handler i data_type w)) =
  set_currentPage 1 (set_currentProductType data_type (st w)).
Proof. now rewrite productTypeBtn_handler_run, renderProducts_st. Qed.

Lemma showFeaturedView_st (w : World) :
  st (snd (showFeaturedView w)) = st w \/
  st (snd (showFeaturedView w)) = set_currentFandom None (st w).
Proof.
  rewrite showFeaturedView_run.
  destruct (present (page w) featuredView), (present (page w) fandomView);
    (now left) || (now right).
Qed.

Lemma initializeGallery_footprint (w : World) (c : Catalog) :
  galleryData (st w) = Some c ->
  footprint (snd (initializeGallery w)) = footprint w /\
  st (snd (initializeGallery w)) = st w.
Proof.
  intros Hc. rewrite (initializeGallery_run w c Hc).
  destruct (present (page w) fandomFilters), (present (page w) featuredGrid);
    split; reflexivity.
Qed.

Lemma loadGalleryData_footprint (r : FetchResult) (w : World) :
  footprint (snd (loadGalleryData r w)) = footprint w /\
  currentFandom (st (snd (loadGalleryData r w))) = currentFandom (st w) /\
  currentProductType (st (snd (loadGalleryData r w))) = currentProductType (st w) /\
  currentPage (st (snd (loadGalleryData r w))) = currentPage (st w).
Proof.
  rewrite loadGalleryData_run.
  assert (Hfail : footprint (after_failure w) = footprint w /\
                  st (after_failure w) = set_galleryData (Some getFallbackData) (st w))
    by (unfold after_failure; destruct (present (page w) galeria); split; reflexivity).
  destruct Hfail as [Hfp Hst].
  assert (H : footprint (snd (initializeGallery (after_failure w))) = footprint w /\
              st (snd (initializeGallery (after_failure w))) =
                set_galleryData (Some getFallbackData) (st w)).
  { destruct (initializeGallery_footprint (after_failure w) getFallbackData) as [H1 H2];
      [now rewrite Hst|].
    now rewrite H1, H2, Hfp, Hst. }
  destruct r as [|[|] [|c]];
    try (destruct H as [H1 H2]; rewrite H1, H2; repeat split).
  destruct (initializeGallery_footprint
              (on_state (set_galleryData (Some c)) w) c eq_refl) as [H1 H2].
  rewrite H1, H2. repeat split.
Qed.

(** ** The product type that is looked up *)

Lemma activate_type_types (i : nat) (l : list TypeBtn) :
  map tb_type (activate_type i l) = map tb_type l.
Proof.
  unfold activate_type. rewrite map_map. cbn [tb_type].
  generalize 0%nat as s. induction l as [|b l IH]; intros s; [reflexivity|].
  cbn [length seq combine map snd]. now rewrite IH.
Qed.

Lemma typeButtons_from_own (c : Catalog) (fandom : Fandom) (keys : list string)
    (index : nat) (b : TypeBtn) :
  In b (typeButtons_from c fandom keys index) -> In (tb_type b) keys.
Proof.
  intros Hb. apply (in_map tb_type) in Hb.
  rewrite typeButtons_from_types in Hb. now apply filter_In in Hb.
Qed.

Lemma renderProducts_keys (w : World) :
  key_footprint (snd (renderProducts w)) = key_footprint w.
Proof.
  rewrite renderProducts_run.
  destruct (currentFandom (st w)); [|reflexivity]. cbv zeta.
  destruct (inherited_key _ _); [reflexivity|].
  destruct (present (page w) productGrid); [|reflexivity].
  rewrite updatePaginationControls_run. wsimpl.
  destruct (present (page w) prevPage), (present (page w) nextPage); reflexivity.
Qed.

Lemma then_scroll_keys (r : Completion unit * World) :
  key_footprint (snd (match r with
                      | (Normal _, w') => scrollToProductGrid w'
                      | (Throw e, w') => (Throw e, w')
                      end)) = key_footprint (snd r).
Proof.
  destruct r as [[[]|e] w']; cbn [snd]; [|reflexivity].
  unfold scrollToProductGrid. js_unfold.
  destruct (present (page w') productGrid); reflexivity.
Qed.

Section OwnKeys.

Variable elements : ElemId -> bool.

Lemma own_key_inv_ext (w w' : World) :
  key_footprint w' = key_footprint w ->
  own_key_inv elements w -> own_key_inv elements w'.
Proof.
  unfold key_footprint, own_key_inv. intros H.
  injection H as -> -> -> ->. trivial.
Qed.

Lemma own_key_inv_initial : own_key_inv elements (initial elements).
Proof.
  repeat split; try reflexivity; intros; discriminate.
Qed.

Lemma showFeaturedView_own_key (w : World) :
  own_key_inv elements w -> own_key_inv elements (snd (showFeaturedView w)).
Proof.
  intros Hinv. rewrite showFeaturedView_run.
  destruct (present (page w) featuredView); [|exact Hinv].
  destruct (present (page w) fandomView); [|exact Hinv].
  destruct Hinv as (H1 & H2 & H3 & H4).
  refine (conj H1 (conj H2 (conj H3 _))). intros f Hf. discriminate.
Qed.

Lemma showFandomDetail_own_key (fandomId : string) (w : World) :
  own_key_inv elements w ->
  own_key_inv elements (snd (showFandomDetail fandomId w)).
Proof.
  intros Hinv.
  destruct (galleryData (st w)) as [c|] eqn:Hc;
    [destruct (find_fandom c fandomId) as [fandom|] eqn:Hf|];
    try (rewrite showFandomDetail_skipped; [exact Hinv | now rewrite Hc]).
  destruct Hinv as (H1 & H2 & H3 & H4).
  destruct (present (page w) featuredView && present (page w) fandomView
            && present (page w) selectedFandomName) eqn:Hel.
  - apply andb_true_iff in Hel as [Hel Hsn]. apply andb_true_iff in Hel as [Hfv Hdv].
    rewrite (showFandomDetail_entered fandomId c fandom w Hc Hf Hfv Hdv Hsn).
    assert (Hv : views_present elements) by (subst elements; repeat split; assumption).
    assert (Hent : own_key_inv elements (detail_entered c fandom w)).
    { unfold own_key_inv. rewrite detail_entered_st.
      rewrite (proj1 (detail_entered_page c fandom w)).
      unfold detail_entered. wsimpl.
      refine (conj H1 (conj _ (conj _ _))).
      - intros Hnv. now destruct Hnv.
      - intros Hpt. subst elements. rewrite Hpt. wsimpl. now apply H3.
      - intros f Hf'. injection Hf' as <-.
        split; [apply first_key_or_llaveros_own|].
        intros b Hb. destruct (present (page w) productTypeFilters) eqn:Hpt;
          wsimpl.
        + now apply typeButtons_from_own in Hb.
        + subst elements. rewrite (H3 Hpt) in Hb. now destruct Hb. }
    pose proof (renderProducts_keys (detail_entered c fandom w)) as Hr.
    destruct (renderProducts (detail_entered c fandom w)) as [[[]|e] w']; cbn [snd] in *;
      [destruct (present (page w') galeria)|];
      revert Hent; apply own_key_inv_ext; exact Hr.
  - destruct (showFandomDetail_failed fandomId c fandom w Hc Hf Hel) as [_ ->].
    assert (Hnv : ~ views_present elements).
    { subst elements. intros (Ha & Hb & Hd). now rewrite Ha, Hb, Hd in Hel. }
    destruct (H2 Hnv) as [Hty Hnil].
    assert (Hfp : present (page (detail_failed fandom w)) = present (page w) /\
                  productTypeFilters_html (page (detail_failed fandom w)) =
                    productTypeFilters_html (page w) /\
                  currentProductType (st (detail_failed fandom w)) =
                    currentProductType (st w))
      by (unfold detail_failed;
          destruct (present (page w) featuredView), (present (page w) fandomView);
          repeat split).
    destruct Hfp as (E1 & E2 & E3).
    unfold own_key_inv. rewrite E1, E2, E3.
    refine (conj H1 (conj H2 (conj H3 _))). intros f _.
    split; [now left|]. intros b Hb. rewrite Hnil in Hb. now destruct Hb.
Qed.

Lemma step_own_key (w : World) (e : Event) :
  own_key_inv elements w -> own_key_inv elements (step w e).
Proof.
  intros Hinv. unfold step. destruct e as [r|i|i|i| |]; cbn [dispatch].
  - revert Hinv. apply own_key_inv_ext.
    destruct (loadGalleryData_footprint r w) as (H & _).
    unfold footprint in H. unfold key_footprint. now injection H as -> -> -> _ _ _ ->.
  - destruct (nth_error (fandomFilters_html (page w)) i) as [btn|]; [|exact Hinv].
    unfold handleFandomFilter. js_unfold.
    destruct (String.eqb (fb_fandom btn) "all");
      [apply showFeaturedView_own_key | apply showFandomDetail_own_key];
      revert Hinv; apply own_key_inv_ext; reflexivity.
  - destruct (nth_error (featuredGrid_html (page w)) i) as [item|]; [|exact Hinv].
    now apply showFandomDetail_own_key.
  - destruct (nth_error (productTypeFilters_html (page w)) i) as [btn|] eqn:Hbtn;
      [|exact Hinv].
    rewrite productTypeBtn_handler_run.
    eapply own_key_inv_ext; [apply renderProducts_keys|].
    destruct Hinv as (H1 & H2 & H3 & H4).
    assert (Hne : productTypeFilters_html (page w) <> [])
      by (intros Hnil; rewrite Hnil in Hbtn; now destruct i).
    unfold own_key_inv. wsimpl. refine (conj H1 (conj _ (conj _ _))).
    + intros Hnv. now destruct (H2 Hnv) as [_ Hnil].
    + intros Hpt. now destruct (Hne (H3 Hpt)).
    + intros f Hf. destruct (H4 f Hf) as [_ Hbtns]. split.
      * right. apply Hbtns. now apply nth_error_In in Hbtn.
      * intros b Hb. apply (in_map tb_type) in Hb.
        rewrite activate_type_types in Hb.
        apply in_map_iff in Hb as (b0 & <- & Hb0). now apply Hbtns.
  - destruct (prevPage_onclick (page w)); [|exact Hinv].
    revert Hinv. apply own_key_inv_ext. rewrite prevPage_handler_run.
    destruct (currentPage (st w) >? 1); [|reflexivity].
    now rewrite then_scroll_keys, renderProducts_keys.
  - destruct (nextPage_onclick (page w)) as [tp|]; [|exact Hinv].
    revert Hinv. apply own_key_inv_ext. rewrite nextPage_handler_run.
    destruct (currentPage (st w) <? tp); [|reflexivity].
    now rewrite then_scroll_keys, renderProducts_keys.
Qed.

Lemma reachable_own_keys (w : World) :
  reachable elements w -> own_key_inv elements w.
Proof.
  induction 1 as [|w e _ IH]; [apply own_key_inv_initial | now apply step_own_key].
Qed.

(** In every reachable world the key that [renderProducts] looks up in the
    selected fandom is an own key of that fandom or ["llaveros"]. *)
Lemma reachable_own_key (w : World) (f : Fandom) :
  reachable elements w ->
  currentFandom (st w) = Some f ->
  currentProductType (st w) = "llaveros" \/
  In (currentProductType (st w)) (Object_keys (fandom_products f)).
Proof.
  intros Hreach Hf.
  destruct (reachable_own_keys w Hreach) as (_ & _ & _ & H4). now apply H4.
Qed.

(** So the lookup never finds an inherited value there. *)
Lemma own_key_inv_not_inherited (w : World) (f : Fandom) :
  own_key_inv elements w ->
  currentFandom (st w) = Some f ->
  inherited_key f (currentProductType (st w)) = false.
Proof.
  intros (_ & _ & _ & H4) Hf. apply own_key_not_inherited. now apply H4.
Qed.

Lemma reachable_not_inherited (w : World) (f : Fandom) :
  reachable elements w ->
  currentFandom (st w) = Some f ->
  inherited_key f (currentProductType (st w)) = false.
Proof.
  intros Hreach. apply own_key_inv_not_inherited. now apply reachable_own_keys.
Qed.

End OwnKeys.

(** ** The paginator invariant *)

Section Invariant.

Variable elements : ElemId -> bool.

Lemma total_pages_nonneg (f : Fandom) (ty : string) : 0 <= total_pages f ty.
Proof.
  pose proof (Math_ceil_div_spec (Z.of_nat (length (products_of f ty))) 6 ltac:(lia)) as H.
  unfold total_pages. change (itemsPerPage CONFIG) with 6. lia.
Qed.

Lemma paginator_inv_ext (w w' : World) :
  footprint w' = footprint w ->
  paginator_inv elements w -> paginator_inv elements w'.
Proof.
  unfold footprint, paginator_inv. intros H.
  injection H as -> -> -> -> -> -> ->. trivial.
Qed.

Lemma renderProducts_restores (w : World) :
  pre_render elements w -> paginator_inv elements (snd (renderProducts w)).
Proof.
  intros (H1 & H2 & H3 & H4 & H5 & H6 & H7).
  assert (Hunbound : paginator_present elements \/
                     forall tp, nextPage_onclick (page w) <> Some tp).
  { destruct (nextPage_onclick (page w)) as [tp|] eqn:Hn.
    - left. apply (H5 tp eq_refl).
    - right. intros tp. discriminate. }
  assert (Hsame : (currentFandom (st w) = None \/
                   forall tp, nextPage_onclick (page w) <> Some tp) ->
                  paginator_inv elements w).
  { intros Hcase. split_inv; try assumption.
    intros tp Hn. destruct (H5 tp Hn) as (Hv & Hp & Htp & Hle).
    destruct Hcase as [Hnone|Hno]; [|now destruct (Hno tp)].
    repeat (split; try assumption); [now apply Hle|].
    intros f Hf. congruence. }
  rewrite renderProducts_run.
  destruct (currentFandom (st w)) as [f|] eqn:Hf; cbv zeta;
    [|apply Hsame; now left].
  rewrite (H7 f eq_refl).
  assert (Hcut : forall w', footprint w' = footprint w ->
            ~ paginator_present elements -> paginator_inv elements w').
  { intros w' Hfp Hnp. apply (paginator_inv_ext w w' Hfp).
    apply Hsame. right. destruct Hunbound as [Hp|Hno]; [now destruct Hnp|exact Hno]. }
  destruct (present (page w) productGrid) eqn:Hg.
  - rewrite updatePaginationControls_run. wsimpl.
    destruct (present (page w) prevPage) eqn:Hp;
      [destruct (present (page w) nextPage) eqn:Hn|].
    + assert (Hpp : paginator_present elements)
        by (subst elements; repeat split; assumption).
      destruct (H6 f eq_refl Hpp) as [Hv Hle].
      unfold paginated. split_inv; wsimpl; try assumption.
      * split; [discriminate|reflexivity].
      * intros tp Htp. injection Htp as <-.
        repeat (split; try assumption); [apply total_pages_nonneg|].
        intros f' Hf'. congruence.
    + apply Hcut; [reflexivity|]. subst elements. intros (_ & _ & Hn'). congruence.
    + apply Hcut; [reflexivity|]. subst elements. intros (_ & Hp' & _). congruence.
  - apply Hcut; [reflexivity|]. subst elements. intros (Hg' & _). congruence.
Qed.

Lemma paginator_inv_initial : paginator_inv elements (initial elements).
Proof.
  split_inv; cbn; try reflexivity; try discriminate.
  - split; [discriminate | intros H; now contradiction H].
  - intros H; now contradiction H.
Qed.

Lemma showFandomDetail_inv (fandomId : string) (w : World) :
  paginator_inv elements w ->
  paginator_inv elements (snd (showFandomDetail fandomId w)).
Proof.
  intros Hinv.
  destruct (galleryData (st w)) as [c|] eqn:Hc;
    [destruct (find_fandom c fandomId) as [fandom|] eqn:Hf|];
    try (rewrite showFandomDetail_skipped; [exact Hinv | now rewrite Hc]).
  destruct Hinv as (H1 & H2 & H3 & H4 & H5).
  destruct (present (page w) featuredView && present (page w) fandomView
            && present (page w) selectedFandomName) eqn:Hel.
  - apply andb_true_iff in Hel as [Hel Hsn]. apply andb_true_iff in Hel as [Hfv Hdv].
    rewrite (showFandomDetail_entered fandomId c fandom w Hc Hf Hfv Hdv Hsn).
    assert (Hv : views_present elements) by (subst elements; repeat split; assumption).
    assert (Hpre : pre_render elements (detail_entered c fandom w)).
    { destruct (detail_entered_page c fandom w) as (Ep & Eprev & Enext).
      unfold pre_render. rewrite Ep, Eprev, Enext, detail_entered_st. wsimpl.
      split_pre; try assumption; try lia.
      - intros _. exact Hv.
      - intros tp Hn. destruct (H5 tp Hn) as (_ & Hp & Htp & _).
        repeat (split; try assumption). discriminate.
      - intros f _ _. split; [assumption|lia].
      - intros f Hf'. injection Hf' as <-. apply first_key_not_inherited. }
    apply renderProducts_restores in Hpre.
    destruct (renderProducts (detail_entered c fandom w)) as [[[]|e] w']; cbn [snd] in *;
      [destruct (present (page w') galeria)|]; exact Hpre.
  - destruct (showFandomDetail_failed fandomId c fandom w Hc Hf Hel) as [_ ->].
    assert (Hnv : ~ views_present elements).
    { subst elements. intros (Ha & Hb & Hd). now rewrite Ha, Hb, Hd in Hel. }
    assert (Hfp : present (page (detail_failed fandom w)) = present (page w) /\
                  prevPage_onclick (page (detail_failed fandom w)) = prevPage_onclick (page w) /\
                  nextPage_onclick (page (detail_failed fandom w)) = nextPage_onclick (page w) /\
                  productTypeFilters_html (page (detail_failed fandom w)) =
                    productTypeFilters_html (page w) /\
                  currentPage (st (detail_failed fandom w)) = 1).
    { unfold detail_failed.
      destruct (present (page w) featuredView), (present (page w) fandomView);
        repeat split. }
    destruct Hfp as (E1 & E2 & E3 & E4 & E5).
    unfold paginator_inv. rewrite E1, E2, E3, E4, E5.
    split_inv; try assumption; try lia.
    intros tp Hn. destruct Hnv. apply (H5 tp Hn).
Qed.

Lemma showFeaturedView_inv (w : World) :
  paginator_inv elements w -> paginator_inv elements (snd (showFeaturedView w)).
Proof.
  intros Hinv. rewrite showFeaturedView_run.
  destruct (present (page w) featuredView); [|exact Hinv].
  destruct (present (page w) fandomView); [|exact Hinv].
  destruct Hinv as (H1 & H2 & H3 & H4 & H5).
  split_inv; wsimpl; try assumption.
  intros tp Hn. destruct (H5 tp Hn) as (Hv & Hp & Htp & Hle & _).
  repeat (split; try assumption). intros f Hf. discriminate.
Qed.

Lemma page_turn_pre_render (w : World) (totalPages cur : Z) :
  paginator_inv elements w ->
  own_key_inv elements w ->
  nextPage_onclick (page w) = Some totalPages ->
  1 <= cur <= Z.max 1 totalPages ->
  pre_render elements (on_state (set_currentPage cur) w).
Proof.
  intros (H1 & H2 & H3 & H4 & H5) Hown Hn Hcur.
  destruct (H5 _ Hn) as (Hv & Hp & Htp & Hle & Hlist).
  split_pre; wsimpl; try assumption; try lia.
  - intros tp Hn'. rewrite Hn in Hn'. injection Hn' as <-.
    repeat (split; try assumption). intros _. lia.
  - intros f Hf _. split; [assumption|]. rewrite <- (Hlist f Hf). lia.
  - intros f Hf. now apply (own_key_inv_not_inherited elements w).
Qed.

Lemma step_inv (w : World) (e : Event) :
  own_key_inv elements w ->
  paginator_inv elements w -> paginator_inv elements (step w e).
Proof.
  intros Hown Hinv. unfold step. destruct e as [r|i|i|i| |]; cbn [dispatch].
  - revert Hinv. apply paginator_inv_ext. apply loadGalleryData_footprint.
  - destruct (nth_error (fandomFilters_html (page w)) i) as [btn|]; [|exact Hinv].
    unfold handleFandomFilter. js_unfold.
    destruct (String.eqb (fb_fandom btn) "all");
      [apply showFeaturedView_inv | apply showFandomDetail_inv];
      revert Hinv; apply paginator_inv_ext; reflexivity.
  - destruct (nth_error (featuredGrid_html (page w)) i) as [item|]; [|exact Hinv].
    now apply showFandomDetail_inv.
  - destruct (nth_error (productTypeFilters_html (page w)) i) as [btn|] eqn:Hbtn;
      [|exact Hinv].
    rewrite productTypeBtn_handler_run. apply renderProducts_restores.
    destruct Hinv as (H1 & H2 & H3 & H4 & H5).
    assert (Hv : views_present elements).
    { apply H4. intros Hnil. rewrite Hnil in Hbtn. now destruct i. }
    split_pre; wsimpl; try assumption; try lia.
    + intros _. exact Hv.
    + intros tp Hn. destruct (H5 tp Hn) as (_ & Hp & Htp & Hle & _).
      repeat (split; try assumption). intros _. lia.
    + intros f _ _. split; [assumption|lia].
    + intros f Hf. apply own_key_not_inherited. right.
      destruct Hown as (_ & _ & _ & Hkeys).
      apply (Hkeys f Hf). now apply nth_error_In in Hbtn.
  - destruct (prevPage_onclick (page w)) eqn:Hprev; [|exact Hinv].
    rewrite prevPage_handler_run.
    destruct (Z.gtb_spec (currentPage (st w)) 1) as [Hgt|Hle]; [|exact Hinv].
    eapply paginator_inv_ext; [apply then_scroll_footprint|].
    apply renderProducts_restores.
    destruct (nextPage_onclick (page w)) as [tp|] eqn:Hn.
    + apply (page_turn_pre_render w tp); [exact Hinv|exact Hown|exact Hn|].
      destruct Hinv as (H1 & H2 & H3 & H4 & H5).
      destruct (H5 _ Hn) as (_ & _ & _ & Hle & _). lia.
    + destruct Hinv as (_ & _ & H3 & _). apply H3 in Hprev. now rewrite Hn in Hprev.
  - destruct (nextPage_onclick (page w)) as [tp|] eqn:Hn; [|exact Hinv].
    rewrite nextPage_handler_run.
    destruct (Z.ltb_spec (currentPage (st w)) tp) as [Hlt|Hge]; [|exact Hinv].
    eapply paginator_inv_ext; [apply then_scroll_footprint|].
    apply renderProducts_restores.
    apply (page_turn_pre_render w tp); [exact Hinv|exact Hown|exact Hn|].
    destruct Hinv as (_ & H2 & _). lia.
Qed.

Lemma reachable_inv (w : World) :
  reachable elements w -> paginator_inv elements w.
Proof.
  induction 1 as [|w e Hw IH]; [apply paginator_inv_initial|].
  apply step_inv; [now apply reachable_own_keys | exact IH].
Qed.

End Invariant.



(** ** Page reset *)

Lemma showFandomDetail_cases (fandomId : string) (w : World) :
  snd (showFandomDetail fandomId w) = w \/
  exists fandom,
    currentFandom (st (snd (showFandomDetail fandomId w))) = Some fandom /\
    currentPage (st (snd (showFandomDetail fandomId w))) = 1.
Proof.
  destruct (galleryData (st w)) as [c|] eqn:Hc;
    [destruct (find_fandom c fandomId) as [fandom|] eqn:Hf|];
    try (left; apply showFandomDetail_skipped; now rewrite Hc).
  right. exists fandom.
  destruct (showFandomDetail_found fandomId c fandom w Hc Hf) as (H1 & H2 & _).
  now split.
Qed.

Lemma isaac_page2_reachable : reachable all_elements isaac_page2.
Proof.
  apply (reachable_step _ _ Click_nextPage).
  apply (reachable_step _ _ (Click_filterBtn 1)).
  apply (reachable_step _ _ (DOMContentLoaded (ok_response catalog13))).
  apply reachable_initial.
Qed.

(** C3, as stated, fails: from page 2 of a fandom, the click on the "all"
    control changes currentFandom (to null) and leaves currentPage at 2. *)
Lemma page_reset_on_every_change_fails :
  ~ page_reset_on_every_change all_elements.
Proof.
  intros H.
  specialize (H isaac_page2 (Click_filterBtn 0) isaac_page2_reachable).
  assert (Hpage : currentPage (st (step isaac_page2 (Click_filterBtn 0))) = 2)
    by (vm_compute; reflexivity).
  rewrite Hpage in H.
  assert (Hchange : currentFandom (st (step isaac_page2 (Click_filterBtn 0)))
                    <> currentFandom (st isaac_page2))
    by (vm_compute; discriminate).
  specialize (H (or_introl Hchange)). discriminate.
Qed.

(** C3, amended.  Every event that selects a fandom (changes currentFandom
    to a fandom) or changes the product type leaves currentPage at 1; an
    event that clears currentFandom to null, the return to the featured
    view, leaves currentPage as it was. *)
Theorem page_reset_on_selection (w : World) (e : Event) :
  let w' := step w e in
  (currentFandom (st w') <> currentFandom (st w) /\ currentFandom (st w') <> None \/
   currentProductType (st w') <> currentProductType (st w) ->
   currentPage (st w') = 1) /\
  (currentFandom (st w') <> currentFandom (st w) -> currentFandom (st w') = None ->
   currentPage (st w') = currentPage (st w)).
Proof.
  cbv zeta. unfold step.
  assert (Hdetail : forall fandomId w0, st w0 = st w ->
            let w' := snd (showFandomDetail fandomId w0) in
            (currentFandom (st w') <> currentFandom (st w) /\ currentFandom (st w') <> None \/
             currentProductType (st w') <> currentProductType (st w) ->
             currentPage (st w') = 1) /\
            (currentFandom (st w') <> currentFandom (st w) -> currentFandom (st w') = None ->
             currentPage (st w') = currentPage (st w))).
  { intros fandomId w0 Hst. cbv zeta.
    destruct (showFandomDetail_cases fandomId w0) as [->|(fandom & Hf & Hp)].
    - rewrite Hst. split; [intros [[H _]|H]; now destruct H | intros H; now destruct H].
    - split; [intros _; exact Hp | intros _ Hnone; congruence]. }
  destruct e as [r|i|i|i| |]; cbn [dispatch].
  - destruct (loadGalleryData_footprint r w) as (_ & Hf & Ht & Hp).
    rewrite Hf, Ht, Hp. split; [intros [[H _]|H]; now destruct H | reflexivity].
  - destruct (nth_error (fandomFilters_html (page w)) i) as [btn|];
      [|cbn [snd]; split; [intros [[H _]|H]; now destruct H | reflexivity]].
    unfold handleFandomFilter. js_unfold.
    destruct (String.eqb (fb_fandom btn) "all"); [|now apply Hdetail].
    destruct (showFeaturedView_st
                (on_page (fun p => set_fandomFilters_html
                                     (activate_filter i (fandomFilters_html p)) p) w))
      as [-> | ->]; wsimpl;
      (split; [intros [[H H']|H]; (now destruct H) || (now destruct H') | reflexivity]).
  - destruct (nth_error (featuredGrid_html (page w)) i) as [item|];
      [now apply Hdetail|].
    cbn [snd]. split; [intros [[H _]|H]; now destruct H | reflexivity].
  - destruct (nth_error (productTypeFilters_html (page w)) i) as [btn|];
      [|cbn [snd]; split; [intros [[H _]|H]; now destruct H | reflexivity]].
    rewrite productTypeBtn_handler_st. wsimpl.
    split; [reflexivity | intros H; now destruct H].
  - destruct (prevPage_onclick (page w));
      [|cbn [snd]; split; [intros [[H _]|H]; now destruct H | reflexivity]].
    rewrite prevPage_handler_st. destruct (currentPage (st w) >? 1); wsimpl;
      (split; [intros [[H _]|H]; now destruct H | intros H; now destruct H]).
  - destruct (nextPage_onclick (page w)) as [tp|];
      [|cbn [snd]; split; [intros [[H _]|H]; now destruct H | reflexivity]].
    rewrite nextPage_handler_st. destruct (currentPage (st w) <? tp); wsimpl;
      (split; [intros [[H _]|H]; now destruct H | intros H; now destruct H]).
Qed.

Lemma page_reset_on_selection_witness :
  currentPage (st (step isaac_page2 (Click_filterBtn 2))) = 1 /\
  currentPage (st (step isaac_page2 (Click_filterBtn 0))) = currentPage (st isaac_page2).
Proof.
  split.
  - apply (proj1 (page_reset_on_selection isaac_page2 (Click_filterBtn 2))).
    left. split; vm_compute; discriminate.
  - apply (proj2 (page_reset_on_selection isaac_page2 (Click_filterBtn 0))).
    + vm_compute; discriminate.
    + vm_compute; reflexivity.
Defined.

(** ** The fandom filter in reachable worlds *)


Lemma renderProducts_filters (w : World) :
  filters_footprint (snd (renderProducts w)) = filters_footprint w.
Proof.
  rewrite renderProducts_run.
  destruct (currentFandom (st w)); [|reflexivity]. cbv zeta.
  destruct (inherited_key _ _); [reflexivity|].
  destruct (present (page w) productGrid); [|reflexivity].
  rewrite updatePaginationControls_run. wsimpl.
  destruct (present (page w) prevPage), (present (page w) nextPage); reflexivity.
Qed.

Lemma then_scroll_filters (r : Completion unit * World) :
  filters_footprint (snd (match r with
                          | (Normal _, w') => scrollToProductGrid w'
                          | (Throw e, w') => (Throw e, w')
                          end)) = filters_footprint (snd r).
Proof.
  destruct r as [[[]|e] w']; cbn [snd]; [|reflexivity].
  unfold scrollToProductGrid. js_unfold.
  destruct (present (page w') productGrid); reflexivity.
Qed.

Lemma showFeaturedView_filters (w : World) :
  filters_footprint (snd (showFeaturedView w)) = filters_footprint w.
Proof.
  rewrite showFeaturedView_run.
  destruct (present (page w) featuredView), (present (page w) fandomView); reflexivity.
Qed.

Lemma showFandomDetail_filters (fandomId : string) (w : World) :
  filters_footprint (snd (showFandomDetail fandomId w)) = filters_footprint w.
Proof.
  destruct (galleryData (st w)) as [c|] eqn:Hc;
    [destruct (find_fandom c fandomId) as [fandom|] eqn:Hf|];
    try (rewrite showFandomDetail_skipped; [reflexivity | now rewrite Hc]).
  destruct (present (page w) featuredView && present (page w) fandomView
            && present (page w) selectedFandomName) eqn:Hel.
  - apply andb_true_iff in Hel as [Hel Hsn]. apply andb_true_iff in Hel as [Hfv Hdv].
    rewrite (showFandomDetail_entered fandomId c fandom w Hc Hf Hfv Hdv Hsn).
    pose proof (renderProducts_filters (detail_entered c fandom w)) as Hr.
    assert (He : filters_footprint (detail_entered c fandom w) = filters_footprint w)
      by (unfold detail_entered; destruct (present (page w) productTypeFilters); reflexivity).
    rewrite He in Hr.
    destruct (renderProducts (detail_entered c fandom w)) as [[[]|e] w']; cbn [snd] in *;
      [destruct (present (page w') galeria)|]; exact Hr.
  - destruct (showFandomDetail_failed fandomId c fandom w Hc Hf Hel) as [_ ->].
    unfold detail_failed.
    destruct (present (page w) featuredView), (present (page w) fandomView); reflexivity.
Qed.





(** ** View transitions *)

Lemma find_fandom_nth (c : Catalog) (i : nat) (f : Fandom) :
  NoDup (map fandom_id (fandoms c)) ->
  nth_error (fandoms c) i = Some f ->
  find_fandom c (fandom_id f) = Some f.
Proof.
  unfold find_fandom. generalize (fandoms c) as l.
  intros l. revert i. induction l as [|g l IH]; intros i Hnd Hi.
  - now destruct i.
  - cbn [find]. inversion Hnd as [|? ? Hnotin Hnd']; subst.
    destruct i as [|i]; cbn [nth_error] in Hi.
    + injection Hi as ->. now rewrite String.eqb_refl.
    + destruct (String.eqb_spec (fandom_id g) (fandom_id f)) as [Heq|_].
      * exfalso. apply Hnotin. rewrite Heq.
        apply in_map. now apply nth_error_In in Hi.
      * now apply (IH i).
Qed.



(** Text with a character reference or a quote is not plain; identifiers
    and titles are. *)
Example markup_free_samples :
  map markup_free
    [ "isaac"; "The Binding of Isaac"; "img/isaac.jpg"; "a&amp;b"; "toStrin&#103;";
      "<b>x</b>"; String (Ascii.ascii_of_nat 34) "x" ]
  = [ true; true; true; false; false; false; false ].
Proof. reflexivity. Qed.




(** * Further properties of the gallery *)

(** ** Pages and the product list *)

Lemma concat_chunks {A} (size : nat) (l : list A) (n : nat) :
  (length l <= size * n)%nat ->
  concat (map (fun i => firstn size (skipn (size * i) l)) (seq 0 n)) = l.
Proof.
  revert l. induction n as [|n IH]; intros l Hlen.
  - rewrite Nat.mul_0_r in Hlen. now destruct l.
  - cbn [seq map concat]. rewrite Nat.mul_0_r. cbn [skipn].
    rewrite <- seq_shift, map_map.
    transitivity (app (firstn size l) (skipn size l)); [|apply firstn_skipn].
    f_equal.
    etransitivity; [|apply (IH (skipn size l)); rewrite length_skipn; lia].
    f_equal. apply map_ext. intros i. rewrite skipn_skipn. do 2 f_equal. lia.
Qed.

Lemma page_of_chunk (f : Fandom) (ty : string) (i : nat) :
  page_of f ty (Z.of_nat (S i)) = firstn 6 (skipn (6 * i) (products_of f ty)).
Proof.
  rewrite page_of_window by lia. do 2 f_equal. lia.
Qed.

(** X1. Rendering the pages 1, ..., totalPages one after the other shows
    the whole product list, each product once and in order: the tiles of
    the successive pages, concatenated, are the list. *)
Theorem pages_partition_products (w : World) (f : Fandom) :
  currentFandom (st w) = Some f ->
  present (page w) productGrid = true ->
  concat (map (fun k => productGrid_html
                          (page (snd (renderProducts (on_state (set_currentPage k) w)))))
              (page_numbers (total_pages f (currentProductType (st w)))))
  = products_of f (currentProductType (st w)).
Proof.
  intros Hf Hg.
  destruct (inherited_key f (currentProductType (st w))) eqn:Hi.
  { assert (Hnil : products_of f (currentProductType (st w)) = [])
      by (unfold inherited_key, products_of in *;
          now destruct (js_get _ _)).
    unfold total_pages. rewrite Hnil. cbn [length].
    now rewrite Math_ceil_div_0. }
  unfold page_numbers. rewrite map_map.
  rewrite <- seq_shift, map_map.
  rewrite (map_ext _ (fun i => firstn 6 (skipn (6 * i)
                                 (products_of f (currentProductType (st w)))))).
  - apply concat_chunks.
    pose proof (Math_ceil_div_spec
                  (Z.of_nat (length (products_of f (currentProductType (st w)))))
                  6 ltac:(lia)) as Hc.
    pose proof (total_pages_nonneg f (currentProductType (st w))) as Hn.
    unfold total_pages in *. change (itemsPerPage CONFIG) with 6 in *. lia.
  - intros i.
    rewrite (renderProducts_grid (on_state (set_currentPage (Z.of_nat (S i))) w) f Hf Hi Hg).
    apply page_of_chunk.
Qed.

Lemma pages_partition_products_witness :
  concat (map (fun k => productGrid_html
                          (page (snd (renderProducts
                                        (on_state (set_currentPage k) isaac_detail)))))
              (page_numbers (total_pages
                               (mkFandom "isaac" "The Binding of Isaac" true "img/isaac.jpg"
                                  [ ("llaveros", numbered_products 13) ])
                               "llaveros")))
  = numbered_products 13.
Proof.
  exact (pages_partition_products isaac_detail
           (mkFandom "isaac" "The Binding of Isaac" true "img/isaac.jpg"
              [ ("llaveros", numbered_products 13) ])
           eq_refl eq_refl).
Defined.

(** X2. A second rendering of the grid changes nothing: [renderProducts]
    leaves the view state alone and rebuilds the grid and the paginator
    from it, so running it twice gives the world and the completion of
    running it once. *)
Theorem renderProducts_idempotent (w : World) :
  renderProducts (snd (renderProducts w)) = renderProducts w.
Proof.
  rewrite (renderProducts_run w).
  destruct (currentFandom (st w)) as [f|] eqn:Hf; cbv zeta.
  - destruct (inherited_key f (currentProductType (st w))) eqn:Hi.
    { cbn [snd]. rewrite renderProducts_run, Hf. cbv zeta. now rewrite Hi. }
    destruct (present (page w) productGrid) eqn:Hg.
    + rewrite updatePaginationControls_run. wsimpl.
      destruct (present (page w) prevPage) eqn:Hp;
        [destruct (present (page w) nextPage) eqn:Hn|]; cbn [snd];
        rewrite renderProducts_run; unfold paginated; wsimpl; rewrite Hf;
        cbv zeta; rewrite Hi, Hg;
        rewrite updatePaginationControls_run; wsimpl; rewrite Hp, ?Hn;
        reflexivity.
    + cbn [snd]. rewrite renderProducts_run, Hf. cbv zeta. now rewrite Hi, Hg.
  - cbn [snd]. now rewrite renderProducts_run, Hf.
Qed.

(** ** What the page shows in reachable worlds *)

Lemma display_inv_ext (w w' : World) :
  display_footprint w' = display_footprint w -> display_inv w -> display_inv w'.
Proof.
  unfold display_footprint, display_inv. intros H.
  injection H as -> -> -> -> -> -> ->. trivial.
Qed.

Lemma renderProducts_display (w : World) :
  (forall tp, nextPage_onclick (page w) = Some tp ->
     paginator_present (present (page w))) ->
  (forall f, currentFandom (st w) = Some f ->
     inherited_key f (currentProductType (st w)) = false) ->
  display_inv (snd (renderProducts w)).
Proof.
  intros Hbound Hkey. rewrite renderProducts_run.
  destruct (currentFandom (st w)) as [f|] eqn:Hf; cbv zeta;
    [|intros tp f _ Hf'; cbn [snd] in Hf'; congruence].
  rewrite (Hkey f eq_refl).
  assert (Hcut : forall w', nextPage_onclick (page w') = nextPage_onclick (page w) ->
            ~ paginator_present (present (page w)) -> display_inv w').
  { intros w' Hn Hnp tp f' Htp _. rewrite Hn in Htp. now destruct (Hnp (Hbound tp Htp)). }
  destruct (present (page w) productGrid) eqn:Hg.
  - rewrite updatePaginationControls_run. wsimpl.
    destruct (present (page w) prevPage) eqn:Hp;
      [destruct (present (page w) nextPage) eqn:Hn|]; cbn [snd].
    + unfold paginated. intros tp f' Htp Hf'. wsimpl.
      rewrite Hf in Hf'. injection Hf' as <-. injection Htp as <-.
      repeat split.
    + apply Hcut; [reflexivity|]. intros (_ & _ & Hn'). congruence.
    + apply Hcut; [reflexivity|]. intros (_ & Hp' & _). congruence.
  - apply Hcut; [reflexivity|]. intros (Hg' & _). congruence.
Qed.

Lemma then_scroll_display (r : Completion unit * World) :
  display_footprint (snd (match r with
                          | (Normal _, w') => scrollToProductGrid w'
                          | (Throw e, w') => (Throw e, w')
                          end)) = display_footprint (snd r).
Proof.
  destruct r as [[[]|e] w']; cbn [snd]; [|reflexivity].
  unfold scrollToProductGrid. js_unfold.
  destruct (present (page w') productGrid); reflexivity.
Qed.

Lemma loadGalleryData_display (r : FetchResult) (w : World) :
  display_footprint (snd (loadGalleryData r w)) = display_footprint w.
Proof.
  assert (H : forall w0 c, galleryData (st w0) = Some c ->
            display_footprint (snd (initializeGallery w0)) = display_footprint w0).
  { intros w0 c Hc. rewrite (initializeGallery_run w0 c Hc).
    destruct (present (page w0) fandomFilters), (present (page w0) featuredGrid);
      reflexivity. }
  rewrite loadGalleryData_run.
  destruct r as [|[|] [|c]];
    first [ rewrite (H (on_state (set_galleryData (Some c)) w) c eq_refl); reflexivity
          | rewrite (H (after_failure w) getFallbackData eq_refl); unfold after_failure;
            destruct (present (page w) galeria); reflexivity ].
Qed.

Section Display.

Variable elements : ElemId -> bool.

Lemma bound_paginator_present (w : World) :
  paginator_inv elements w ->
  forall tp, nextPage_onclick (page w) = Some tp ->
    paginator_present (present (page w)).
Proof.
  intros (H1 & _ & _ & _ & H5) tp Htp. rewrite H1. apply (H5 tp Htp).
Qed.

Lemma showFandomDetail_display (fandomId : string) (w : World) :
  paginator_inv elements w -> display_inv w ->
  display_inv (snd (showFandomDetail fandomId w)).
Proof.
  intros Hinv Hd.
  destruct (galleryData (st w)) as [c|] eqn:Hc;
    [destruct (find_fandom c fandomId) as [fandom|] eqn:Hf|];
    try (rewrite showFandomDetail_skipped; [exact Hd | now rewrite Hc]).
  destruct (present (page w) featuredView && present (page w) fandomView
            && present (page w) selectedFandomName) eqn:Hel.
  - apply andb_true_iff in Hel as [Hel Hsn]. apply andb_true_iff in Hel as [Hfv Hdv].
    rewrite (showFandomDetail_entered fandomId c fandom w Hc Hf Hfv Hdv Hsn).
    assert (Hr : display_inv (snd (renderProducts (detail_entered c fandom w)))).
    { apply renderProducts_display.
      - destruct (detail_entered_page c fandom w) as (Ep & _ & En).
        rewrite Ep, En. now apply bound_paginator_present.
      - rewrite detail_entered_st. wsimpl.
        intros f Hf'. injection Hf' as <-. apply first_key_not_inherited. }
    destruct (renderProducts (detail_entered c fandom w)) as [[[]|e] w']; cbn [snd] in *;
      [destruct (present (page w') galeria)|]; exact Hr.
  - destruct (showFandomDetail_failed fandomId c fandom w Hc Hf Hel) as [_ ->].
    destruct Hinv as (H1 & _ & _ & _ & H5).
    intros tp f Htp _. exfalso.
    assert (Hn : nextPage_onclick (page (detail_failed fandom w)) =
                 nextPage_onclick (page w))
      by (unfold detail_failed;
          destruct (present (page w) featuredView), (present (page w) fandomView);
          reflexivity).
    rewrite Hn in Htp. destruct (H5 tp Htp) as ((Ha & Hb & Hc') & _).
    subst elements. now rewrite Ha, Hb, Hc' in Hel.
Qed.

Lemma step_display (w : World) (e : Event) :
  own_key_inv elements w ->
  paginator_inv elements w -> display_inv w -> display_inv (step w e).
Proof.
  intros Hown Hinv Hd. unfold step. destruct e as [r|i|i|i| |]; cbn [dispatch].
  - revert Hd. apply display_inv_ext, loadGalleryData_display.
  - destruct (nth_error (fandomFilters_html (page w)) i) as [btn|]; [|exact Hd].
    unfold handleFandomFilter. js_unfold.
    destruct (String.eqb (fb_fandom btn) "all").
    + rewrite showFeaturedView_run. wsimpl.
      destruct (present (page w) featuredView); [|exact Hd].
      destruct (present (page w) fandomView); [|exact Hd].
      intros tp f _ Hf. discriminate.
    + apply showFandomDetail_display; [|exact Hd].
      revert Hinv. apply paginator_inv_ext. reflexivity.
  - destruct (nth_error (featuredGrid_html (page w)) i) as [item|]; [|exact Hd].
    now apply showFandomDetail_display.
  - destruct (nth_error (productTypeFilters_html (page w)) i) as [btn|] eqn:Hbtn;
      [|exact Hd].
    rewrite productTypeBtn_handler_run. apply renderProducts_display.
    + wsimpl. exact (bound_paginator_present w Hinv).
    + wsimpl. intros f Hf. apply own_key_not_inherited. right.
      destruct Hown as (_ & _ & _ & Hkeys).
      apply (Hkeys f Hf). now apply nth_error_In in Hbtn.
  - destruct (prevPage_onclick (page w)); [|exact Hd].
    rewrite prevPage_handler_run.
    destruct (currentPage (st w) >? 1); [|exact Hd].
    eapply display_inv_ext; [apply then_scroll_display|].
    apply renderProducts_display.
    + wsimpl. exact (bound_paginator_present w Hinv).
    + wsimpl. intros f Hf. now apply (own_key_inv_not_inherited elements w).
  - destruct (nextPage_onclick (page w)) as [tp|] eqn:Hn; [|exact Hd].
    rewrite nextPage_handler_run.
    destruct (currentPage (st w) <? tp); [|exact Hd].
    eapply display_inv_ext; [apply then_scroll_display|].
    apply renderProducts_display.
    + wsimpl. intros tp' Htp'. apply (bound_paginator_present w Hinv tp). exact Hn.
    + wsimpl. intros f Hf. now apply (own_key_inv_not_inherited elements w).
Qed.

Lemma reachable_display (w : World) :
  reachable elements w -> display_inv w.
Proof.
  induction 1 as [|w e Hreach IH].
  - intros tp f Htp. discriminate.
  - apply step_display;
      [now apply reachable_own_keys | now apply reachable_inv | exact IH].
Qed.

End Display.



(** X4. No reachable blank page: in every reachable world with the
    paginator bound and a fandom selected whose current list is not empty,
    the grid holds between one and six tiles. *)
Theorem displayed_page_not_empty (elements : ElemId -> bool) (w : World)
    (totalPages : Z) (f : Fandom) :
  reachable elements w ->
  nextPage_onclick (page w) = Some totalPages ->
  currentFandom (st w) = Some f ->
  products_of f (currentProductType (st w)) <> [] ->
  (1 <= length (productGrid_html (page w)) <= 6)%nat.
Proof.
  intros Hreach Htp Hf Hne.
  destruct (reachable_display elements w Hreach totalPages f Htp Hf) as (Hg & _).
  destruct (reachable_inv elements w Hreach) as (_ & H2 & _ & _ & H5).
  destruct (H5 _ Htp) as (_ & _ & _ & Hle & Hlist).
  specialize (Hlist f Hf).
  pose proof (Math_ceil_div_spec
                (Z.of_nat (length (products_of f (currentProductType (st w)))))
                6 ltac:(lia)) as Hc.
  unfold total_pages in Hlist. change (itemsPerPage CONFIG) with 6 in Hlist.
  rewrite <- Hlist in Hc.
  assert (Hlen : Z.of_nat (length (productGrid_html (page w))) =
                 Z.max 0 (Z.min 6 (Z.of_nat (length (products_of f (currentProductType (st w))))
                                   - (currentPage (st w) - 1) * 6)))
    by (rewrite Hg; now apply page_of_length).
  assert (0 < Z.of_nat (length (products_of f (currentProductType (st w)))))
    by (destruct (products_of f (currentProductType (st w))); [now destruct Hne | cbn; lia]).
  lia.
Qed.

Lemma displayed_page_not_empty_witness :
  (1 <= length (productGrid_html (page isaac_page2)) <= 6)%nat.
Proof.
  apply (displayed_page_not_empty all_elements isaac_page2 3
           (mkFandom "isaac" "The Binding of Isaac" true "img/isaac.jpg"
              [ ("llaveros", numbered_products 13) ])
           isaac_page2_reachable eq_refl eq_refl).
  vm_compute. discriminate.
Defined.

(** ** Turning pages back and forth *)

Lemma st_page_restore (s : State) (p : Z) :
  set_currentPage (currentPage s) (set_currentPage p s) = s.
Proof. now destruct s. Qed.

Lemma turn_keeps_bound (elements : ElemId -> bool) (w : World) (totalPages : Z)
    (f : Fandom) (e : Event) :
  paginator_inv elements w ->
  own_key_inv elements w ->
  nextPage_onclick (page w) = Some totalPages ->
  currentFandom (st w) = Some f ->
  e = Click_prevPage \/ e = Click_nextPage ->
  nextPage_onclick (page (step w e)) = Some totalPages /\
  prevPage_onclick (page (step w e)) = true.
Proof.
  intros Hinv Hown Htp Hf He.
  pose proof (own_key_inv_not_inherited elements w f Hown Hf) as Hi.
  pose proof Hinv as (H1 & _ & H3 & _ & H5).
  destruct (H5 _ Htp) as (_ & (Hg & Hp & Hn) & _ & _ & Hlist).
  specialize (Hlist f Hf).
  assert (Hprev : prevPage_onclick (page w) = true)
    by (apply H3; rewrite Htp; discriminate).
  assert (Hturn : forall p',
            nextPage_onclick
              (page (snd (match renderProducts (on_state (set_currentPage p') w) with
                          | (Normal _, w') => scrollToProductGrid w'
                          | (Throw e0, w') => (Throw e0, w')
                          end))) = Some totalPages /\
            prevPage_onclick
              (page (snd (match renderProducts (on_state (set_currentPage p') w) with
                          | (Normal _, w') => scrollToProductGrid w'
                          | (Throw e0, w') => (Throw e0, w')
                          end))) = true).
  { intros p'.
    rewrite (renderProducts_bound (on_state (set_currentPage p') w) f);
      try (wsimpl; rewrite ?H1; assumption).
    unfold scrollToProductGrid, paginated. js_unfold. wsimpl.
    rewrite H1, Hg. wsimpl. now rewrite Hlist. }
  unfold step. destruct He as [-> | ->]; cbn [dispatch].
  - rewrite Hprev, prevPage_handler_run.
    destruct (currentPage (st w) >? 1); [apply Hturn | now split].
  - rewrite Htp, nextPage_handler_run.
    destruct (currentPage (st w) <? totalPages); [apply Hturn | now split].
Qed.

(** X5. "Next" then "previous" is a round trip: in a reachable world with
    the paginator bound, a fandom selected and a page after the current
    one, the two clicks bring back the view state, the grid and the state
    of both buttons. *)
Theorem next_prev_round_trip (elements : ElemId -> bool) (w : World)
    (totalPages : Z) (f : Fandom) :
  reachable elements w ->
  nextPage_onclick (page w) = Some totalPages ->
  currentFandom (st w) = Some f ->
  currentPage (st w) < totalPages ->
  let w1 := step w Click_nextPage in
  let w2 := step w1 Click_prevPage in
  currentPage (st w1) = currentPage (st w) + 1 /\
  st w2 = st w /\
  productGrid_html (page w2) = productGrid_html (page w) /\
  prevPage_disabled (page w2) = prevPage_disabled (page w) /\
  nextPage_disabled (page w2) = nextPage_disabled (page w).
Proof.
  intros Hreach Htp Hf Hlt. cbv zeta.
  pose proof (reachable_inv elements w Hreach) as Hinv.
  pose proof Hinv as (_ & H2 & _).
  destruct (turn_keeps_bound elements w totalPages f Click_nextPage Hinv
              (reachable_own_keys elements w Hreach) Htp Hf)
    as [Htp1 Hprev1]; [now right|].
  assert (Hst1 : st (step w Click_nextPage) =
                 set_currentPage (currentPage (st w) + 1) (st w)).
  { unfold step. cbn [dispatch]. rewrite Htp, nextPage_handler_st.
    apply Z.ltb_lt in Hlt. now rewrite Hlt. }
  assert (Hreach1 : reachable elements (step w Click_nextPage))
    by now apply reachable_step.
  assert (Hf1 : currentFandom (st (step w Click_nextPage)) = Some f)
    by now rewrite Hst1.
  destruct (turn_keeps_bound elements _ totalPages f Click_prevPage
              (reachable_inv elements _ Hreach1)
              (reachable_own_keys elements _ Hreach1) Htp1 Hf1) as [Htp2 _]; [now left|].
  assert (Hst2 : st (step (step w Click_nextPage) Click_prevPage) = st w).
  { unfold step at 1. cbn [dispatch]. rewrite Hprev1, prevPage_handler_st, Hst1.
    wsimpl. destruct (Z.gtb_spec (currentPage (st w) + 1) 1); [|lia].
    replace (currentPage (st w) + 1 - 1) with (currentPage (st w)) by lia.
    apply st_page_restore. }
  assert (Hreach2 : reachable elements (step (step w Click_nextPage) Click_prevPage))
    by now apply reachable_step.
  assert (Hf2 : currentFandom (st (step (step w Click_nextPage) Click_prevPage)) = Some f)
    by now rewrite Hst2.
  destruct (reachable_display elements w Hreach totalPages f Htp Hf) as (Hg & Hp & Hn).
  destruct (reachable_display elements _ Hreach2 totalPages f Htp2 Hf2)
    as (Hg2 & Hp2 & Hn2).
  rewrite Hst2 in Hg2, Hp2, Hn2.
  split; [now rewrite Hst1|]. split; [exact Hst2|].
  now rewrite Hg, Hp, Hn, Hg2, Hp2, Hn2.
Qed.

Lemma next_prev_round_trip_witness :
  let w1 := step isaac_page2 Click_nextPage in
  let w2 := step w1 Click_prevPage in
  currentPage (st w1) = currentPage (st isaac_page2) + 1 /\
  st w2 = st isaac_page2 /\
  productGrid_html (page w2) = productGrid_html (page isaac_page2) /\
  prevPage_disabled (page w2) = prevPage_disabled (page isaac_page2) /\
  nextPage_disabled (page w2) = nextPage_disabled (page isaac_page2).
Proof.
  apply (next_prev_round_trip all_elements isaac_page2 3
           (mkFandom "isaac" "The Binding of Isaac" true "img/isaac.jpg"
              [ ("llaveros", numbered_products 13) ])
           isaac_page2_reachable eq_refl eq_refl).
  vm_compute. reflexivity.
Defined.

(** ** Selecting a fandom *)

(** X9. On a page that has the view containers, the grid and the two
    pagination buttons, selecting a catalog fandom shows the first page of
    its first product type: the fandom is selected, the product type is the
    first key of its products (or "llaveros"), the page is 1, the heading
    carries the fandom's name, the grid holds the first six products of
    that list (all of them when there are fewer), "previous" is disabled,
    and "next" is disabled exactly when the list has at most six products.
    The call completes normally exactly when [#galeria] exists. *)
Theorem showFandomDetail_first_page (w : World) (c : Catalog) (fandomId : string)
    (f : Fandom) :
  galleryData (st w) = Some c ->
  find_fandom c fandomId = Some f ->
  detail_elements (present (page w)) ->
  let w' := snd (showFandomDetail fandomId w) in
  let products := products_of f (first_key_or_llaveros f) in
  currentFandom (st w') = Some f /\
  currentProductType (st w') = first_key_or_llaveros f /\
  currentPage (st w') = 1 /\
  selectedFandomName_text (page w') = Some (fandom_name f) /\
  productGrid_html (page w') = firstn 6 products /\
  prevPage_disabled (page w') = true /\
  (nextPage_disabled (page w') = true <-> (length products <= 6)%nat) /\
  completed (showFandomDetail fandomId w) = present (page w) galeria.
Proof.
  intros Hc Hf ((Hfv & Hdv & Hsn) & (Hg & Hp & Hn)). cbv zeta.
  rewrite (showFandomDetail_entered fandomId c f w Hc Hf Hfv Hdv Hsn).
  destruct (detail_entered_page c f w) as (Ep & _ & _).
  rewrite (renderProducts_bound (detail_entered c f w) f);
    try (rewrite ?Ep; assumption);
    [|rewrite detail_entered_st; reflexivity
     |rewrite detail_entered_st; apply first_key_not_inherited].
  rewrite detail_entered_st. unfold paginated, completed. wsimpl. rewrite Ep.
  assert (Hsel : selectedFandomName_text (page (detail_entered c f w)) = Some (fandom_name f))
    by (unfold detail_entered; destruct (present (page w) productTypeFilters); reflexivity).
  assert (Hceil : 6 * (total_pages f (first_key_or_llaveros f) - 1)
                  < Z.of_nat (length (products_of f (first_key_or_llaveros f)))
                  <= 6 * total_pages f (first_key_or_llaveros f))
    by (apply Math_ceil_div_spec; reflexivity).
  assert (Hnext : ((1 =? total_pages f (first_key_or_llaveros f))
                   || (total_pages f (first_key_or_llaveros f) =? 0) = true
                   <-> (length (products_of f (first_key_or_llaveros f)) <= 6)%nat)).
  { rewrite orb_true_iff, !Z.eqb_eq. lia. }
  destruct (present (page w) galeria); wsimpl; rewrite ?detail_entered_st; wsimpl;
    (split; [reflexivity|]; split; [reflexivity|]; split; [reflexivity|];
     split; [exact Hsel|]; split; [now rewrite page_of_window by lia|];
     split; [reflexivity|]; split; [exact Hnext | reflexivity]).
Qed.

Lemma showFandomDetail_first_page_witness :
  let w := step (initial all_elements) (DOMContentLoaded (ok_response catalog13)) in
  let w' := snd (showFandomDetail "hades" w) in
  option_map fandom_id (currentFandom (st w')) = Some "hades" /\
  currentProductType (st w') = "llaveros" /\
  currentPage (st w') = 1 /\
  selectedFandomName_text (page w') = Some "Hades" /\
  productGrid_html (page w') = numbered_products 2 /\
  prevPage_disabled (page w') = true /\
  nextPage_disabled (page w') = true.
Proof.
  cbv zeta.
  destruct (showFandomDetail_first_page
              (step (initial all_elements) (DOMContentLoaded (ok_response catalog13)))
              catalog13 "hades"
              (mkFandom "hades" "Hades" true "" [ ("llaveros", numbered_products 2) ])
              eq_refl eq_refl
              (conj (conj eq_refl (conj eq_refl eq_refl))
                    (conj eq_refl (conj eq_refl eq_refl))))
    as (H1 & H2 & H3 & H4 & H5 & H6 & H7 & _).
  rewrite H1. split; [reflexivity|].
  split; [exact H2|]. split; [exact H3|]. split; [exact H4|].
  split; [exact H5|]. split; [exact H6|].
  apply H7. vm_compute. lia.
Defined.

(** X11. Selecting a fandom that the catalog does not have does nothing:
    when no fandom of the loaded catalog carries the id, [showFandomDetail]
    returns normally and leaves the world as it was.  Before any catalog is
    loaded it throws, also without changing the world. *)
Theorem showFandomDetail_unknown (w : World) (fandomId : string) :
  (forall c, galleryData (st w) = Some c ->
     (forall f, In f (fandoms c) -> fandom_id f <> fandomId) ->
     showFandomDetail fandomId w = (Normal tt, w)) /\
  (galleryData (st w) = None ->
   showFandomDetail fandomId w = (Throw (TypeError "state.galleryData.fandoms"), w)).
Proof.
  split.
  - intros c Hc Hno. unfold showFandomDetail. js_unfold. rewrite Hc.
    destruct (find_fandom c fandomId) as [f|] eqn:Hf; [|reflexivity].
    apply find_some in Hf as [Hin Heq]. apply String.eqb_eq in Heq.
    now destruct (Hno f Hin).
  - intros Hc. unfold showFandomDetail. js_unfold. now rewrite Hc.
Qed.

Lemma showFandomDetail_unknown_witness :
  showFandomDetail "zelda" fallback_loaded = (Normal tt, fallback_loaded) /\
  showFandomDetail "isaac" (initial all_elements) =
    (Throw (TypeError "state.galleryData.fandoms"), initial all_elements).
Proof.
  split.
  - apply (proj1 (showFandomDetail_unknown fallback_loaded "zelda") getFallbackData eq_refl).
    intros f [<-|[]]. discriminate.
  - exact (proj2 (showFandomDetail_unknown (initial all_elements) "isaac") eq_refl).
Defined.

(** ** The active marks of the two filters *)

Lemma indices_from_none {A} (act : A -> bool) (l : list A) (s : nat) :
  forallb (fun x => negb (act x)) l = true -> indices_from act l s = [].
Proof.
  revert s. induction l as [|x l IH]; intros s H; [reflexivity|].
  cbn [forallb] in H. apply andb_true_iff in H as [Hx Hl].
  cbn [indices_from]. destruct (act x); [discriminate|]. now apply IH.
Qed.

Lemma indices_from_marked {A B} (act : B -> bool) (mk : nat * A -> B) (l : list A)
    (s i : nat) :
  (forall nb, act (mk nb) = Nat.eqb (fst nb) i) ->
  indices_from act (map mk (combine (seq s (length l)) l)) s
  = if (s <=? i)%nat && (i <? s + length l)%nat then [i] else [].
Proof.
  intros Hmk. revert s. induction l as [|x l IH]; intros s.
  - cbn [length seq combine map indices_from]. rewrite Nat.add_0_r.
    destruct (Nat.leb_spec s i), (Nat.ltb_spec i s); try reflexivity; lia.
  - cbn [length seq combine map indices_from]. rewrite Hmk, IH. cbn [fst].
    destruct (Nat.eqb_spec s i) as [->|Hne].
    + destruct (Nat.leb_spec (S i) i); [lia|]. cbn [andb].
      destruct (Nat.leb_spec i i), (Nat.ltb_spec i (i + S (length l)));
        try reflexivity; lia.
    + destruct (Nat.leb_spec (S s) i), (Nat.ltb_spec i (S s + length l)),
               (Nat.leb_spec s i), (Nat.ltb_spec i (s + S (length l)));
        try reflexivity; lia.
Qed.

Lemma activate_filter_active (i : nat) (l : list FilterBtn) :
  (i < length l)%nat -> indices_from fb_active (activate_filter i l) 0 = [i].
Proof.
  intros Hi. unfold activate_filter.
  rewrite (indices_from_marked fb_active _ l 0 i) by reflexivity.
  destruct (Nat.leb_spec 0 i), (Nat.ltb_spec i (0 + length l)); try reflexivity; lia.
Qed.

Lemma activate_type_active (i : nat) (l : list TypeBtn) :
  (i < length l)%nat -> indices_from tb_active (activate_type i l) 0 = [i].
Proof.
  intros Hi. unfold activate_type.
  rewrite (indices_from_marked tb_active _ l 0 i) by reflexivity.
  destruct (Nat.leb_spec 0 i), (Nat.ltb_spec i (0 + length l)); try reflexivity; lia.
Qed.

Lemma activate_filter_length (i : nat) (l : list FilterBtn) :
  length (activate_filter i l) = length l.
Proof.
  unfold activate_filter. now rewrite length_map, length_combine, length_seq, Nat.min_id.
Qed.

Lemma activate_type_length (i : nat) (l : list TypeBtn) :
  length (activate_type i l) = length l.
Proof.
  unfold activate_type. now rewrite length_map, length_combine, length_seq, Nat.min_id.
Qed.

Lemma rendered_filters_active (c : Catalog) :
  indices_from fb_active (all_button :: map fandom_button (fandoms c)) 0 = [0%nat].
Proof.
  cbn [indices_from all_button fb_active]. f_equal.
  apply indices_from_none. now induction (fandoms c).
Qed.

Lemma typeButtons_from_active (c : Catalog) (fandom : Fandom) (keys : list string) :
  indices_from tb_active (typeButtons_from c fandom keys 0) 0 = [] \/
  indices_from tb_active (typeButtons_from c fandom keys 0) 0 = [0%nat].
Proof.
  destruct keys as [|k keys]; [now left|]. cbn [typeButtons_from].
  destruct (find_productType c k).
  - right. cbn [indices_from tb_active Nat.eqb]. f_equal.
    apply indices_from_none, typeButtons_from_inactive.
  - left. apply indices_from_none, typeButtons_from_inactive.
Qed.

Lemma showFeaturedView_filters_html (w : World) :
  fandomFilters_html (page (snd (showFeaturedView w))) = fandomFilters_html (page w).
Proof.
  pose proof (showFeaturedView_filters w) as H. unfold filters_footprint in H.
  now injection H.
Qed.

Lemma showFandomDetail_filters_html (fandomId : string) (w : World) :
  fandomFilters_html (page (snd (showFandomDetail fandomId w))) =
  fandomFilters_html (page w).
Proof.
  pose proof (showFandomDetail_filters fandomId w) as H. unfold filters_footprint in H.
  now injection H.
Qed.

(** How one event changes the buttons of the fandom filter. *)
Lemma step_filter_buttons (w : World) (e : Event) :
  let h := fandomFilters_html (page w) in
  let h' := fandomFilters_html (page (step w e)) in
  h' = h \/
  (exists c, h' = all_button :: map fandom_button (fandoms c)) \/
  (exists i, (i < length h)%nat /\ h' = activate_filter i h).
Proof.
  cbv zeta.
  assert (Hkeep : forall w', filters_footprint w' = filters_footprint w ->
            fandomFilters_html (page w') = fandomFilters_html (page w))
    by (unfold filters_footprint; intros w' H; now injection H).
  unfold step. destruct e as [r|i|i|i| |]; cbn [dispatch].
  - rewrite loadGalleryData_run.
    assert (H : forall w0 c, galleryData (st w0) = Some c ->
              fandomFilters_html (page w0) = fandomFilters_html (page w) ->
              fandomFilters_html (page (snd (initializeGallery w0))) =
                fandomFilters_html (page w) \/
              (exists c0, fandomFilters_html (page (snd (initializeGallery w0))) =
                            all_button :: map fandom_button (fandoms c0)) \/
              (exists i0, (i0 < length (fandomFilters_html (page w)))%nat /\
                          fandomFilters_html (page (snd (initializeGallery w0))) =
                            activate_filter i0 (fandomFilters_html (page w)))).
    { intros w0 c Hc Hh. rewrite (initializeGallery_run w0 c Hc).
      destruct (present (page w0) fandomFilters), (present (page w0) featuredGrid);
        wsimpl; (now left) || (right; left; now exists c). }
    destruct r as [|[|] [|c]];
      first [ apply (H _ c); reflexivity
            | apply (H (after_failure w) getFallbackData); [reflexivity|];
              unfold after_failure; destruct (present (page w) galeria); reflexivity ].
  - destruct (nth_error (fandomFilters_html (page w)) i) as [btn|] eqn:Hbtn;
      [|now left].
    right; right. exists i. split; [apply nth_error_Some; congruence|].
    unfold handleFandomFilter. js_unfold.
    destruct (String.eqb (fb_fandom btn) "all");
      [rewrite showFeaturedView_filters_html | rewrite showFandomDetail_filters_html];
      reflexivity.
  - destruct (nth_error (featuredGrid_html (page w)) i) as [item|]; [|now left].
    left. apply Hkeep, showFandomDetail_filters.
  - destruct (nth_error (productTypeFilters_html (page w)) i) as [btn|]; [|now left].
    left. apply Hkeep. rewrite productTypeBtn_handler_run. now rewrite renderProducts_filters.
  - destruct (prevPage_onclick (page w)); [|now left].
    left. apply Hkeep. rewrite prevPage_handler_run.
    destruct (currentPage (st w) >? 1); [|reflexivity].
    now rewrite then_scroll_filters, renderProducts_filters.
  - destruct (nextPage_onclick (page w)) as [tp|]; [|now left].
    left. apply Hkeep. rewrite nextPage_handler_run.
    destruct (currentPage (st w) <? tp); [|reflexivity].
    now rewrite then_scroll_filters, renderProducts_filters.
Qed.

(** X6. The fandom filter has exactly one active control.  In every
    reachable world the filter is empty (nothing loaded, or no container)
    or exactly one of its controls is marked active; after a click on a
    control it is the clicked one, and after a load it is the "all"
    control, whichever fandom is selected. *)
Theorem one_active_filter (elements : ElemId -> bool) (w : World) :
  reachable elements w ->
  (fandomFilters_html (page w) = [] \/
   exists i, (i < length (fandomFilters_html (page w)))%nat /\ active_filters w = [i]) /\
  (forall i, (i < length (fandomFilters_html (page w)))%nat ->
     active_filters (step w (Click_filterBtn i)) = [i]) /\
  (forall r, elements fandomFilters = true ->
     active_filters (step w (DOMContentLoaded r)) = [0%nat]).
Proof.
  intros Hreach. split; [|split].
  - induction Hreach as [|w e Hreach IH]; [now left|].
    unfold active_filters in *.
    destruct (step_filter_buttons w e) as [-> | [(c & ->) | (i & Hi & ->)]].
    + exact IH.
    + right. exists 0%nat. split; [cbn; lia | apply rendered_filters_active].
    + right. exists i. rewrite activate_filter_length.
      split; [exact Hi | now apply activate_filter_active].
  - intros i Hi. unfold active_filters, step. cbn [dispatch].
    destruct (nth_error (fandomFilters_html (page w)) i) as [btn|] eqn:Hbtn;
      [|apply nth_error_None in Hbtn; lia].
    unfold handleFandomFilter. js_unfold.
    destruct (String.eqb (fb_fandom btn) "all");
      [rewrite showFeaturedView_filters_html | rewrite showFandomDetail_filters_html];
      wsimpl; now apply activate_filter_active.
  - intros r Hff. unfold active_filters, step. cbn [dispatch].
    destruct (reachable_inv elements w Hreach) as (Hel & _).
    rewrite loadGalleryData_run.
    assert (H : forall w0 c, galleryData (st w0) = Some c ->
              present (page w0) fandomFilters = true ->
              indices_from fb_active
                (fandomFilters_html (page (snd (initializeGallery w0)))) 0 = [0%nat]).
    { intros w0 c Hc Hp. rewrite (initializeGallery_run w0 c Hc), Hp.
      destruct (present (page w0) featuredGrid); wsimpl;
        apply rendered_filters_active. }
    destruct r as [|[|] [|c]];
      first [ apply (H _ c); [reflexivity | wsimpl; now rewrite Hel]
            | apply (H (after_failure w) getFallbackData); [reflexivity|];
              unfold after_failure; destruct (present (page w) galeria);
              wsimpl; now rewrite Hel ].
Qed.

Lemma one_active_filter_witness :
  (fandomFilters_html (page isaac_page2) = [] \/
   exists i, (i < length (fandomFilters_html (page isaac_page2)))%nat /\
             active_filters isaac_page2 = [i]) /\
  active_filters (step isaac_page2 (Click_filterBtn 2)) = [2%nat] /\
  active_filters (step isaac_page2 (DOMContentLoaded Rejected)) = [0%nat].
Proof.
  destruct (one_active_filter all_elements isaac_page2 isaac_page2_reachable)
    as (H1 & H2 & H3).
  split; [exact H1|]. split.
  - apply H2. vm_compute. lia.
  - now apply H3.
Defined.

(** How one event changes the product-type buttons. *)
Lemma showFandomDetail_type_buttons (fandomId : string) (w : World) :
  productTypeFilters_html (page (snd (showFandomDetail fandomId w))) =
    productTypeFilters_html (page w) \/
  exists c f,
    present (page w) productTypeFilters = true /\
    currentFandom (st (snd (showFandomDetail fandomId w))) = Some f /\
    productTypeFilters_html (page (snd (showFandomDetail fandomId w))) =
      typeButtons_from c f (Object_keys (fandom_products f)) 0.
Proof.
  destruct (galleryData (st w)) as [c|] eqn:Hc;
    [destruct (find_fandom c fandomId) as [fandom|] eqn:Hf|];
    try (left; rewrite showFandomDetail_skipped; [reflexivity | now rewrite Hc]).
  destruct (present (page w) featuredView && present (page w) fandomView
            && present (page w) selectedFandomName) eqn:Hel.
  - apply andb_true_iff in Hel as [Hel Hsn]. apply andb_true_iff in Hel as [Hfv Hdv].
    assert (Hk : key_footprint (snd (showFandomDetail fandomId w)) =
                 key_footprint (detail_entered c fandom w)).
    { rewrite (showFandomDetail_entered fandomId c fandom w Hc Hf Hfv Hdv Hsn).
      pose proof (renderProducts_keys (detail_entered c fandom w)) as Hr.
      destruct (renderProducts (detail_entered c fandom w)) as [[[]|e] w']; cbn [snd] in *;
        [destruct (present (page w') galeria)|]; exact Hr. }
    pose proof (f_equal snd Hk) as Hh.
    pose proof (f_equal (fun t => snd (fst (fst t))) Hk) as Hcf.
    cbn [key_footprint fst snd] in Hh, Hcf.
    rewrite Hh, Hcf, detail_entered_st. unfold detail_entered.
    destruct (present (page w) productTypeFilters); wsimpl; [|now left].
    right. now exists c, fandom.
  - left. destruct (showFandomDetail_failed fandomId c fandom w Hc Hf Hel) as [_ ->].
    unfold detail_failed.
    destruct (present (page w) featuredView), (present (page w) fandomView); reflexivity.
Qed.

Lemma step_type_buttons (w : World) (e : Event) :
  let h := productTypeFilters_html (page w) in
  let h' := productTypeFilters_html (page (step w e)) in
  h' = h \/
  (exists c f, h' = typeButtons_from c f (Object_keys (fandom_products f)) 0) \/
  (exists i, (i < length h)%nat /\ h' = activate_type i h).
Proof.
  cbv zeta.
  assert (Hkeep : forall w', key_footprint w' = key_footprint w ->
            productTypeFilters_html (page w') = productTypeFilters_html (page w))
    by (unfold key_footprint; intros w' H; now injection H).
  assert (Hdetail : forall fandomId w0,
            productTypeFilters_html (page w0) = productTypeFilters_html (page w) ->
            productTypeFilters_html (page (snd (showFandomDetail fandomId w0))) =
              productTypeFilters_html (page w) \/
            (exists c f, productTypeFilters_html (page (snd (showFandomDetail fandomId w0))) =
                           typeButtons_from c f (Object_keys (fandom_products f)) 0) \/
            (exists i, (i < length (productTypeFilters_html (page w)))%nat /\
                       productTypeFilters_html (page (snd (showFandomDetail fandomId w0))) =
                         activate_type i (productTypeFilters_html (page w)))).
  { intros fandomId w0 Hw0.
    destruct (showFandomDetail_type_buttons fandomId w0) as [-> | (c & f & _ & _ & ->)];
      [now left | right; left; now exists c, f]. }
  unfold step. destruct e as [r|i|i|i| |]; cbn [dispatch].
  - left. destruct (loadGalleryData_footprint r w) as (H & _).
    unfold footprint in H. now injection H.
  - destruct (nth_error (fandomFilters_html (page w)) i) as [btn|]; [|now left].
    unfold handleFandomFilter. js_unfold.
    destruct (String.eqb (fb_fandom btn) "all"); [|now apply Hdetail].
    left. rewrite showFeaturedView_run. wsimpl.
    destruct (present (page w) featuredView), (present (page w) fandomView); reflexivity.
  - destruct (nth_error (featuredGrid_html (page w)) i) as [item|]; [|now left].
    now apply Hdetail.
  - destruct (nth_error (productTypeFilters_html (page w)) i) as [btn|] eqn:Hbtn;
      [|now left].
    right; right. exists i. split; [apply nth_error_Some; congruence|].
    rewrite productTypeBtn_handler_run.
    pose proof (renderProducts_keys
                  (on_state (set_currentPage 1)
                     (on_state (set_currentProductType (tb_type btn))
                        (on_page (fun p => set_productTypeFilters_html
                                             (activate_type i (productTypeFilters_html p)) p)
                           w)))) as H.
    unfold key_footprint in H. now injection H.
  - destruct (prevPage_onclick (page w)); [|now left].
    left. apply Hkeep. rewrite prevPage_handler_run.
    destruct (currentPage (st w) >? 1); [|reflexivity].
    now rewrite then_scroll_keys, renderProducts_keys.
  - destruct (nextPage_onclick (page w)) as [tp|]; [|now left].
    left. apply Hkeep. rewrite nextPage_handler_run.
    destruct (currentPage (st w) <? tp); [|reflexivity].
    now rewrite then_scroll_keys, renderProducts_keys.
Qed.

(** X7. At most one product-type control is active.  In every reachable
    world no control or exactly one control of the product-type filter is
    marked active, and after a click on a control it is the clicked one. *)
Theorem at_most_one_active_type (elements : ElemId -> bool) (w : World) :
  reachable elements w ->
  (active_types w = [] \/
   exists i, (i < length (productTypeFilters_html (page w)))%nat /\ active_types w = [i]) /\
  (forall i, (i < length (productTypeFilters_html (page w)))%nat ->
     active_types (step w (Click_productTypeBtn i)) = [i] /\
     length (productTypeFilters_html (page (step w (Click_productTypeBtn i)))) =
       length (productTypeFilters_html (page w))).
Proof.
  intros Hreach. split.
  - induction Hreach as [|w e Hreach IH]; [now left|].
    unfold active_types in *.
    destruct (step_type_buttons w e) as [-> | [(c & f & ->) | (i & Hi & ->)]].
    + exact IH.
    + destruct (typeButtons_from_active c f (Object_keys (fandom_products f)))
        as [H|H]; [now left|].
      right. exists 0%nat. split; [|exact H].
      destruct (typeButtons_from c f (Object_keys (fandom_products f)) 0);
        [discriminate | cbn; lia].
    + right. exists i. rewrite activate_type_length.
      split; [exact Hi | now apply activate_type_active].
  - intros i Hi. unfold active_types, step. cbn [dispatch].
    destruct (nth_error (productTypeFilters_html (page w)) i) as [btn|] eqn:Hbtn;
      [|apply nth_error_None in Hbtn; lia].
    rewrite productTypeBtn_handler_run.
    pose proof (renderProducts_keys
                  (on_state (set_currentPage 1)
                     (on_state (set_currentProductType (tb_type btn))
                        (on_page (fun p => set_productTypeFilters_html
                                             (activate_type i (productTypeFilters_html p)) p)
                           w)))) as H.
    unfold key_footprint in H. injection H as _ _ _ ->. wsimpl.
    split; [now apply activate_type_active | apply activate_type_length].
Qed.

Lemma at_most_one_active_type_witness :
  (active_types isaac_page2 = [] \/
   exists i, (i < length (productTypeFilters_html (page isaac_page2)))%nat /\
             active_types isaac_page2 = [i]) /\
  active_types (step isaac_page2 (Click_productTypeBtn 0)) = [0%nat].
Proof.
  destruct (at_most_one_active_type all_elements isaac_page2 isaac_page2_reachable)
    as (H1 & H2).
  split; [exact H1|]. apply H2. vm_compute. lia.
Defined.

(** ** The counts on the product-type buttons *)




Section Counts.

Variable elements : ElemId -> bool.





End Counts.



(** ** What only the loader writes *)

Lemma renderProducts_loader (w : World) :
  loader_footprint (snd (renderProducts w)) = loader_footprint w.
Proof.
  rewrite renderProducts_run.
  destruct (currentFandom (st w)); [|reflexivity]. cbv zeta.
  destruct (inherited_key _ _); [reflexivity|].
  destruct (present (page w) productGrid); [|reflexivity].
  rewrite updatePaginationControls_run. wsimpl.
  destruct (present (page w) prevPage), (present (page w) nextPage); reflexivity.
Qed.

Lemma then_scroll_loader (r : Completion unit * World) :
  loader_footprint (snd (match r with
                         | (Normal _, w') => scrollToProductGrid w'
                         | (Throw e, w') => (Throw e, w')
                         end)) = loader_footprint (snd r).
Proof.
  destruct r as [[[]|e] w']; cbn [snd]; [|reflexivity].
  unfold scrollToProductGrid. js_unfold.
  destruct (present (page w') productGrid); reflexivity.
Qed.

Lemma showFeaturedView_loader (w : World) :
  loader_footprint (snd (showFeaturedView w)) = loader_footprint w.
Proof.
  rewrite showFeaturedView_run.
  destruct (present (page w) featuredView), (present (page w) fandomView); reflexivity.
Qed.

Lemma showFandomDetail_loader (fandomId : string) (w : World) :
  loader_footprint (snd (showFandomDetail fandomId w)) = loader_footprint w.
Proof.
  destruct (galleryData (st w)) as [c|] eqn:Hc;
    [destruct (find_fandom c fandomId) as [fandom|] eqn:Hf|];
    try (rewrite showFandomDetail_skipped; [reflexivity | now rewrite Hc]).
  destruct (present (page w) featuredView && present (page w) fandomView
            && present (page w) selectedFandomName) eqn:Hel.
  - apply andb_true_iff in Hel as [Hel Hsn]. apply andb_true_iff in Hel as [Hfv Hdv].
    rewrite (showFandomDetail_entered fandomId c fandom w Hc Hf Hfv Hdv Hsn).
    pose proof (renderProducts_loader (detail_entered c fandom w)) as Hr.
    assert (He : loader_footprint (detail_entered c fandom w) = loader_footprint w)
      by (unfold detail_entered; destruct (present (page w) productTypeFilters); reflexivity).
    rewrite He in Hr.
    destruct (renderProducts (detail_entered c fandom w)) as [[[]|e] w']; cbn [snd] in *;
      [destruct (present (page w') galeria)|]; exact Hr.
  - destruct (showFandomDetail_failed fandomId c fandom w Hc Hf Hel) as [_ ->].
    unfold detail_failed.
    destruct (present (page w) featuredView), (present (page w) fandomView); reflexivity.
Qed.

Lemma click_loader_footprint (w : World) (e : Event) :
  is_click e = true -> loader_footprint (step w e) = loader_footprint w.
Proof.
  intros He.
  unfold step. destruct e as [r|i|i|i| |]; cbn [dispatch]; [discriminate|..].
  - destruct (nth_error (fandomFilters_html (page w)) i) as [btn|]; [|reflexivity].
    unfold handleFandomFilter. js_unfold.
    destruct (String.eqb (fb_fandom btn) "all");
      [rewrite showFeaturedView_loader | rewrite showFandomDetail_loader]; reflexivity.
  - destruct (nth_error (featuredGrid_html (page w)) i) as [item|]; [|reflexivity].
    apply showFandomDetail_loader.
  - destruct (nth_error (productTypeFilters_html (page w)) i) as [btn|]; [|reflexivity].
    rewrite productTypeBtn_handler_run. now rewrite renderProducts_loader.
  - destruct (prevPage_onclick (page w)); [|reflexivity].
    rewrite prevPage_handler_run.
    destruct (currentPage (st w) >? 1); [|reflexivity].
    now rewrite then_scroll_loader, renderProducts_loader.
  - destruct (nextPage_onclick (page w)) as [tp|]; [|reflexivity].
    rewrite nextPage_handler_run.
    destruct (currentPage (st w) <? tp); [|reflexivity].
    now rewrite then_scroll_loader, renderProducts_loader.
Qed.

(** X12. Only the loader writes the catalog.  No click, on whichever
    control and in whichever world, changes the loaded catalog, the
    featured grid, the error banner or the error log. *)
Theorem clicks_keep_catalog (w : World) (e : Event) :
  is_click e = true ->
  galleryData (st (step w e)) = galleryData (st w) /\
  featuredGrid_html (page (step w e)) = featuredGrid_html (page w) /\
  galeria_errors (page (step w e)) = galeria_errors (page w) /\
  console_errors (page (step w e)) = console_errors (page w).
Proof.
  intros He. pose proof (click_loader_footprint w e He) as H.
  unfold loader_footprint in H. injection H as _ -> -> -> ->. repeat split.
Qed.

Lemma clicks_keep_catalog_witness :
  galleryData (st (step isaac_page2 (Click_filterBtn 2))) = galleryData (st isaac_page2) /\
  featuredGrid_html (page (step isaac_page2 (Click_filterBtn 2))) =
    featuredGrid_html (page isaac_page2) /\
  galeria_errors (page (step isaac_page2 (Click_filterBtn 2))) =
    galeria_errors (page isaac_page2) /\
  console_errors (page (step isaac_page2 (Click_filterBtn 2))) =
    console_errors (page isaac_page2).
Proof.
  exact (clicks_keep_catalog isaac_page2 (Click_filterBtn 2) eq_refl).
Defined.

Lemma step_featured_inv (w : World) (e : Event) :
  featured_inv w -> featured_inv (step w e).
Proof.
  intros Hinv. destruct (is_click e) eqn:He.
  - pose proof (click_loader_footprint w e He) as H.
    unfold loader_footprint in H. injection H as Hp Hc Hh _ _.
    unfold featured_inv. now rewrite Hp, Hc, Hh.
  - destruct e as [r| | | | |]; try discriminate.
    unfold step, featured_inv. cbn [dispatch]. rewrite loadGalleryData_run.
    assert (H : forall w0 c, galleryData (st w0) = Some c ->
              featured_inv (snd (initializeGallery w0))).
    { intros w0 c Hc. rewrite (initializeGallery_run w0 c Hc). unfold featured_inv.
      destruct (present (page w0) fandomFilters), (present (page w0) featuredGrid) eqn:Hg;
        wsimpl; rewrite Hc, Hg; try discriminate; intros _;
        now rewrite js_slice_0 by lia. }
    destruct r as [|[|] [|c]];
      first [ apply (H _ c); reflexivity
            | apply (H (after_failure w) getFallbackData); reflexivity ].
Qed.

Lemma reachable_featured_inv (elements : ElemId -> bool) (w : World) :
  reachable elements w -> featured_inv w.
Proof.
  induction 1 as [|w e _ IH]; [intros _; reflexivity | now apply step_featured_inv].
Qed.

(** X13. A featured tile opens its fandom and leaves the fandom filter
    alone.  In every reachable world of a page with the featured grid, with
    a catalog loaded (fandom ids distinct) and a plain featured grid (the
    ids, image sources and names written into it hold no character that
    the HTML parser interprets, so that the tiles are those written and
    each is read back with the id it was written with), a click on the
    tile at position i < 6 selects the i-th fandom of the catalog and
    resets the page to 1, but the buttons of the fandom filter, active
    mark included, stay as they were.  There is no tile at position 6 or
    beyond: such a click changes nothing. *)
Theorem featured_tile_opens_fandom (elements : ElemId -> bool) (w : World)
    (c : Catalog) :
  reachable elements w ->
  elements featuredGrid = true ->
  galleryData (st w) = Some c ->
  NoDup (map fandom_id (fandoms c)) ->
  plain_featured (page w) = true ->
  (forall i f, (i < 6)%nat -> nth_error (fandoms c) i = Some f ->
     currentFandom (st (step w (Click_featuredItem i))) = Some f /\
     currentPage (st (step w (Click_featuredItem i))) = 1 /\
     fandomFilters_html (page (step w (Click_featuredItem i))) =
       fandomFilters_html (page w)) /\
  (forall i, (6 <= i)%nat -> step w (Click_featuredItem i) = w).
Proof.
  intros Hreach Hfg Hc Hnd _.
  destruct (reachable_inv elements w Hreach) as (Hel & _).
  pose proof (reachable_featured_inv elements w Hreach) as Hfeat.
  unfold featured_inv in Hfeat. rewrite Hel, Hc in Hfeat. specialize (Hfeat Hfg).
  split.
  - intros i f Hi Hnth. unfold step. cbn [dispatch].
    rewrite Hfeat, nth_error_map, nth_error_firstn.
    apply Nat.ltb_lt in Hi. rewrite Hi, Hnth. cbn [option_map featured_item fi_fandom].
    destruct (showFandomDetail_found (fandom_id f) c f w Hc
                (find_fandom_nth c i f Hnd Hnth)) as (H1 & H2 & _).
    split; [exact H1|]. split; [exact H2|].
    apply showFandomDetail_filters_html.
  - intros i Hi. unfold step. cbn [dispatch].
    rewrite Hfeat, nth_error_map, nth_error_firstn.
    destruct (Nat.ltb_spec i 6); [lia | reflexivity].
Qed.

Lemma featured_tile_opens_fandom_witness :
  let w := step (initial all_elements) (DOMContentLoaded (ok_response catalog13)) in
  (option_map fandom_id (currentFandom (st (step w (Click_featuredItem 1)))) = Some "hades" /\
   currentPage (st (step w (Click_featuredItem 1))) = 1 /\
   active_filters (step w (Click_featuredItem 1)) = [0%nat]) /\
  step w (Click_featuredItem 6) = w.
Proof.
  cbv zeta.
  assert (Hnd : NoDup (map fandom_id (fandoms catalog13))).
  { apply NoDup_cons; [|apply NoDup_cons; [|apply NoDup_nil]];
      cbn; intuition discriminate. }
  destruct (featured_tile_opens_fandom all_elements
              (step (initial all_elements) (DOMContentLoaded (ok_response catalog13)))
              catalog13
              (reachable_step _ _ _ (reachable_initial all_elements))
              eq_refl eq_refl Hnd eq_refl) as [Hopen Hnone].
  split.
  - destruct (Hopen 1%nat _ ltac:(lia) eq_refl) as (H1 & H2 & H3).
    rewrite H1. split; [reflexivity|]. split; [exact H2|].
    unfold active_filters. rewrite H3. reflexivity.
  - apply Hnone. lia.
Defined.

(** ** The loader on success *)

(** X10. The fetched catalog is installed exactly when the response is ok
    and its body parses: the loader then completes normally with that
    catalog, logs no error, shows no banner, leaves the view state alone
    and renders the filter and the featured grid from it.  Every failed
    load gives the same world, whatever the failure: a body that comes with
    a non-ok status is never used. *)
Theorem loadGalleryData_success (w : World) (c : Catalog) :
  let w' := snd (loadGalleryData (Response true (Json c)) w) in
  fst (loadGalleryData (Response true (Json c)) w) = Normal tt /\
  galleryData (st w') = Some c /\
  console_errors (page w') = console_errors (page w) /\
  galeria_errors (page w') = galeria_errors (page w) /\
  currentFandom (st w') = currentFandom (st w) /\
  currentProductType (st w') = currentProductType (st w) /\
  currentPage (st w') = currentPage (st w) /\
  fandomFilters_html (page w') =
    (if present (page w) fandomFilters
     then all_button :: map fandom_button (fandoms c)
     else fandomFilters_html (page w)) /\
  featuredGrid_html (page w') =
    (if present (page w) featuredGrid
     then map featured_item (firstn 6 (fandoms c))
     else featuredGrid_html (page w)) /\
  (forall r, fetch_failed r = true ->
     loadGalleryData r w = loadGalleryData (Response false (Json c)) w).
Proof.
  cbv zeta. rewrite !loadGalleryData_run.
  rewrite (initializeGallery_run _ c) by reflexivity.
  rewrite js_slice_0 by lia. change (Z.to_nat 6) with 6%nat.
  destruct (present (page w) fandomFilters) eqn:Hf, (present (page w) featuredGrid) eqn:Hg;
    wsimpl; rewrite ?Hf, ?Hg; wsimpl;
    (repeat (split; [reflexivity|]));
    intros r Hr; rewrite loadGalleryData_run;
    destruct r as [|[|] [|c']]; (reflexivity || discriminate).
Qed.

Lemma loadGalleryData_success_witness :
  galleryData (st (snd (loadGalleryData (Response true (Json catalog13))
                          (initial all_elements)))) = Some catalog13 /\
  console_errors (page (snd (loadGalleryData (Response true (Json catalog13))
                               (initial all_elements)))) = 0%nat /\
  loadGalleryData (Response true Malformed) (initial all_elements) =
    loadGalleryData (Response false (Json catalog13)) (initial all_elements).
Proof.
  destruct (loadGalleryData_success (initial all_elements) catalog13)
    as (_ & H1 & H2 & _ & _ & _ & _ & _ & _ & H3).
  split; [exact H1|]. split; [exact H2|]. now apply H3.
Defined.

(** * Debounce *)

Section DebounceFacts.

Import Debounce.
Context {Args : Type}.
Implicit Types (w : Window Args) (t : Timer Args).

Lemma armed_app (l1 l2 : list (Timer Args)) w1 w2 w :
  pending w1 = l1 -> pending w2 = l2 -> pending w = (l1 ++ l2)%list ->
  armed w = (armed w1 ++ armed w2)%list.
Proof.
  unfold armed. intros -> -> ->. apply flat_map_app.
Qed.

Lemma armed_foreign_only (l : list (Timer Args)) :
  forallb (fun t => negb (is_later t)) l = true ->
  flat_map (fun t => match timer_callback t with Later a => [a] | Foreign => [] end) l = [].
Proof.
  induction l as [|t l IH]; [reflexivity|]. cbn [forallb flat_map].
  intros H. apply andb_true_iff in H as [Ht Hl]. unfold is_later in Ht.
  destruct (timer_callback t); [discriminate|]. now apply IH.
Qed.

(** Dropping an id that no queued [later] carries leaves the waiting
    arguments alone. *)
Lemma armed_filter_other (l : list (Timer Args)) (i : nat) :
  (forall t, In t l -> is_later t = true -> timer_id t <> i) ->
  flat_map (fun t => match timer_callback t with Later a => [a] | Foreign => [] end)
    (filter (fun t => negb (Nat.eqb (timer_id t) i)) l)
  = flat_map (fun t => match timer_callback t with Later a => [a] | Foreign => [] end) l.
Proof.
  induction l as [|t l IH]; intros H; [reflexivity|]. cbn [filter flat_map].
  assert (IH' := IH (fun t' Hin => H t' (or_intror Hin))).
  destruct (Nat.eqb_spec (timer_id t) i) as [Heq|Hne]; cbn [negb].
  - rewrite IH'. specialize (H t (or_introl eq_refl)). unfold is_later in H.
    destruct (timer_callback t); [now destruct (H eq_refl)|reflexivity].
  - cbn [flat_map]. now rewrite IH'.
Qed.

Lemma filter_foreign_other (l : list (Timer Args)) (i : nat) :
  (forall t, In t l -> is_later t = false -> timer_id t <> i) ->
  filter (fun t => negb (is_later t)) (filter (fun t => negb (Nat.eqb (timer_id t) i)) l)
  = filter (fun t => negb (is_later t)) l.
Proof.
  induction l as [|t l IH]; intros H; [reflexivity|]. cbn [filter].
  assert (IH' := IH (fun t' Hin => H t' (or_intror Hin))).
  destruct (Nat.eqb_spec (timer_id t) i) as [Heq|Hne]; cbn [negb].
  - rewrite IH'. specialize (H t (or_introl eq_refl)).
    destruct (is_later t); [reflexivity | now destruct (H eq_refl)].
  - cbn [filter]. now rewrite IH'.
Qed.

Lemma filter_id_NoDup (l : list (Timer Args)) (i : nat) :
  NoDup (map timer_id l) ->
  NoDup (map timer_id (filter (fun t => negb (Nat.eqb (timer_id t) i)) l)) /\
  ~ In i (map timer_id (filter (fun t => negb (Nat.eqb (timer_id t) i)) l)).
Proof.
  induction l as [|t l IH]; intros Hnd; [split; [constructor | intros []]|].
  cbn [map] in Hnd. inversion Hnd as [|? ? Hnotin Hnd']; subst.
  destruct (IH Hnd') as [IH1 IH2]. cbn [filter].
  destruct (Nat.eqb_spec (timer_id t) i) as [Heq|Hne]; cbn [negb]; [now split|].
  cbn [map]. split.
  - constructor; [|exact IH1]. intros Hin. apply Hnotin.
    apply in_map_iff in Hin as (t' & Ht' & Hin). apply filter_In in Hin as [Hin _].
    rewrite <- Ht'. now apply in_map.
  - intros [Heq|Hin]; [now destruct Hne | now destruct IH2].
Qed.

Lemma find_timer_In (id : nat) w t :
  find_timer id w = Some t -> In t (pending w) /\ timer_id t = id.
Proof.
  unfold find_timer. intros H. apply find_some in H as [Hin Heq].
  split; [exact Hin | now apply Nat.eqb_eq].
Qed.

Lemma find_timer_None (id : nat) w :
  find_timer id w = None -> forall t, In t (pending w) -> timer_id t <> id.
Proof.
  unfold find_timer. intros H t Hin Heq.
  pose proof (find_none _ _ H t Hin) as Hf. cbn in Hf.
  apply Nat.eqb_neq in Hf. now destruct Hf.
Qed.

Lemma NoDup_id_unique (l : list (Timer Args)) t1 t2 :
  NoDup (map timer_id l) -> In t1 l -> In t2 l -> timer_id t1 = timer_id t2 -> t1 = t2.
Proof.
  induction l as [|t l IH]; intros Hnd H1 H2 Heq; [now destruct H1|].
  cbn [map] in Hnd. inversion Hnd as [|? ? Hnotin Hnd']; subst.
  destruct H1 as [<-|H1], H2 as [<-|H2]; try reflexivity.
  - destruct Hnotin. rewrite Heq. now apply in_map.
  - destruct Hnotin. rewrite <- Heq. now apply in_map.
  - now apply IH.
Qed.

Lemma no_later_armed w :
  (forall t, In t (pending w) -> is_later t = false) -> armed w = [].
Proof.
  intros H. unfold armed. apply armed_foreign_only.
  apply forallb_forall. intros t Ht. now rewrite (H t Ht).
Qed.

Lemma later_is_later t a : timer_callback t = Later a -> is_later t = true.
Proof. unfold is_later. now intros ->. Qed.

(** After [clearTimeout(timeout)], no [later] closure is queued, the
    timers of other code are all still there. *)
Lemma clear_own w :
  well_formed w ->
  let w1 := clearTimeout (timeout w) w in
  (forall t, In t (pending w1) -> is_later t = false) /\
  foreign_timers w1 = foreign_timers w /\
  NoDup (map timer_id (pending w1)) /\
  Forall (fun t => (timer_id t < next_id w)%nat) (pending w1) /\
  next_id w1 = next_id w /\ calls w1 = calls w /\ wait w1 = wait w /\
  timeout w1 = timeout w.
Proof.
  intros (Hnd & Hlt & Hto & Hfor & Hown). cbv zeta.
  destruct (timeout w) as [i|] eqn:Hi; cbn [clearTimeout pending next_id calls wait timeout].
  - split; [|split; [|split; [|split]]]; try (repeat split; assumption || reflexivity).
    + intros t Ht. apply filter_In in Ht as [Hin Hne].
      destruct (is_later t) eqn:Hl; [|reflexivity]. exfalso.
      unfold is_later in Hl. destruct (timer_callback t) as [a|] eqn:Hcb; [|discriminate].
      destruct (Hown t a Hin Hcb) as [Heq _].
      assert (Hid : timer_id t = i) by congruence.
      now rewrite Hid, Nat.eqb_refl in Hne.
    + unfold foreign_timers. cbn [pending]. apply filter_foreign_other.
      intros t Hin Hl Heq. apply (Hfor t Hin Hl). congruence.
    + now apply filter_id_NoDup.
    + apply Forall_forall. intros t Ht. apply filter_In in Ht as [Hin _].
      now apply (proj1 (Forall_forall _ _) Hlt).
  - split; [|repeat split; assumption].
    intros t Ht. destruct (is_later t) eqn:Hl; [|reflexivity]. exfalso.
    unfold is_later in Hl. destruct (timer_callback t) as [a|] eqn:Hcb; [|discriminate].
    now destruct (Hown t a Ht Hcb).
Qed.

Lemma executedFunction_spec w (a : Args) :
  well_formed w ->
  let w' := executedFunction a w in
  well_formed w' /\
  armed w' = [a] /\
  calls w' = calls w /\
  timeout w' = Some (next_id w) /\
  foreign_timers w' = foreign_timers w.
Proof.
  intros Hwf. destruct (clear_own w Hwf) as (Hnone & Hfor & Hnd & Hlt & Hn & Hc & Hw & Ht).
  cbv zeta. unfold executedFunction, setTimeout, set_timeout_var.
  set (w1 := clearTimeout (timeout w) w) in *.
  cbn [pending next_id calls wait timeout]. rewrite Hn, Hc.
  assert (Harmed : armed (mkWindow (S (next_id w))
                            (pending w1 ++ [mkTimer (next_id w) (wait w1) (Later a)])
                            (wait w1) (Some (next_id w)) (calls w)) = [a]).
  { unfold armed. cbn [pending]. rewrite flat_map_app.
    fold (armed w1). rewrite (no_later_armed w1 Hnone). reflexivity. }
  split; [|split; [exact Harmed|split; [reflexivity|split; [reflexivity|]]]].
  - unfold well_formed. cbn [pending next_id timeout].
    split; [|split; [|split; [|split]]].
    + rewrite map_app. cbn [map timer_id]. apply NoDup_app; [exact Hnd | repeat constructor; intros [] |].
      intros i Hin [Heq|[]]. apply in_map_iff in Hin as (t & Hid & Hin).
      pose proof (proj1 (Forall_forall _ _) Hlt t Hin) as Hbound.
      cbn beta in Hbound. lia.
    + apply Forall_app. split.
      * apply Forall_forall. intros t Hin.
        pose proof (proj1 (Forall_forall _ _) Hlt t Hin) as Hbound.
        cbn beta in Hbound. lia.
      * repeat constructor.
    + intros i Hi. injection Hi as <-. lia.
    + intros t Hin Hl Heq. apply in_app_or in Hin as [Hin|[<-|[]]]; [|discriminate].
      injection Heq as Heq.
      pose proof (proj1 (Forall_forall _ _) Hlt t Hin) as Hbound.
      cbn beta in Hbound. lia.
    + intros t a' Hin Hcb. apply in_app_or in Hin as [Hin|[<-|[]]].
      * pose proof (Hnone t Hin) as Hl. now rewrite (later_is_later t a' Hcb) in Hl.
      * cbn [timer_callback] in Hcb. injection Hcb as <-. split; [reflexivity | exact Harmed].
  - unfold foreign_timers. cbn [pending]. rewrite filter_app. cbn [filter is_later timer_callback negb].
    rewrite app_nil_r. exact Hfor.
Qed.

(** Removing a queued timer of other code. *)
Lemma drop_foreign w t :
  well_formed w -> In t (pending w) -> is_later t = false ->
  let w1 := clearTimeout (Some (timer_id t)) w in
  well_formed w1 /\ armed w1 = armed w /\ calls w1 = calls w /\
  timeout w1 = timeout w.
Proof.
  intros (Hnd & Hlt & Hto & Hfor & Hown) Hin Hl. cbv zeta.
  assert (Harmed : armed (clearTimeout (Some (timer_id t)) w) = armed w).
  { unfold armed. cbn [clearTimeout pending]. apply armed_filter_other.
    intros t' Hin' Hl' Heq.
    rewrite (NoDup_id_unique _ t' t Hnd Hin' Hin Heq) in Hl'. congruence. }
  split; [|repeat split; exact Harmed || reflexivity].
  unfold well_formed. cbn [clearTimeout pending next_id timeout].
  split; [now apply filter_id_NoDup|]. split; [|split; [exact Hto|split]].
  - apply Forall_forall. intros t' Ht'. apply filter_In in Ht' as [Hin' _].
    now apply (proj1 (Forall_forall _ _) Hlt).
  - intros t' Ht' Hl'. apply filter_In in Ht' as [Hin' _]. now apply Hfor.
  - intros t' a Ht' Hcb. apply filter_In in Ht' as [Hin' _].
    destruct (Hown t' a Hin' Hcb) as [H1 H2]. split; [exact H1|].
    change (armed (clearTimeout (Some (timer_id t)) w) = [a]). now rewrite Harmed.
Qed.

Lemma fire_spec w (id : nat) :
  well_formed w ->
  let w' := fire id w in
  well_formed w' /\
  calls w' = (if fires_later id w then calls w ++ armed w else calls w)%list /\
  armed w' = (if fires_later id w then [] else armed w) /\
  (fires_later id w = true -> foreign_timers w' = foreign_timers w).
Proof.
  intros Hwf. cbv zeta. unfold fire, fires_later.
  destruct (find_timer id w) as [t|] eqn:Hfind;
    [|split; [exact Hwf|split; [reflexivity|split; [reflexivity|discriminate]]]].
  destruct (find_timer_In id w t Hfind) as [Hin <-].
  pose proof Hwf as (Hnd & Hlt & Hto & Hfor & Hown).
  unfold is_later. destruct (timer_callback t) as [a|] eqn:Hcb.
  - destruct (Hown t a Hin Hcb) as [Htime Harmed].
    unfold later. cbn [clearTimeout timeout]. rewrite Htime.
    set (keep := fun t0 : Timer Args => negb (Nat.eqb (timer_id t0) (timer_id t))).
    unfold func. cbn [clearTimeout pending next_id wait timeout calls].
    change (filter (fun t0 : Timer Args => negb (Nat.eqb (timer_id t0) (timer_id t)))
              (filter keep (pending w)))
      with (filter keep (filter keep (pending w))).
    assert (Hidem : filter keep (filter keep (pending w)) = filter keep (pending w)).
    { apply forallb_filter_id. apply forallb_forall. intros t' Ht'.
      now apply filter_In in Ht' as [_ Hk]. }
    rewrite Hidem, <- Htime.
    assert (Hnone : forall t', In t' (filter keep (pending w)) -> is_later t' = false).
    { intros t' Ht'. apply filter_In in Ht' as [Hin' Hk].
      destruct (is_later t') eqn:Hl'; [|reflexivity]. exfalso.
      unfold is_later in Hl'. destruct (timer_callback t') as [a'|] eqn:Hcb'; [|discriminate].
      destruct (Hown t' a' Hin' Hcb') as [Htime' _].
      assert (Hid : timer_id t' = timer_id t) by congruence.
      unfold keep in Hk. now rewrite Hid, Nat.eqb_refl in Hk. }
    assert (Harmed' : armed (mkWindow (next_id w) (filter keep (pending w)) (wait w)
                               (timeout w) (calls w ++ [a])%list) = [])
      by (apply no_later_armed; exact Hnone).
    split; [|split; [now rewrite Harmed|split; [exact Harmed'|]]].
    + unfold well_formed. cbn [pending next_id timeout].
      split; [now apply filter_id_NoDup|]. split; [|split; [exact Hto|split]].
      * apply Forall_forall. intros t' Ht'. apply filter_In in Ht' as [Hin' _].
        now apply (proj1 (Forall_forall _ _) Hlt).
      * intros t' Ht' Hl'. apply filter_In in Ht' as [Hin' _]. now apply Hfor.
      * intros t' a' Ht' Hcb'. pose proof (Hnone t' Ht') as Hl'.
        now rewrite (later_is_later t' a' Hcb') in Hl'.
    + intros _. unfold foreign_timers. cbn [pending]. apply filter_foreign_other.
      intros t' Hin' Hl' Heq.
      rewrite (NoDup_id_unique _ t' t Hnd Hin' Hin Heq) in Hl'.
      now rewrite (later_is_later t a Hcb) in Hl'.
  - assert (Hl : is_later t = false) by (unfold is_later; now rewrite Hcb).
    destruct (drop_foreign w t Hwf Hin Hl) as (H1 & H2 & H3 & _).
    split; [exact H1|]. split; [exact H3|]. split; [exact H2 | discriminate].
Qed.

Lemma step_well_formed w (e : Event) :
  well_formed w -> well_formed (step w e).
Proof.
  intros Hwf. destruct e as [a|id|delay|id]; cbn [step].
  - now apply executedFunction_spec.
  - now apply fire_spec.
  - destruct Hwf as (Hnd & Hlt & Hto & Hfor & Hown).
    unfold well_formed, setTimeout. cbn [snd pending next_id timeout].
    assert (Harmed : armed (mkWindow (S (next_id w))
                              (pending w ++ [mkTimer (next_id w) delay Foreign])
                              (wait w) (timeout w) (calls w)) = armed w)
      by (unfold armed; cbn [pending]; rewrite flat_map_app; cbn; apply app_nil_r).
    split; [|split; [|split; [|split]]].
    + rewrite map_app. cbn [map timer_id].
      apply NoDup_app; [exact Hnd | repeat constructor; intros [] |].
      intros i Hin [Heq|[]]. apply in_map_iff in Hin as (t & Hid & Hin).
      pose proof (proj1 (Forall_forall _ _) Hlt t Hin) as Hbound.
      cbn beta in Hbound. lia.
    + apply Forall_app. split; [|repeat constructor].
      apply Forall_forall. intros t Hin.
      pose proof (proj1 (Forall_forall _ _) Hlt t Hin) as Hbound.
      cbn beta in Hbound. lia.
    + intros i Hi. specialize (Hto i Hi). lia.
    + intros t Hin Hl Heq. apply in_app_or in Hin as [Hin|[<-|[]]];
        [now apply (Hfor t Hin Hl)|].
      cbn [timer_id] in Heq. specialize (Hto _ Heq). lia.
    + intros t a Hin Hcb. apply in_app_or in Hin as [Hin|[<-|[]]]; [|discriminate].
      destruct (Hown t a Hin Hcb) as [H1 H2]. split; [exact H1 | now rewrite Harmed].
  - unfold is_foreign. destruct (find_timer id w) as [t|] eqn:Hfind; [|exact Hwf].
    destruct (find_timer_In id w t Hfind) as [Hin <-].
    destruct (timer_callback t) eqn:Hcb; [exact Hwf|].
    apply (drop_foreign w t Hwf Hin). unfold is_later. now rewrite Hcb.
Qed.

Lemma fresh_well_formed w : fresh w -> well_formed w.
Proof.
  intros (Hto & _ & Harmed & Hnd & Hlt).
  split; [exact Hnd|]. split; [exact Hlt|]. split; [|split].
  - intros i Hi. congruence.
  - intros t _ _. congruence.
  - intros t a Hin Hcb. exfalso.
    assert (Hina : In a (armed w)).
    { unfold armed. apply in_flat_map. exists t. split; [exact Hin|].
      rewrite Hcb. now left. }
    now rewrite Harmed in Hina.
Qed.

Lemma run_well_formed w (trace : list Event) :
  well_formed w -> well_formed (run w trace).
Proof.
  unfold run. revert w. induction trace as [|e trace IH]; intros w Hwf; [exact Hwf|].
  cbn [fold_left]. apply IH. now apply step_well_formed.
Qed.

Lemma other_events_spec w (e : Event) :
  well_formed w ->
  match e with
  | Invoke _ | Fire _ => True
  | OtherSetTimeout _ | OtherClearTimeout _ =>
      armed (step w e) = armed w /\ calls (step w e) = calls w /\
      timeout (step w e) = timeout w
  end.
Proof.
  intros Hwf. destruct e as [a|id|delay|id]; try exact I; cbn [step].
  - unfold setTimeout, armed. cbn [snd pending calls timeout].
    rewrite flat_map_app. cbn. now rewrite app_nil_r.
  - unfold is_foreign. destruct (find_timer id w) as [t|] eqn:Hfind; [|now repeat split].
    destruct (find_timer_In id w t Hfind) as [Hin <-].
    destruct (timer_callback t) eqn:Hcb; [now repeat split|].
    apply (drop_foreign w t Hwf Hin). unfold is_later. now rewrite Hcb.
Qed.

Lemma armed_at_most_one w :
  well_formed w -> armed w = [] \/ exists a, armed w = [a].
Proof.
  intros (_ & _ & _ & _ & Hown).
  destruct (existsb is_later (pending w)) eqn:Hex.
  - apply existsb_exists in Hex as (t & Hin & Hl). unfold is_later in Hl.
    destruct (timer_callback t) as [a|] eqn:Hcb; [|discriminate].
    right. exists a. now apply (Hown t a Hin Hcb).
  - left. apply no_later_armed. intros t Hin.
    destruct (is_later t) eqn:Hl; [|reflexivity].
    assert (existsb is_later (pending w) = true)
      by (apply existsb_exists; now exists t).
    congruence.
Qed.

Lemma debounce_one_slot_aux w (e : Event) :
  well_formed w ->
  match e with
  | Invoke a =>
      armed (step w e) = [a] /\ calls (step w e) = calls w /\
      foreign_timers (step w e) = foreign_timers w
  | Fire id =>
      calls (step w e) = (if fires_later id w then calls w ++ armed w else calls w)%list /\
      armed (step w e) = (if fires_later id w then [] else armed w) /\
      (fires_later id w = true -> foreign_timers (step w e) = foreign_timers w)
  | OtherSetTimeout _ | OtherClearTimeout _ =>
      armed (step w e) = armed w /\ calls (step w e) = calls w
  end.
Proof.
  intros Hwf.
  pose proof (other_events_spec w e Hwf) as Hother.
  destruct e as [a|id|delay|id].
  - destruct (executedFunction_spec w a Hwf) as (_ & H1 & H2 & _ & H3). now repeat split.
  - destruct (fire_spec w id Hwf) as (_ & H1 & H2 & H3). now repeat split.
  - now destruct Hother as (H1 & H2 & _).
  - now destruct Hother as (H1 & H2 & _).
Qed.

(** X14. A debounced function is a one-slot buffer in front of func.  In a
    well-formed window, a call of the debounced function does not call
    func: it leaves exactly its own arguments waiting, replacing whatever
    waited before, and cancels no timer of other code.  When the timer that
    carries the waiting arguments fires, func is called once with them and
    nothing is left waiting; any other timer that fires, and whatever other
    code does with its own timers, calls nothing and changes nothing that
    waits.  The window stays well-formed. *)
Theorem debounce_one_slot w (e : Event) :
  well_formed w ->
  well_formed (step w e) /\
  match e with
  | Invoke a =>
      armed (step w e) = [a] /\ calls (step w e) = calls w /\
      foreign_timers (step w e) = foreign_timers w
  | Fire id =>
      calls (step w e) = (if fires_later id w then calls w ++ armed w else calls w)%list /\
      armed (step w e) = (if fires_later id w then [] else armed w) /\
      (fires_later id w = true -> foreign_timers (step w e) = foreign_timers w)
  | OtherSetTimeout _ | OtherClearTimeout _ =>
      armed (step w e) = armed w /\ calls (step w e) = calls w
  end.
Proof.
  intros Hwf. split; [now apply step_well_formed | now apply debounce_one_slot_aux].
Qed.

Lemma invocations_app (tr1 tr2 : list (@Event Args)) :
  invocations (tr1 ++ tr2) = (invocations tr1 ++ invocations tr2)%list.
Proof. apply flat_map_app. Qed.

(** X15. The latest arguments are never lost and never overtaken.  From a
    window in which the debounced function was just created, after any
    sequence of calls, timer firings and timer operations of other code:
    the arguments of the most recent call are waiting in the queue or were
    the last ones func received; func was called at most once per call, at
    most one set of arguments is waiting, and func only ever received
    arguments that were passed to the debounced function. *)
Theorem debounce_latest_kept (w0 : Window Args) (trace : list Event) :
  fresh w0 ->
  let w := run w0 trace in
  latest_kept trace w /\
  (length (calls w) + length (armed w) <= length (invocations trace))%nat /\
  (length (armed w) <= 1)%nat /\
  (forall a, In a (calls w ++ armed w) -> In a (invocations trace)).
Proof.
  intros Hfresh. cbv zeta.
  assert (Hwf : forall tr, well_formed (run w0 tr))
    by (intros tr; apply run_well_formed; now apply fresh_well_formed).
  assert (Hone : (length (armed (run w0 trace)) <= 1)%nat).
  { destruct (armed_at_most_one _ (Hwf trace)) as [->|(a & ->)]; cbn; lia. }
  cut (latest_kept trace (run w0 trace) /\
       (length (calls (run w0 trace)) + length (armed (run w0 trace))
        <= length (invocations trace))%nat /\
       (forall a, In a (calls (run w0 trace) ++ armed (run w0 trace)) ->
                  In a (invocations trace))).
  { intros (H1 & H2 & H3). repeat split; assumption. }
  clear Hone. induction trace as [|e trace IH] using rev_ind.
  - destruct Hfresh as (_ & Hc & Ha & _). unfold run. cbn [fold_left].
    rewrite Hc, Ha. split; [|split; [cbn; lia | intros a []]].
    intros a earlier H. now destruct earlier.
  - destruct IH as (IH1 & IH2 & IH3).
    unfold run in *. rewrite fold_left_app. cbn [fold_left].
    set (w := fold_left step trace w0) in *.
    pose proof (debounce_one_slot_aux w e (Hwf trace)) as Hstep.
    unfold latest_kept in *. rewrite invocations_app, length_app.
    destruct e as [a|id|delay|id]; cbn [invocations flat_map app length];
      rewrite ?app_nil_r, ?Nat.add_0_r.
    + destruct Hstep as (Ha & Hc & _). rewrite Ha, Hc.
      split; [|split].
      * intros a' earlier H. apply app_inj_tail in H as [_ <-]. now left.
      * cbn [length]. lia.
      * intros a' Hin. apply in_or_app. apply in_app_or in Hin as [Hin|[<-|[]]].
        -- left. apply IH3. apply in_or_app. now left.
        -- right. now left.
    + destruct Hstep as (Hc & Ha & _). rewrite Hc, Ha.
      destruct (fires_later id w).
      * split; [|split].
        -- intros a earlier H. destruct (IH1 a earlier H) as [Harm|[Harm (before & Hb)]].
           ++ right. split; [reflexivity|]. exists (calls w). now rewrite Harm.
           ++ right. split; [reflexivity|]. exists before. now rewrite Harm, app_nil_r.
        -- rewrite length_app. cbn [length]. lia.
        -- intros a Hin. rewrite app_nil_r in Hin. now apply IH3.
      * split; [exact IH1|]. split; [lia | exact IH3].
    + destruct Hstep as (Ha & Hc). rewrite Ha, Hc.
      split; [exact IH1|]. split; [lia | exact IH3].
    + destruct Hstep as (Ha & Hc). rewrite Ha, Hc.
      split; [exact IH1|]. split; [lia | exact IH3].
Qed.

End DebounceFacts.

Lemma sample_window_fresh : Debounce.fresh sample_window.
Proof.
  repeat split; try reflexivity.
  - repeat constructor. intros [].
  - repeat constructor.
Qed.

Lemma debounce_one_slot_witness :
  Debounce.armed (Debounce.step sample_window (Debounce.Invoke 1%nat)) = [1%nat] /\
  Debounce.calls (Debounce.step sample_window (Debounce.Invoke 1%nat)) = [] /\
  Debounce.foreign_timers (Debounce.step sample_window (Debounce.Invoke 1%nat)) =
    Debounce.foreign_timers sample_window.
Proof.
  exact (proj2 (debounce_one_slot sample_window (Debounce.Invoke 1%nat)
                  (fresh_well_formed sample_window sample_window_fresh))).
Defined.

Lemma debounce_latest_kept_witness :
  let w := Debounce.run sample_window sample_trace in
  Debounce.latest_kept sample_trace w /\
  (length (Debounce.calls w) + length (Debounce.armed w)
   <= length (Debounce.invocations sample_trace))%nat /\
  (length (Debounce.armed w) <= 1)%nat /\
  (forall a, In a (Debounce.calls w ++ Debounce.armed w) ->
             In a (Debounce.invocations sample_trace)).
Proof.
  exact (debounce_latest_kept sample_window sample_trace sample_window_fresh).
Defined.

Example debounce_sample_run :
  Debounce.calls (Debounce.run sample_window sample_trace) = [2%nat] /\
  Debounce.armed (Debounce.run sample_window sample_trace) = [3%nat] /\
  map Debounce.timer_id (Debounce.pending (Debounce.run sample_window sample_trace))
    = [3%nat; 6%nat; 8%nat].
Proof. vm_compute. repeat split. Qed.

(** * Contact form *)

Section ContactFormFacts.

Import ContactForm.
Local Open Scope list_scope.
Implicit Types (r : Re) (s : jsstring) (c : N).

(** ** Membership by derivatives *)

Lemma matches_nil_nullable r : matches r [] -> nullable r = true.
Proof.
  intros H. remember [] as s eqn:Hs. induction H; cbn [nullable]; try reflexivity;
    try discriminate.
  - now rewrite IHmatches.
  - rewrite IHmatches by assumption. apply orb_true_r.
  - apply app_eq_nil in Hs as [-> ->]. now rewrite IHmatches1, IHmatches2.
Qed.

Lemma nullable_matches_nil r : nullable r = true -> matches r [].
Proof.
  induction r; cbn [nullable]; intros H; try discriminate.
  - constructor.
  - apply orb_true_iff in H as [H|H]; [apply MAltL | apply MAltR]; auto.
  - apply andb_true_iff in H as [H1 H2]. apply (MSeq r1 r2 [] []); auto.
  - constructor.
Qed.

Lemma deriv_sound c r s : matches (deriv c r) s -> matches r (c :: s).
Proof.
  revert s. induction r; intros s H; cbn [deriv] in H.
  - inversion H.
  - inversion H.
  - destruct (p c) eqn:Hp; inversion H; subst. now constructor.
  - inversion H; subst; [apply MAltL | apply MAltR]; auto.
  - assert (Hseq : forall s0, matches (Seq (deriv c r1) r2) s0 ->
                     matches (Seq r1 r2) (c :: s0)).
    { intros s0 H0. inversion H0; subst.
      change (c :: s1 ++ s2) with ((c :: s1) ++ s2). constructor; auto. }
    destruct (nullable r1) eqn:Hn; [|now apply Hseq].
    inversion H; subst; [now apply Hseq|].
    apply (MSeq r1 r2 [] (c :: s)); [now apply nullable_matches_nil | auto].
  - inversion H; subst.
    change (c :: s1 ++ s2) with ((c :: s1) ++ s2). constructor; auto.
Qed.

Lemma deriv_complete c r s : matches r (c :: s) -> matches (deriv c r) s.
Proof.
  intros H. remember (c :: s) as cs eqn:Hcs. revert c s Hcs.
  induction H; intros c0 s0 Hcs; cbn [deriv]; try discriminate.
  - injection Hcs as -> <-. rewrite H. constructor.
  - apply MAltL. auto.
  - apply MAltR. auto.
  - destruct s1 as [|c1 s1]; cbn [app] in Hcs.
    + subst s2. rewrite (matches_nil_nullable r1 H). apply MAltR. auto.
    + injection Hcs as -> <-.
      assert (Hseq : matches (Seq (deriv c0 r1) r2) (s1 ++ s2))
        by (constructor; auto).
      destruct (nullable r1); [now apply MAltL | exact Hseq].
  - destruct s1 as [|c1 s1]; cbn [app] in Hcs.
    + now apply IHmatches2.
    + injection Hcs as -> <-. constructor; auto.
Qed.

Lemma re_test_correct r s : re_test r s = true <-> matches r s.
Proof.
  revert r. induction s as [|c s IH]; intros r; cbn [re_test].
  - split; [apply nullable_matches_nil | apply matches_nil_nullable].
  - rewrite IH. split; [apply deriv_sound | apply deriv_complete].
Qed.

(** ** Classes, repetition and sequence *)

Lemma matches_chr p s : matches (Chr p) s <-> exists c, s = [c] /\ p c = true.
Proof.
  split.
  - intros H. inversion H; subst. now exists c.
  - intros (c & -> & Hp). now constructor.
Qed.

Lemma matches_star_chr p s : matches (Star (Chr p)) s <-> forallb p s = true.
Proof.
  split.
  - intros H. remember (Star (Chr p)) as r eqn:Hr.
    induction H; try discriminate; [reflexivity|].
    injection Hr as ->. apply matches_chr in H as (c & -> & Hc). cbn [app forallb].
    rewrite IHmatches2 by reflexivity. now rewrite Hc.
  - induction s as [|c s IH]; cbn [forallb]; intros H; [constructor|].
    apply andb_true_iff in H as [Hc Hs].
    change (c :: s) with ([c] ++ s). constructor; [now constructor | auto].
Qed.

Lemma matches_seq r1 r2 s :
  matches (Seq r1 r2) s <-> exists s1 s2, s = s1 ++ s2 /\ matches r1 s1 /\ matches r2 s2.
Proof.
  split.
  - intros H. inversion H; subst. now exists s1, s2.
  - intros (s1 & s2 & -> & H1 & H2). now constructor.
Qed.

Lemma matches_plus_chr p s :
  matches (Plus (Chr p)) s <-> s <> [] /\ forallb p s = true.
Proof.
  unfold Plus. rewrite matches_seq. split.
  - intros (s1 & s2 & -> & H1 & H2). apply matches_chr in H1 as (c & -> & Hc).
    apply matches_star_chr in H2. cbn [app forallb]. rewrite Hc, H2.
    split; [discriminate | reflexivity].
  - intros [Hne Hall]. destruct s as [|c s]; [now destruct Hne|].
    cbn [forallb] in Hall. apply andb_true_iff in Hall as [Hc Hs].
    exists [c], s. split; [reflexivity|]. split.
    + apply matches_chr. now exists c.
    + now apply matches_star_chr.
Qed.

Lemma emailRegex_shape s :
  re_test emailRegex s = true <->
  exists local left right,
    s = local ++ at_sign :: left ++ dot :: right /\
    local <> [] /\ left <> [] /\ right <> [] /\
    forallb not_space_or_at (local ++ left ++ right) = true.
Proof.
  rewrite re_test_correct. unfold emailRegex. split.
  - intros H.
    apply matches_seq in H as (local & s1 & -> & Hl & H).
    apply matches_seq in H as (a & s2 & -> & Ha & H).
    apply matches_seq in H as (left & s3 & -> & Hd1 & H).
    apply matches_seq in H as (d & right & -> & Hd & Hd2).
    apply matches_chr in Ha as (c1 & -> & Hc1). apply N.eqb_eq in Hc1. subst c1.
    apply matches_chr in Hd as (c2 & -> & Hc2). apply N.eqb_eq in Hc2. subst c2.
    apply matches_plus_chr in Hl as [Hl1 Hl2].
    apply matches_plus_chr in Hd1 as [Hd11 Hd12].
    apply matches_plus_chr in Hd2 as [Hd21 Hd22].
    exists local, left, right. repeat split; try assumption.
    now rewrite !forallb_app, Hl2, Hd12, Hd22.
  - intros (local & left & right & -> & Hl & Hd1 & Hd2 & Hall).
    rewrite !forallb_app in Hall.
    apply andb_true_iff in Hall as [Hal Hall]. apply andb_true_iff in Hall as [Had1 Had2].
    apply matches_seq. exists local, (at_sign :: left ++ dot :: right).
    split; [reflexivity|]. split; [now apply matches_plus_chr|].
    apply matches_seq. exists [at_sign], (left ++ dot :: right).
    split; [reflexivity|]. split; [apply matches_chr; now exists at_sign|].
    apply matches_seq. exists left, (dot :: right).
    split; [reflexivity|]. split; [now apply matches_plus_chr|].
    apply matches_seq. exists [dot], right.
    split; [reflexivity|]. split; [apply matches_chr; now exists dot|].
    now apply matches_plus_chr.
Qed.

(** X16. The address check of the contact form accepts exactly the strings
    of the form local@left.right in which the three parts are not empty
    and contain neither whitespace nor "@" (dots are allowed inside the
    parts). *)
Theorem emailRegex_accepts s :
  re_test emailRegex s = true <->
  exists local left right,
    s = local ++ at_sign :: left ++ dot :: right /\
    local <> [] /\ left <> [] /\ right <> [] /\
    forallb not_space_or_at (local ++ left ++ right) = true.
Proof. apply emailRegex_shape. Qed.

Lemma emailRegex_accepts_witness :
  re_test emailRegex (of_ascii "ana.p@mail.example.com") = true.
Proof.
  apply (proj2 (emailRegex_accepts (of_ascii "ana.p@mail.example.com"))).
  exists (of_ascii "ana.p"), (of_ascii "mail.example"), (of_ascii "com").
  split; [reflexivity|]. repeat split; discriminate.
Defined.

Example emailRegex_samples :
  map (fun x => re_test emailRegex (of_ascii x))
      ["a@b.c"; "ana.p@mail.example.com"; "a@b"; "a@.c"; "a@b."; "@b.c";
       "a b@c.d"; "a@@b.c"; "a@b..c"; ""]%string
  = [true; true; false; false; false; false; false; false; true; false].
Proof. vm_compute. reflexivity. Qed.

(** ** Trimming *)

Lemma has_visible_false s : has_visible s = false <-> forallb is_space s = true.
Proof.
  unfold has_visible. induction s as [|c s IH]; cbn [existsb forallb]; [easy|].
  destruct (is_space c); cbn [negb orb andb]; [exact IH | easy].
Qed.

Lemma trim_start_visible s : has_visible (trim_start s) = has_visible s.
Proof.
  unfold has_visible. induction s as [|c s IH]; [reflexivity|]. cbn [trim_start existsb].
  destruct (is_space c) eqn:Hc; cbn [negb orb]; [exact IH|].
  cbn [existsb]. now rewrite Hc.
Qed.

Lemma trim_start_nil s : trim_start s = [] <-> has_visible s = false.
Proof.
  unfold has_visible. induction s as [|c s IH]; cbn [trim_start existsb]; [easy|].
  destruct (is_space c); cbn [negb orb]; [exact IH | easy].
Qed.

Lemma has_visible_rev s : has_visible (rev s) = has_visible s.
Proof.
  unfold has_visible. destruct (existsb _ s) eqn:H.
  - apply existsb_exists in H as (c & Hin & Hc). apply existsb_exists.
    exists c. split; [now apply in_rev in Hin | exact Hc].
  - destruct (existsb _ (rev s)) eqn:H'; [|reflexivity].
    apply existsb_exists in H' as (c & Hin & Hc). apply in_rev in Hin.
    assert (existsb (fun c0 => negb (is_space c0)) s = true)
      by (apply existsb_exists; now exists c).
    congruence.
Qed.

Lemma trim_nil s : trim s = [] <-> has_visible s = false.
Proof.
  unfold trim, trim_end. split.
  - intros H. apply (f_equal (@rev N)) in H. rewrite rev_involutive in H. cbn [rev] in H.
    apply trim_start_nil in H. now rewrite has_visible_rev, trim_start_visible in H.
  - intros H.
    assert (H' : trim_start (rev (trim_start s)) = [])
      by (apply trim_start_nil; now rewrite has_visible_rev, trim_start_visible).
    now rewrite H'.
Qed.

Lemma is_empty_trim s : is_empty (trim s) = negb (has_visible s).
Proof.
  destruct (has_visible s) eqn:H.
  - destruct (trim s) eqn:Ht; [|reflexivity].
    apply trim_nil in Ht. congruence.
  - now rewrite (proj2 (trim_nil s) H).
Qed.

Lemma trim_start_head s c rest : trim_start s = c :: rest -> is_space c = false.
Proof.
  induction s as [|a s IH]; cbn [trim_start]; [discriminate|].
  destruct (is_space a) eqn:Ha; [exact IH|]. intros H. now injection H as <- _.
Qed.

Lemma trim_start_keeps_last l c :
  is_space c = false -> exists l', trim_start (l ++ [c]) = l' ++ [c].
Proof.
  intros Hc. induction l as [|a l IH]; cbn [app trim_start].
  - rewrite Hc. now exists [].
  - destruct (is_space a); [exact IH | now exists (a :: l)].
Qed.

(** What [trim] returns neither starts nor ends with whitespace. *)
Lemma trim_edges s :
  (forall c rest, trim s = c :: rest -> is_space c = false) /\
  (forall c front, trim s = front ++ [c] -> is_space c = false).
Proof.
  unfold trim, trim_end. split.
  - intros c rest H.
    destruct (trim_start s) as [|c0 t] eqn:Ht; [discriminate|].
    pose proof (trim_start_head s c0 t Ht) as Hc0.
    cbn [rev] in H. destruct (trim_start_keeps_last (rev t) c0 Hc0) as (l' & Hl').
    rewrite Hl', rev_app_distr in H. cbn [rev app] in H. now injection H as <- _.
  - intros c front H. apply (f_equal (@rev N)) in H.
    rewrite rev_involutive, rev_app_distr in H. cbn [rev app] in H.
    now apply trim_start_head in H.
Qed.

(** ** The submit handler *)

Lemma submit_run (n e p m : jsstring) :
  submit (mkInputs (Some n) (Some e) (Some p) (Some m)) =
  if has_visible n && has_visible e && has_visible m then
    if re_test emailRegex (trim e)
    then Submitted (mkFormData (trim n) (trim e) p (trim m))
    else AlertInvalidEmail
  else AlertRequired.
Proof.
  unfold submit. cbn [name_input email_input product_input message_input
                      fd_name fd_email fd_message].
  rewrite !is_empty_trim.
  destruct (has_visible n), (has_visible e), (has_visible m); cbn [negb orb andb];
    try reflexivity.
  now destruct (re_test emailRegex (trim e)).
Qed.

(** X17. Required fields.  With the four inputs in the document, the
    handler stops at the "required fields" alert exactly when the name, the
    address or the message is empty or made of whitespace only; the product
    is not looked at, and the address is then not checked. *)
Theorem submit_required (n e p m : jsstring) :
  submit (mkInputs (Some n) (Some e) (Some p) (Some m)) = AlertRequired <->
  forallb is_space n = true \/ forallb is_space e = true \/ forallb is_space m = true.
Proof.
  rewrite submit_run, <- !has_visible_false.
  destruct (has_visible n), (has_visible e), (has_visible m); cbn [andb];
    try (split; [intros _; auto | reflexivity]).
  destruct (re_test emailRegex (trim e));
    (split; [discriminate | intros [H|[H|H]]; discriminate]).
Qed.

Lemma submit_required_witness :
  submit (mkInputs (Some (of_ascii "Ana")) (Some (of_ascii "ana@mail.com"))
            (Some []) (Some [32; 9; 160; 10]%N)) = AlertRequired.
Proof.
  apply (proj2 (submit_required _ _ _ _)). right. right. reflexivity.
Defined.

(** X18. What gets submitted.  The handler reaches the success message
    exactly when the four inputs exist, the name and the message have a
    visible character, and the trimmed address has the form
    local@left.right with three non-empty parts free of whitespace and "@".
    The data it submits are the trimmed name, address and message and the
    product as entered. *)
Theorem submit_accepts (i : Inputs) (d : FormData) :
  submit i = Submitted d <->
  exists n e p m,
    i = mkInputs (Some n) (Some e) (Some p) (Some m) /\
    d = mkFormData (trim n) (trim e) p (trim m) /\
    has_visible n = true /\ has_visible m = true /\
    exists local left right,
      trim e = local ++ at_sign :: left ++ dot :: right /\
      local <> [] /\ left <> [] /\ right <> [] /\
      forallb not_space_or_at (local ++ left ++ right) = true.
Proof.
  split.
  - intros H. destruct i as [[n|] [e|] [p|] [m|]]; try discriminate.
    rewrite submit_run in H.
    destruct (has_visible n) eqn:Hn, (has_visible e) eqn:He, (has_visible m) eqn:Hm;
      cbn [andb] in H; try discriminate.
    destruct (re_test emailRegex (trim e)) eqn:Hre; [|discriminate].
    injection H as <-. exists n, e, p, m.
    split; [reflexivity|]. split; [reflexivity|].
    split; [exact Hn|]. split; [exact Hm|]. now apply emailRegex_shape.
  - intros (n & e & p & m & -> & -> & Hn & Hm & Hshape).
    rewrite submit_run, Hn, Hm.
    assert (Hre : re_test emailRegex (trim e) = true) by now apply emailRegex_shape.
    assert (He : has_visible e = true).
    { destruct (has_visible e) eqn:He; [reflexivity|].
      apply trim_nil in He. rewrite He in Hre. discriminate. }
    now rewrite He, Hre.
Qed.

Lemma submit_accepts_witness :
  submit (mkInputs (Some (of_ascii "  Ana ")) (Some (of_ascii " ana@mail.com  "))
            (Some (of_ascii "llaveros")) (Some (of_ascii "Hola")))
  = Submitted (mkFormData (of_ascii "Ana") (of_ascii "ana@mail.com")
                 (of_ascii "llaveros") (of_ascii "Hola")).
Proof.
  apply (proj2 (submit_accepts _ _)).
  exists (of_ascii "  Ana "), (of_ascii " ana@mail.com  "),
         (of_ascii "llaveros"), (of_ascii "Hola").
  split; [reflexivity|]. split; [reflexivity|].
  split; [reflexivity|]. split; [reflexivity|].
  exists (of_ascii "ana"), (of_ascii "mail"), (of_ascii "com").
  split; [reflexivity|]. repeat split; try discriminate.
Defined.

Lemma count_at_none s :
  forallb not_space_or_at s = true -> count_occ N.eq_dec s at_sign = 0%nat.
Proof.
  induction s as [|c s IH]; cbn [forallb]; intros H; [reflexivity|].
  apply andb_true_iff in H as [Hc Hs]. unfold not_space_or_at in Hc.
  apply andb_true_iff in Hc as [_ Hc]. apply negb_true_iff, N.eqb_neq in Hc.
  rewrite count_occ_cons_neq by exact Hc. now apply IH.
Qed.

Lemma no_space_of_class s :
  forallb not_space_or_at s = true -> has_visible s = negb (is_empty s) /\
  forallb (fun c => negb (is_space c)) s = true.
Proof.
  intros H. split.
  - destruct s as [|c s]; [reflexivity|]. cbn [forallb] in H.
    apply andb_true_iff in H as [Hc _]. unfold not_space_or_at in Hc.
    apply andb_true_iff in Hc as [Hc _]. unfold has_visible. cbn [existsb is_empty negb].
    now rewrite Hc.
  - induction s as [|c s IH]; [reflexivity|]. cbn [forallb] in *.
    apply andb_true_iff in H as [Hc Hs]. unfold not_space_or_at in Hc.
    apply andb_true_iff in Hc as [Hc _]. now rewrite Hc, IH.
Qed.

(** X19. No accepted address has whitespace or a second "@".  A string
    that passes the address check contains exactly one "@", no whitespace
    anywhere, and at least one "." after the "@"; in particular it has at
    least five code units. *)
Theorem emailRegex_necessary s :
  re_test emailRegex s = true ->
  count_occ N.eq_dec s at_sign = 1%nat /\
  forallb (fun c => negb (is_space c)) s = true /\
  (exists before after, s = before ++ at_sign :: after /\ In dot after) /\
  (5 <= length s)%nat.
Proof.
  intros H. apply emailRegex_shape in H
    as (local & left & right & -> & Hl & Hd1 & Hd2 & Hall).
  rewrite !forallb_app in Hall.
  apply andb_true_iff in Hall as [Hal Hall]. apply andb_true_iff in Hall as [Had1 Had2].
  split; [|split; [|split]].
  - rewrite count_occ_app, count_occ_cons_eq by reflexivity.
    rewrite count_occ_app, count_occ_cons_neq by discriminate.
    rewrite !count_at_none by assumption. reflexivity.
  - rewrite forallb_app. cbn [forallb]. rewrite forallb_app. cbn [forallb].
    rewrite (proj2 (no_space_of_class local Hal)),
            (proj2 (no_space_of_class left Had1)),
            (proj2 (no_space_of_class right Had2)).
    reflexivity.
  - exists local, (left ++ dot :: right). split; [reflexivity|].
    apply in_or_app. right. now left.
  - rewrite length_app. cbn [length]. rewrite length_app. cbn [length].
    destruct local; [now destruct Hl|]. destruct left; [now destruct Hd1|].
    destruct right; [now destruct Hd2|]. cbn [length]. lia.
Qed.

Lemma emailRegex_necessary_witness :
  count_occ N.eq_dec (of_ascii "ana@mail.com") at_sign = 1%nat /\
  forallb (fun c => negb (is_space c)) (of_ascii "ana@mail.com") = true /\
  (exists before after, of_ascii "ana@mail.com" = before ++ at_sign :: after /\
                        In dot after) /\
  (5 <= length (of_ascii "ana@mail.com"))%nat.
Proof.
  exact (emailRegex_necessary (of_ascii "ana@mail.com") eq_refl).
Defined.

End ContactFormFacts.
(** ** Mobile navigation *)

Section NavFacts.

Import Nav.

Lemma write_burger_run (t0 o1 t2 : string) (s0 s1 s2 : SpanStyle)
    (rest : list SpanStyle) :
  write_burger t0 o1 t2 (s0 :: s1 :: s2 :: rest) =
    (true, set_transform t0 s0 :: set_opacity o1 s1 :: set_transform t2 s2 :: rest).
Proof. reflexivity. Qed.

Lemma three_spans (l : list SpanStyle) :
  (3 <= length l)%nat -> exists s0 s1 s2 rest, l = s0 :: s1 :: s2 :: rest.
Proof.
  destruct l as [|s0 [|s1 [|s2 rest]]]; cbn; try lia.
  intros _. now exists s0, s1, s2, rest.
Qed.

Lemma nav_step_synced (s : NavState) (e : NavEvent) :
  nav_ready s ->
  nav_ready (nav_step s e) /\ nav_synced (nav_step s e) /\
  (e = LinkClick -> menu_active (nav_step s e) = Some false) /\
  (menu_active s = Some (toggle_active s) ->
   menu_active (nav_step s e) = Some (toggle_active (nav_step s e))).
Proof.
  intros [Hm Hl].
  destruct (three_spans _ Hl) as (s0 & s1 & s2 & rest & Hs).
  destruct (menu_active s) as [m|] eqn:Em; [clear Hm|congruence].
  destruct e; cbn [nav_step].
  - unfold toggle_click. rewrite Em, Hs.
    destruct m; cbn [negb]; unfold cross, bars; rewrite write_burger_run;
      cbn [snd].
    + repeat split; cbn; try congruence; try lia.
      * exists false. split; [reflexivity|].
        now eexists _, _, _, _; repeat split.
      * intros [= <-]. reflexivity.
    + repeat split; cbn; try congruence; try lia.
      * exists true. split; [reflexivity|].
        now eexists _, _, _, _; repeat split.
      * intros [= <-]. reflexivity.
  - unfold link_click. rewrite Em, Hs. unfold bars.
    rewrite write_burger_run; cbn [snd].
    repeat split; cbn; try congruence; try lia.
    exists false. split; [reflexivity|].
    now eexists _, _, _, _; repeat split.
Qed.

(** X20 (script.js, navToggle and navLinks click handlers): when the page
    has a menu and the toggle button has at least three spans, then after
    any non-empty sequence of clicks on the button and on menu links the
    three lines show the cross exactly when the menu is open and the bars
    when it is closed; the menu is closed whenever the last click was on a
    link; and if the button's "active" class agreed with the menu's at the
    start, it still does. *)
Theorem nav_icon_follows_menu (s : NavState) (trace : list NavEvent) :
  menu_active s <> None -> (3 <= length (spans s))%nat -> trace <> [] ->
  let s' := fold_left nav_step trace s in
  (exists m, menu_active s' = Some m /\
             (if m then shows_cross s' else shows_bars s')) /\
  (last trace ToggleClick = LinkClick -> menu_active s' = Some false) /\
  (menu_active s = Some (toggle_active s) ->
   menu_active s' = Some (toggle_active s')).
Proof.
  intros Hm Hl Hne.
  assert (Hr : nav_ready s) by now split.
  clear Hm Hl. revert Hne.
  induction trace as [|e tr IH] using rev_ind; [congruence|intros _].
  rewrite fold_left_app, last_last. cbn [fold_left].
  assert (Hr' : nav_ready (fold_left nav_step tr s)).
  { clear IH. induction tr as [|e' tr IH'] using rev_ind; [exact Hr|].
    rewrite fold_left_app. cbn [fold_left].
    now apply nav_step_synced. }
  assert (Hsync : menu_active s = Some (toggle_active s) ->
                  menu_active (fold_left nav_step tr s) =
                    Some (toggle_active (fold_left nav_step tr s))).
  { clear IH Hr'. induction tr as [|e' tr IH'] using rev_ind; [trivial|].
    intros H0. rewrite fold_left_app. cbn [fold_left].
    assert (Hr' : nav_ready (fold_left nav_step tr s)).
    { clear IH' H0. induction tr as [|e'' tr IH''] using rev_ind; [exact Hr|].
      rewrite fold_left_app. cbn [fold_left].
      now apply nav_step_synced. }
    apply (nav_step_synced _ e' Hr'). auto. }
  destruct (nav_step_synced _ e Hr') as (_ & Hs & Hlink & Hkeep).
  cbv zeta. split; [exact Hs|]. split; [exact Hlink|].
  intros H0. auto.
Qed.

Lemma nav_icon_follows_menu_witness :
  shows_cross (fold_left nav_step [ToggleClick; LinkClick; ToggleClick] sample_nav).
Proof.
  destruct (nav_icon_follows_menu sample_nav [ToggleClick; LinkClick; ToggleClick])
    as ((m & Hm & Hshow) & _).
  - discriminate.
  - cbn. lia.
  - discriminate.
  - cbv zeta in Hm. vm_compute in Hm. injection Hm as <-. exact Hshow.
Defined.

(** X21 (script.js, navToggle click handler): when the toggle button has
    fewer than three spans, a click on it still flips the "active" class
    of the menu and of the button, and then throws while styling the
    lines, having styled the spans that exist. *)
Theorem toggle_click_too_few_spans (s : NavState) (m : bool) :
  menu_active s = Some m -> (length (spans s) < 3)%nat ->
  let (ok, s') := toggle_click s in
  ok = false /\ menu_active s' = Some (negb m) /\
  toggle_active s' = negb (toggle_active s) /\
  length (spans s') = length (spans s) /\
  Forall (fun sp => (transform sp <> None \/ opacity sp <> None)) (spans s').
Proof.
  intros Hm Hl. unfold toggle_click. rewrite Hm.
  destruct (spans s) as [|s0 [|s1 [|s2 rest]]]; cbn in Hl; try lia;
    destruct m; cbn; repeat split;
    repeat (apply Forall_cons || apply Forall_nil); cbn;
    solve [left; discriminate | right; discriminate].
Qed.

Lemma toggle_click_too_few_spans_witness :
  fst (toggle_click (mkNavState (Some false) false [mkSpanStyle None None])) = false.
Proof.
  pose proof (toggle_click_too_few_spans
                (mkNavState (Some false) false [mkSpanStyle None None]) false
                eq_refl) as H.
  cbn [spans length] in H. specialize (H ltac:(lia)).
  destruct (toggle_click _) as [ok s']. cbn. apply H.
Defined.

End NavFacts.

(** ** Cursor trail *)

Section CursorFacts.

Import Cursor.
Local Open Scope list_scope.

Context {Coord : Type}.

Implicit Types s : @CursorState Coord.

Lemma every_third_cons3 {A} (a b c : A) (l : list A) :
  every_third (a :: b :: c :: l) = a :: every_third l.
Proof. reflexivity. Qed.

Lemma every_third_snoc {A} (l : list A) (x : A) :
  every_third (l ++ [x]) =
    if (length l mod 3 =? 0)%nat then every_third l ++ [x] else every_third l.
Proof.
  remember (length l) as n eqn:Hn. revert l Hn.
  induction n as [n IH] using lt_wf_ind. intros l Hn.
  destruct l as [|a [|b [|c l]]]; cbn [length] in Hn; subst n;
    try reflexivity.
  cbn [app]. rewrite !every_third_cons3.
  rewrite (IH (length l) ltac:(cbn; lia) l eq_refl).
  replace (S (S (S (length l)))) with (length l + 1 * 3)%nat by lia.
  rewrite Nat.Div0.mod_add.
  now destruct (length l mod 3 =? 0)%nat.
Qed.

Lemma every_third_length {A} (l : list A) :
  length (every_third l) = ((length l + 2) / 3)%nat.
Proof.
  remember (length l) as n eqn:Hn. revert l Hn.
  induction n as [n IH] using lt_wf_ind. intros l Hn.
  destruct l as [|a [|b [|c l]]]; cbn [length] in Hn; subst n;
    try reflexivity.
  rewrite every_third_cons3. cbn [length].
  rewrite (IH (length l) ltac:(lia) l eq_refl).
  replace (S (S (S (length l))) + 2)%nat with (length l + 2 + 1 * 3)%nat by lia.
  rewrite Nat.div_add by lia. lia.
Qed.

Lemma rem3_of_nat (n : nat) :
  (Z.rem (Z.of_nat n) 3 =? 0) = (n mod 3 =? 0)%nat.
Proof.
  rewrite Z.rem_mod_nonneg by lia.
  change 3 with (Z.of_nat 3). rewrite <- Nat2Z.inj_mod.
  destruct (Nat.eqb_spec (n mod 3) 0) as [->|Hne]; [reflexivity|].
  apply Z.eqb_neq. lia.
Qed.

Lemma mousemove_trail_inv (done : list (Coord * Coord)) s (x y : Coord) :
  trail_inv done s -> trail_inv (done ++ [(x, y)]) (mousemove x y s).
Proof.
  intros (Hi & Hc & Hr & Hb). unfold trail_inv, mousemove. cbn.
  rewrite Hi, rem3_of_nat, every_third_snoc, length_app. cbn [length].
  destruct (length done mod 3 =? 0)%nat; cbn.
  - repeat split.
    + lia.
    + now rewrite Hc.
    + now rewrite map_app, Hr.
    + apply Forall_app. split.
      * eapply Forall_impl; [|exact Hb]. cbn. intros t Ht.
        rewrite nth_error_app1; [exact Ht|].
        apply nth_error_Some. congruence.
      * constructor; [|constructor]. cbn.
        now rewrite nth_error_app2, Nat.sub_diag by lia.
  - repeat split; auto. lia.
Qed.

Lemma removal_timer_trail_inv (done : list (Coord * Coord)) s (node : nat) :
  trail_inv done s -> trail_inv done (removal_timer node s).
Proof.
  intros (Hi & Hc & Hr & Hb). unfold trail_inv, removal_timer.
  destruct (existsb _ _); [|now repeat split]. cbn.
  repeat split; auto.
  - rewrite <- Hr. clear. induction (in_body s) as [|t l IH]; [reflexivity|].
    cbn. destruct (negb (fst t =? node)%nat); cbn; now rewrite IH.
  - rewrite Forall_forall in *. intros t Ht.
    apply filter_In in Ht as [Ht _]. now apply Hb.
Qed.

Lemma run_trail_inv (zero : Coord) (trace : list CursorEvent) :
  trail_inv (moves trace) (fold_left cursor_step trace (cursor_init zero)).
Proof.
  induction trace as [|e tr IH] using rev_ind.
  - cbn. repeat split; constructor.
  - rewrite fold_left_app. unfold moves in *. rewrite flat_map_app.
    cbn [fold_left flat_map]. destruct e as [x y|node]; cbn [cursor_step].
    + rewrite app_nil_r. now apply mousemove_trail_inv.
    + rewrite !app_nil_r. now apply removal_timer_trail_inv.
Qed.

End CursorFacts.

(** X22 (script.js, mousemove handler and createTrail): starting from the
    state the script sets up, after any sequence of mouse moves and trail
    timers, [trailIndex] is the number of moves so far; the trails created
    are those of the first, fourth, seventh, ... move, at the position of
    that move, so there are ceil(n / 3) of them after n moves; and the
    trail elements in the document are exactly those whose removal timer
    is still queued, each at the position it was created with. *)
Theorem trail_every_third_move {Coord : Type} (zero : Coord)
    (trace : list (@Cursor.CursorEvent Coord)) :
  let s := fold_left Cursor.cursor_step trace (Cursor.cursor_init zero) in
  Cursor.trailIndex s = Z.of_nat (length (Cursor.moves trace)) /\
  Cursor.created s = Cursor.every_third (Cursor.moves trace) /\
  length (Cursor.created s) = ((length (Cursor.moves trace) + 2) / 3)%nat /\
  map fst (Cursor.in_body s) = Cursor.removals s /\
  Forall (fun t => nth_error (Cursor.created s) (fst t) = Some (snd t))
         (Cursor.in_body s).
Proof.
  destruct (run_trail_inv zero trace) as (Hi & Hc & Hr & Hb).
  cbv zeta. repeat split; auto.
  rewrite Hc. apply every_third_length.
Qed.

Example trail_sample_run :
  let s := fold_left Cursor.cursor_step
             [Cursor.MouseMove 1 1; Cursor.MouseMove 2 2; Cursor.RemovalTimer 0%nat;
              Cursor.MouseMove 3 3; Cursor.MouseMove 4 4; Cursor.MouseMove 5 5]
             (Cursor.cursor_init 0) in
  Cursor.created s = [(1, 1); (4, 4)] /\ Cursor.in_body s = [(1%nat, (4, 4))] /\
  Cursor.trailIndex s = 5.
Proof. now vm_compute. Qed.

(** ** The script's top level *)

Section ScriptFacts.

Import Script.
Local Open Scope list_scope.

Lemma for_each_target (n : nat) (f : nat -> list Listener) (l : Listener) :
  In l (for_each n f) -> exists i, In l (f i).
Proof.
  unfold for_each. rewrite in_flat_map. intros (i & _ & Hi). now exists i.
Qed.

Lemma loader_not_before_form (d : Shell) :
  ~ In (DocumentT, "DOMContentLoaded") (cursor_part d ++ [(WindowT, "scroll")]) /\
  ~ In (DocumentT, "DOMContentLoaded") (nav_part d).
Proof.
  unfold cursor_part, nav_part. split; intros H.
  - rewrite !in_app_iff in H. destruct H as [[H|H]|H].
    + cbn in H. intuition discriminate.
    + apply for_each_target in H as (i & H). cbn in H. intuition discriminate.
    + cbn in H. intuition discriminate.
  - rewrite !in_app_iff in H. destruct H as [H|[H|[H|H]]].
    + cbn in H. intuition discriminate.
    + apply for_each_target in H as (i & H). cbn in H. intuition discriminate.
    + apply for_each_target in H as (i & H). cbn in H. intuition discriminate.
    + destruct (has_catalogBtn d); cbn in H; intuition discriminate.
Qed.

Lemma loader_in_form_part (d : Shell) :
  In (DocumentT, "DOMContentLoaded") (form_part d).
Proof.
  unfold form_part. rewrite !in_app_iff. right. right. now left.
Qed.

Lemma mousemove_in_cursor_part (d : Shell) :
  In (DocumentT, "mousemove") (cursor_part d).
Proof. unfold cursor_part. rewrite in_app_iff. left. now left. Qed.

End ScriptFacts.

(** X23 (script.js, top level): the listener that loads the gallery on
    DOMContentLoaded is registered exactly when the document has a body,
    a [.nav-toggle] and a [.contact-form] at the time the script runs, and
    this is also exactly when the script runs to its end: without one of
    them an earlier statement throws and the gallery is never loaded,
    while the listeners registered before that statement stay (the mouse
    move listener whenever there is a body). *)
Theorem gallery_loader_registered (d : Script.Shell) :
  (Script.registered d (Script.DocumentT, "DOMContentLoaded") <->
   Script.has_body d = true /\ Script.has_navToggle d = true /\
   Script.has_contactForm d = true) /\
  (fst (Script.top_level d) = true <->
   Script.registered d (Script.DocumentT, "DOMContentLoaded")) /\
  (Script.registered d (Script.DocumentT, "mousemove") <->
   Script.has_body d = true).
Proof.
  destruct (loader_not_before_form d) as [H1 H2].
  pose proof (loader_in_form_part d) as H3.
  pose proof (mousemove_in_cursor_part d) as H4.
  rewrite in_app_iff in H1.
  unfold Script.registered, Script.top_level.
  destruct (Script.has_body d), (Script.has_navToggle d),
    (Script.has_contactForm d); cbn [negb fst snd];
    rewrite ?in_app_iff; cbn [In];
    intuition (discriminate || auto).
Qed.

Example gallery_loader_sample :
  fst (Script.top_level sample_shell) = true /\
  length (snd (Script.top_level sample_shell)) = 26%nat /\
  fst (Script.top_level (Script.mkShell true false true true 4 3 3 2)) = false.
Proof. now vm_compute. Qed.
